(** * CameraGrid: layout solver, resolution catalog and selection/scan controller

    A shallow embedding of [cameragrid.js] (both revisions found in the
    repository) and the properties its specification states about it.

    Conventions of the embedding.
    - JavaScript numbers that hold pixel counts, tile indices and cell counts
      are integers ([Z]); quotients of them are exact rationals ([Q]).
      IEEE-754 rounding, [NaN] and [Infinity] are not modelled: every theorem
      about arithmetic carries the hypotheses (positive sizes, at least one
      tile) under which no divisor is zero and no radicand is negative.
    - [Math.sqrt] yields an irrational number in general.  The source only
      ever applies [Math.ceil] and [Math.floor] to it, so a square root is
      kept as its radicand ([Surd]) and the two roundings are computed with
      the integer square root; [Math_floor_spec] and [Math_ceil_spec] state
      that they are the floor and the ceiling of the real square root.
    - [null] and [undefined] are both [None]; the loose comparisons [==] and
      [!=] of the source do not tell them apart either.
    - Reading a property of [undefined] throws a [TypeError]; the controller
      monad [M] carries that abrupt completion, the state reached so far and
      the trace of rendering commands issued. *)

From Stdlib Require Import ZArith QArith Qround Qminmax Lia Lqa List Ascii String.
From stdpp Require Import base list strings pretty.

Local Open Scope Z_scope.

(** ** Values *)

(** The strings ['width'] and ['height']. *)
Inductive Constraint := Width | Height.

(** The object returned by [calculateGrid_].  The first three fields are
    [undefined] when no grid option was viable. *)
Record Grid := mkGrid {
  gridWidthCells : option Z;
  gridHeightCells : option Z;
  constraint : option Constraint;
  containerConstraint : Constraint;
  cellWidthPx : Q;
  cellHeightPx : Q;
}.

(** The object returned by [findMinimumResolution_]. *)
Record Resolution := mkResolution {
  imgWidthPx : Z;
  imgHeightPx : Z;
}.

(** A [cameraGridCell] element: its class names and the [src] of the image
    inside each of its [cameraGridImgContainer] children, in child order (the
    last one is [cell.lastChild]). *)
Record Cell := mkCell {
  cellClasses : list string;
  imgContainers : list string;
}.

(** The container element: the size the browser reports for it, its class
    names and its children, one list of cell indices per [cameraGridRow]. *)
Record Container := mkContainer {
  offsetWidth : Z;
  offsetHeight : Z;
  containerClasses : list string;
  rows : list (list nat);
}.

(** The [min-width] / [min-height] pair written by [setUpscaleRule_]. *)
Record UpscaleStyle := mkUpscaleStyle {
  minWidth : string;
  minHeight : string;
}.

(** The four stylesheet rules the controller keeps a handle on.  The two size
    rules hold the percentage written by [buildGrid_]. *)
Record Stylesheet := mkStylesheet {
  rowHeightRule_ : option Q;
  cellWidthRule_ : option Q;
  imageScaleRule_ : option UpscaleStyle;
  containerImageScaleRule_ : option UpscaleStyle;
}.

(** The fields of a [CameraGrid] object. *)
Record CameraGrid := mkCameraGrid {
  container_ : Container;
  sourceUrls_ : list string;
  resolutions_ : list (Z * Z);
  getUrl_ : option string -> option Z -> option Z -> string;
  tileScaleWidth_ : Z;
  tileScaleHeight_ : Z;
  gridWidthCells_ : option Z;
  gridHeightCells_ : option Z;
  imgWidthPx_ : option Z;
  imgHeightPx_ : option Z;
  constraint_ : option Constraint;
  containerImgWidthPx_ : option Z;
  containerImgHeightPx_ : option Z;
  containerConstraint_ : option Constraint;
  selected_ : option Z;
  scanning_ : bool;
  cells_ : list Cell;
  stylesheet_ : Stylesheet;
}.

(** ** Number helpers *)

(** [Number.MAX_VALUE], which is the integer [2^1024 - 2^971]. *)
Definition Number_MAX_VALUE : Z := 2 ^ 1024 - 2 ^ 971.

(** The value of [Math.sqrt(x)], kept as its radicand. *)
Record Surd := Math_sqrt { radicand : Q }.

(** [Math.floor(Math.sqrt(x))]: the integer square root of [floor x]. *)
Definition Math_floor (s : Surd) : Z := Z.sqrt (Qfloor (radicand s)).

(** [Math.ceil(Math.sqrt(x))]: the least [k >= 0] with [k * k >= ceil x]. *)
Definition Math_ceil (s : Surd) : Z :=
  let c := Qceiling (radicand s) in
  let r := Z.sqrt c in
  if r * r =? c then r else r + 1.

(** [x < y] on rationals, as a boolean. *)
Definition Qltb (x y : Q) : bool :=
  match (x ?= y)%Q with Lt => true | _ => false end.

(** [a != b] where each side is a number or [undefined]: two numbers compare
    by value, [undefined] only equals itself. *)
Definition num_neq (a b : option Z) : bool :=
  match a, b with
  | Some x, Some y => negb (x =? y)
  | None, None => false
  | _, _ => true
  end.

Definition Constraint_eqb (a b : Constraint) : bool :=
  match a, b with
  | Width, Width | Height, Height => true
  | _, _ => false
  end.

(** [a != b] where each side is ['width'], ['height'], [null] or
    [undefined]. *)
Definition constraint_neq (a b : option Constraint) : bool :=
  match a, b with
  | Some x, Some y => negb (Constraint_eqb x y)
  | None, None => false
  | _, _ => true
  end.

(** ** The grid solver, [calculateGrid_] *)

(** The variables the option loop of [calculateGrid_] assigns. *)
Record GridLoop := mkGridLoop {
  minCells : Z;
  maxScale : Q;
  chosenWidth : option Z;
  chosenHeight : option Z;
  chosenConstraint : option Constraint;
}.

(** The cell count of a grid option. *)
Definition numCellsOf (gridOption : Z * Z) : Z :=
  fst gridOption * snd gridOption.

Definition widthScaleOf (containerWidth tileScaleWidth : Q) (gridOption : Z * Z) : Q :=
  (containerWidth / inject_Z (fst gridOption)) / tileScaleWidth.

Definition heightScaleOf (containerHeight tileScaleHeight : Q) (gridOption : Z * Z) : Q :=
  (containerHeight / inject_Z (snd gridOption)) / tileScaleHeight.

(** The [scale] and [constraint] the loop body computes for an option. *)
Definition scaleOf (containerWidth containerHeight tileScaleWidth tileScaleHeight : Q)
    (gridOption : Z * Z) : Q * Constraint :=
  let widthScale := widthScaleOf containerWidth tileScaleWidth gridOption in
  let heightScale := heightScaleOf containerHeight tileScaleHeight gridOption in
  if Qltb widthScale heightScale then (widthScale, Width) else (heightScale, Height).

(** One iteration of [for (var i = 0; i < gridOptions.length; i++)]; each
    [continue] leaves the variables as they are. *)
Definition gridLoopBody (containerWidth containerHeight tileScaleWidth tileScaleHeight : Q)
    (numTiles : Z) (vars : GridLoop) (gridOption : Z * Z) : GridLoop :=
  let numCells := numCellsOf gridOption in
  if numCells <? numTiles then vars
  else
    let '(scale, constraint) :=
      scaleOf containerWidth containerHeight tileScaleWidth tileScaleHeight gridOption in
    if Qltb scale (maxScale vars) then vars
    else if Qeq_bool scale (maxScale vars) && (numCells >? minCells vars) then vars
    else
      {| minCells := numCells;
         maxScale := scale;
         chosenWidth := Some (fst gridOption);
         chosenHeight := Some (snd gridOption);
         chosenConstraint := Some constraint |}.

Definition gridLoopInit : GridLoop :=
  {| minCells := Number_MAX_VALUE;
     maxScale := 0;
     chosenWidth := None;
     chosenHeight := None;
     chosenConstraint := None |}.

Definition scaleFactorOf (containerWidth containerHeight tileScaleWidth tileScaleHeight : Q) : Q :=
  ((containerHeight / tileScaleHeight) / (containerWidth / tileScaleWidth))%Q.

(** The three options, in the order the source lists them. *)
Definition gridOptionsOf (scaleFactor : Q) (numTiles : Z) : list (Z * Z) :=
  let gridHeight := Math_sqrt (scaleFactor * inject_Z numTiles) in
  let gridWidth := Math_sqrt (inject_Z numTiles / scaleFactor) in
  [ (Math_ceil gridWidth, Math_floor gridHeight);
    (Math_floor gridWidth, Math_ceil gridHeight);
    (Math_ceil gridWidth, Math_ceil gridHeight) ].

Definition calculateGrid_ (this : CameraGrid) : Grid :=
  let containerWidth := inject_Z (offsetWidth (container_ this)) in
  let containerHeight := inject_Z (offsetHeight (container_ this)) in
  let numTiles := Z.of_nat (length (sourceUrls_ this)) in
  let tileScaleWidth := inject_Z (tileScaleWidth_ this) in
  let tileScaleHeight := inject_Z (tileScaleHeight_ this) in
  let scaleFactor :=
    scaleFactorOf containerWidth containerHeight tileScaleWidth tileScaleHeight in
  let gridOptions := gridOptionsOf scaleFactor numTiles in
  let vars :=
    fold_left
      (gridLoopBody containerWidth containerHeight tileScaleWidth tileScaleHeight numTiles)
      gridOptions gridLoopInit in
  {| gridWidthCells := chosenWidth vars;
     gridHeightCells := chosenHeight vars;
     constraint := chosenConstraint vars;
     containerConstraint := if Qltb 1 scaleFactor then Width else Height;
     cellWidthPx := tileScaleWidth * maxScale vars;
     cellHeightPx := tileScaleHeight * maxScale vars |}.

(** ** The resolution catalog, [findMinimumResolution_] *)

(** First revision: the loop guard [i + 1 < this.resolutions_.length] makes
    the last entry the answer when every earlier one was skipped.  On an
    empty list the loop body never runs and the function returns
    [undefined]. *)
Fixpoint findMinimumResolution_ (resolutions : list (Z * Z)) (tileWidth tileHeight : Q)
    : option Resolution :=
  match resolutions with
  | [] => None
  | resolution :: rest =>
      if negb (Nat.eqb (length rest) 0)
         && (Qltb (inject_Z (fst resolution)) tileWidth
             && Qltb (inject_Z (snd resolution)) tileHeight)
      then findMinimumResolution_ rest tileWidth tileHeight
      else Some {| imgWidthPx := fst resolution; imgHeightPx := snd resolution |}
  end.

(** Second revision, the loop alone: [Some] when it returns from inside. *)
Fixpoint findMinimumResolution_loop2 (resolutions : list (Z * Z)) (tileWidth tileHeight : Q)
    : option Resolution :=
  match resolutions with
  | [] => None
  | resolution :: rest =>
      if Qltb (inject_Z (fst resolution)) tileWidth
         && Qltb (inject_Z (snd resolution)) tileHeight
      then findMinimumResolution_loop2 rest tileWidth tileHeight
      else Some {| imgWidthPx := fst resolution; imgHeightPx := snd resolution |}
  end.

Definition upscaleMessage : string :=
  "Your screen is larger than the largest feed resolution. Images will be scaled up".

(** Second revision: the lines written with [console.log], and the result;
    [None] is the [TypeError] raised by [lastResolution[0]] on an empty
    list. *)
Definition findMinimumResolution_2 (resolutions : list (Z * Z)) (tileWidth tileHeight : Q)
    : list string * option Resolution :=
  match findMinimumResolution_loop2 resolutions tileWidth tileHeight with
  | Some r => ([], Some r)
  | None =>
      ([upscaleMessage],
       match last resolutions with
       | Some lastResolution =>
           Some {| imgWidthPx := fst lastResolution; imgHeightPx := snd lastResolution |}
       | None => None
       end)
  end.

(** ** Field assignment

    [set_f v this] is the object after [this.f = v]; the arguments of
    [mkCameraGrid] are the fields in the order of the record. *)

Definition set_container_ (v : Container) (this : CameraGrid) : CameraGrid :=
  mkCameraGrid v (sourceUrls_ this) (resolutions_ this) (getUrl_ this) (tileScaleWidth_
    this) (tileScaleHeight_ this) (gridWidthCells_ this) (gridHeightCells_ this)
    (imgWidthPx_ this) (imgHeightPx_ this) (constraint_ this) (containerImgWidthPx_
    this) (containerImgHeightPx_ this) (containerConstraint_ this) (selected_ this)
    (scanning_ this) (cells_ this) (stylesheet_ this).

Definition set_gridWidthCells_ (v : option Z) (this : CameraGrid) : CameraGrid :=
  mkCameraGrid (container_ this) (sourceUrls_ this) (resolutions_ this) (getUrl_ this)
    (tileScaleWidth_ this) (tileScaleHeight_ this) v (gridHeightCells_ this)
    (imgWidthPx_ this) (imgHeightPx_ this) (constraint_ this) (containerImgWidthPx_
    this) (containerImgHeightPx_ this) (containerConstraint_ this) (selected_ this)
    (scanning_ this) (cells_ this) (stylesheet_ this).

Definition set_gridHeightCells_ (v : option Z) (this : CameraGrid) : CameraGrid :=
  mkCameraGrid (container_ this) (sourceUrls_ this) (resolutions_ this) (getUrl_ this)
    (tileScaleWidth_ this) (tileScaleHeight_ this) (gridWidthCells_ this) v (imgWidthPx_
    this) (imgHeightPx_ this) (constraint_ this) (containerImgWidthPx_ this)
    (containerImgHeightPx_ this) (containerConstraint_ this) (selected_ this) (scanning_
    this) (cells_ this) (stylesheet_ this).

Definition set_imgWidthPx_ (v : option Z) (this : CameraGrid) : CameraGrid :=
  mkCameraGrid (container_ this) (sourceUrls_ this) (resolutions_ this) (getUrl_ this)
    (tileScaleWidth_ this) (tileScaleHeight_ this) (gridWidthCells_ this)
    (gridHeightCells_ this) v (imgHeightPx_ this) (constraint_ this)
    (containerImgWidthPx_ this) (containerImgHeightPx_ this) (containerConstraint_ this)
    (selected_ this) (scanning_ this) (cells_ this) (stylesheet_ this).

Definition set_imgHeightPx_ (v : option Z) (this : CameraGrid) : CameraGrid :=
  mkCameraGrid (container_ this) (sourceUrls_ this) (resolutions_ this) (getUrl_ this)
    (tileScaleWidth_ this) (tileScaleHeight_ this) (gridWidthCells_ this)
    (gridHeightCells_ this) (imgWidthPx_ this) v (constraint_ this)
    (containerImgWidthPx_ this) (containerImgHeightPx_ this) (containerConstraint_ this)
    (selected_ this) (scanning_ this) (cells_ this) (stylesheet_ this).

Definition set_constraint_ (v : option Constraint) (this : CameraGrid) : CameraGrid :=
  mkCameraGrid (container_ this) (sourceUrls_ this) (resolutions_ this) (getUrl_ this)
    (tileScaleWidth_ this) (tileScaleHeight_ this) (gridWidthCells_ this)
    (gridHeightCells_ this) (imgWidthPx_ this) (imgHeightPx_ this) v
    (containerImgWidthPx_ this) (containerImgHeightPx_ this) (containerConstraint_ this)
    (selected_ this) (scanning_ this) (cells_ this) (stylesheet_ this).

Definition set_containerImgWidthPx_ (v : option Z) (this : CameraGrid) : CameraGrid :=
  mkCameraGrid (container_ this) (sourceUrls_ this) (resolutions_ this) (getUrl_ this)
    (tileScaleWidth_ this) (tileScaleHeight_ this) (gridWidthCells_ this)
    (gridHeightCells_ this) (imgWidthPx_ this) (imgHeightPx_ this) (constraint_ this) v
    (containerImgHeightPx_ this) (containerConstraint_ this) (selected_ this) (scanning_
    this) (cells_ this) (stylesheet_ this).

Definition set_containerImgHeightPx_ (v : option Z) (this : CameraGrid) : CameraGrid :=
  mkCameraGrid (container_ this) (sourceUrls_ this) (resolutions_ this) (getUrl_ this)
    (tileScaleWidth_ this) (tileScaleHeight_ this) (gridWidthCells_ this)
    (gridHeightCells_ this) (imgWidthPx_ this) (imgHeightPx_ this) (constraint_ this)
    (containerImgWidthPx_ this) v (containerConstraint_ this) (selected_ this)
    (scanning_ this) (cells_ this) (stylesheet_ this).

Definition set_containerConstraint_ (v : option Constraint) (this : CameraGrid) : CameraGrid :=
  mkCameraGrid (container_ this) (sourceUrls_ this) (resolutions_ this) (getUrl_ this)
    (tileScaleWidth_ this) (tileScaleHeight_ this) (gridWidthCells_ this)
    (gridHeightCells_ this) (imgWidthPx_ this) (imgHeightPx_ this) (constraint_ this)
    (containerImgWidthPx_ this) (containerImgHeightPx_ this) v (selected_ this)
    (scanning_ this) (cells_ this) (stylesheet_ this).

Definition set_selected_ (v : option Z) (this : CameraGrid) : CameraGrid :=
  mkCameraGrid (container_ this) (sourceUrls_ this) (resolutions_ this) (getUrl_ this)
    (tileScaleWidth_ this) (tileScaleHeight_ this) (gridWidthCells_ this)
    (gridHeightCells_ this) (imgWidthPx_ this) (imgHeightPx_ this) (constraint_ this)
    (containerImgWidthPx_ this) (containerImgHeightPx_ this) (containerConstraint_ this)
    v (scanning_ this) (cells_ this) (stylesheet_ this).

Definition set_scanning_ (v : bool) (this : CameraGrid) : CameraGrid :=
  mkCameraGrid (container_ this) (sourceUrls_ this) (resolutions_ this) (getUrl_ this)
    (tileScaleWidth_ this) (tileScaleHeight_ this) (gridWidthCells_ this)
    (gridHeightCells_ this) (imgWidthPx_ this) (imgHeightPx_ this) (constraint_ this)
    (containerImgWidthPx_ this) (containerImgHeightPx_ this) (containerConstraint_ this)
    (selected_ this) v (cells_ this) (stylesheet_ this).

Definition set_cells_ (v : list Cell) (this : CameraGrid) : CameraGrid :=
  mkCameraGrid (container_ this) (sourceUrls_ this) (resolutions_ this) (getUrl_ this)
    (tileScaleWidth_ this) (tileScaleHeight_ this) (gridWidthCells_ this)
    (gridHeightCells_ this) (imgWidthPx_ this) (imgHeightPx_ this) (constraint_ this)
    (containerImgWidthPx_ this) (containerImgHeightPx_ this) (containerConstraint_ this)
    (selected_ this) (scanning_ this) v (stylesheet_ this).

Definition set_stylesheet_ (v : Stylesheet) (this : CameraGrid) : CameraGrid :=
  mkCameraGrid (container_ this) (sourceUrls_ this) (resolutions_ this) (getUrl_ this)
    (tileScaleWidth_ this) (tileScaleHeight_ this) (gridWidthCells_ this)
    (gridHeightCells_ this) (imgWidthPx_ this) (imgHeightPx_ this) (constraint_ this)
    (containerImgWidthPx_ this) (containerImgHeightPx_ this) (containerConstraint_ this)
    (selected_ this) (scanning_ this) (cells_ this) v.

(** ** The controller monad *)

(** The two stylesheet rules [setUpscaleRule_] is applied to. *)
Inductive RuleName := ImageScaleRule | ContainerImageScaleRule.

(** What one run of [buildImage_] did: the tile, the URL it computed and
    whether it created a new [img] (it does not when the cell's last image
    already has that URL). *)
Record ImageRequest := mkImageRequest {
  reqIndex : Z;
  reqUrl : string;
  reqCreated : bool;
}.

(** The trace: one entry per call of a rendering procedure, and the lines
    written to the console.  A call of [buildImages_] is one entry that holds
    the image requests made inside it. *)
Inductive Effect :=
| SetUpscaleRule (rule : RuleName) (c : option Constraint)
| BuildImage (r : ImageRequest)
| BuildImages (rs : list ImageRequest)
| BuildGrid (w h : option Z)
| ConsoleLog (msg : string).

Inductive Completion (A : Type) :=
| Normal (a : A)
| TypeError.
Arguments Normal {A} a.
Arguments TypeError {A}.

Definition M (A : Type) : Type :=
  CameraGrid -> Completion A * CameraGrid * list Effect.

#[global] Instance M_ret : MRet M := fun A a this => (Normal a, this, []).

#[global] Instance M_bind : MBind M := fun A B f m this =>
  match m this with
  | (Normal a, this', t) =>
      let '(r, this'', t') := f a this' in (r, this'', t ++ t')
  | (TypeError, this', t) => (TypeError, this', t)
  end.

Definition get : M CameraGrid := fun this => (Normal this, this, []).
Definition modify (f : CameraGrid -> CameraGrid) : M unit :=
  fun this => (Normal tt, f this, []).
Definition emit (e : Effect) : M unit := fun this => (Normal tt, this, [e]).
Definition throw {A} : M A := fun this => (TypeError, this, []).

(** [for (...) body(x)] over the values [l], stopping at a throw. *)
Fixpoint forEach {A} (l : list A) (body : A -> M unit) : M unit :=
  match l with
  | [] => mret tt
  | x :: l' => body x;; forEach l' body
  end.

Definition imageRequestsOf (t : list Effect) : list ImageRequest :=
  omap (fun e => match e with BuildImage r => Some r | _ => None end) t.

(** Runs [m] and records its image requests as one [BuildImages] entry. *)
Definition asBuildImages {A} (m : M A) : M A := fun this =>
  let '(r, this', t) := m this in (r, this', [BuildImages (imageRequestsOf t)]).

(** ** DOM helpers *)

(** [l[i]] for a number [i]: [undefined] outside the list. *)
Definition lookupZ {A} (l : list A) (i : Z) : option A :=
  if i <? 0 then None else l !! Z.to_nat i.

(** [this.cells_[index]] handed to a procedure that reads and rewrites a
    property of the node: a [TypeError] when the node is [undefined]. *)
Definition withCell (index : Z) (f : Cell -> Cell) : M unit :=
  this ← get;
  match lookupZ (cells_ this) index with
  | None => throw
  | Some cell => modify (set_cells_ (<[Z.to_nat index := f cell]> (cells_ this)))
  end.

(** [addCSSClass_] on the class names of a node. *)
Definition addCSSClass_ (className : string) (classes : list string) : list string :=
  if decide (className ∈ classes) then classes else classes ++ [className].

(** [removeCSSClass_] on the class names of a node: the first occurrence
    goes. *)
Fixpoint removeCSSClass_ (className : string) (classes : list string) : list string :=
  match classes with
  | [] => []
  | c :: cs => if decide (c = className) then cs else c :: removeCSSClass_ className cs
  end.

Definition cellAddClass (className : string) (cell : Cell) : Cell :=
  mkCell (addCSSClass_ className (cellClasses cell)) (imgContainers cell).

Definition cellRemoveClass (className : string) (cell : Cell) : Cell :=
  mkCell (removeCSSClass_ className (cellClasses cell)) (imgContainers cell).

Definition cellAppendImg (imgUrl : string) (cell : Cell) : Cell :=
  mkCell (cellClasses cell) (imgContainers cell ++ [imgUrl]).

(** ** Defaults *)

Definition defaultResolutions_ : list (Z * Z) :=
  [ (160, 120); (240, 180); (320, 240); (480, 360);
    (640, 480); (800, 600); (1024, 768); (1280, 960) ].

Definition numberToString (n : option Z) : string :=
  match n with Some z => pretty z | None => "undefined" end.

Definition defaultGetUrl_ (sourceUrl : option string) (width height : option Z) : string :=
  default "undefined" sourceUrl +:+ "mjpg/video.mjpg?resolution="
    +:+ numberToString width +:+ "x" +:+ numberToString height.

(** ** Selection and scanning *)

(** [index == this.selected_] for a number [index]. *)
Definition isSelected (this : CameraGrid) (index : Z) : bool :=
  match selected_ this with Some s => index =? s | None => false end.

(** The URL [buildImage_] computes for a tile. *)
Definition imgUrlOf (this : CameraGrid) (index : Z) : string :=
  let sourceUrl := lookupZ (sourceUrls_ this) index in
  if scanning_ this || isSelected this index
  then getUrl_ this sourceUrl (containerImgWidthPx_ this) (containerImgHeightPx_ this)
  else getUrl_ this sourceUrl (imgWidthPx_ this) (imgHeightPx_ this).

Definition buildImage_ (index : Z) : M unit :=
  this ← get;
  let imgUrl := imgUrlOf this index in
  match lookupZ (cells_ this) index with
  | None => throw
  | Some cell =>
      if decide (last (imgContainers cell) = Some imgUrl)
      then emit (BuildImage (mkImageRequest index imgUrl false))
      else
        withCell index (cellAppendImg imgUrl);;
        emit (BuildImage (mkImageRequest index imgUrl true))
  end.

Definition buildImages_ : M unit :=
  asBuildImages (
    this ← get;
    forEach (seqZ 0 (Z.of_nat (length (sourceUrls_ this)))) buildImage_).

Definition disableScanning_ : M unit :=
  this ← get;
  if scanning_ this then
    modify (set_scanning_ false);;
    buildImages_
  else mret tt.

Definition fullScreenClass : string := "cameraGridFullScreen".

Definition setSelected_ (index : Z) : M unit :=
  this ← get;
  old_index ←
    (if isSelected this index then
       match selected_ this with
       | Some s => withCell s (cellRemoveClass fullScreenClass)
       | None => mret tt
       end;;
       modify (set_selected_ None);;
       mret (selected_ this)
     else
       match selected_ this with
       | Some s => withCell s (cellRemoveClass fullScreenClass)
       | None => mret tt
       end;;
       withCell index (cellAddClass fullScreenClass);;
       modify (set_selected_ (Some index));;
       mret (selected_ this));
  this ← get;
  if num_neq (containerImgWidthPx_ this) (imgWidthPx_ this)
     || num_neq (containerImgHeightPx_ this) (imgHeightPx_ this)
  then
    match old_index with
    | Some old => buildImage_ old
    | None => mret tt
    end;;
    this ← get;
    match selected_ this with
    | Some s => buildImage_ s
    | None => mret tt
    end
  else mret tt.

Definition setSelectedNoScan_ (index : Z) : M unit :=
  setSelected_ index;;
  disableScanning_.

(** [this.selected_ > 0 ? this.selected_ - 1 : this.cells_.length - 1];
    [null > 0] is false. *)
Definition scanLeft_ : M unit :=
  this ← get;
  setSelected_
    (match selected_ this with
     | Some s => if 0 <? s then s - 1 else Z.of_nat (length (cells_ this)) - 1
     | None => Z.of_nat (length (cells_ this)) - 1
     end).

(** [(this.selected_ + 1) % this.cells_.length]; [null + 1] is 1. *)
Definition scanRight_ : M unit :=
  this ← get;
  setSelected_ (Z.rem (default 0 (selected_ this) + 1) (Z.of_nat (length (cells_ this)))).

Definition onScanTimer_ : M unit :=
  this ← get;
  if negb (scanning_ this) || bool_decide (selected_ this = None) then mret tt
  else scanRight_.

(** ** Grid construction and the recompute pass *)

(** The inner loop of [buildGrid_]: [x] more columns to go, [i] the next cell
    to place, [n] the number of cells.  Returns the row and the next [i]. *)
Fixpoint fillRow (x i n : nat) : list nat * nat :=
  match x with
  | O => ([], i)
  | S x' =>
      if (i <? n)%nat
      then let '(row, i') := fillRow x' (S i) n in (i :: row, i')
      else fillRow x' i n
  end.

(** The outer loop of [buildGrid_]: [y] more rows to go. *)
Fixpoint fillRows (y w i n : nat) : list (list nat) :=
  match y with
  | O => []
  | S y' => let '(row, i') := fillRow w i n in row :: fillRows y' w i' n
  end.

(** [100 / cells], the number written before ['%']. *)
Definition percentOf (cells : option Z) : option Q :=
  (fun c => 100 / inject_Z c)%Q <$> cells.

(** A loop bound [v < cells]: no iteration when [cells] is [undefined]. *)
Definition loopBound (cells : option Z) : nat := Z.to_nat (default 0 cells).

Definition buildGrid_ : M unit :=
  this ← get;
  modify (set_stylesheet_
    (mkStylesheet (percentOf (gridHeightCells_ this)) (percentOf (gridWidthCells_ this))
       (imageScaleRule_ (stylesheet_ this)) (containerImageScaleRule_ (stylesheet_ this))));;
  modify (set_container_
    (mkContainer (offsetWidth (container_ this)) (offsetHeight (container_ this))
       (containerClasses (container_ this))
       (fillRows (loopBound (gridHeightCells_ this)) (loopBound (gridWidthCells_ this))
          0 (length (cells_ this)))));;
  emit (BuildGrid (gridWidthCells_ this) (gridHeightCells_ this)).

Definition upscaleStyleOf (c : option Constraint) : UpscaleStyle :=
  match c with
  | Some Height => {| minWidth := "0"; minHeight := "100%" |}
  | _ => {| minWidth := "100%"; minHeight := "0" |}
  end.

Definition setUpscaleRule_ (c : option Constraint) (rule : RuleName) : M unit :=
  modify (fun this =>
    let sheet := stylesheet_ this in
    set_stylesheet_
      match rule with
      | ImageScaleRule =>
          mkStylesheet (rowHeightRule_ sheet) (cellWidthRule_ sheet)
            (Some (upscaleStyleOf c)) (containerImageScaleRule_ sheet)
      | ContainerImageScaleRule =>
          mkStylesheet (rowHeightRule_ sheet) (cellWidthRule_ sheet)
            (imageScaleRule_ sheet) (Some (upscaleStyleOf c))
      end this);;
  emit (SetUpscaleRule rule c).

(** The two revisions of the source file. *)
Inductive Revision := Rev1 | Rev2.

(** A call of [this.findMinimumResolution_] in either revision.  The first
    returns [undefined] on an empty list; the second logs when the loop found
    nothing and throws on an empty list. *)
Definition callFindMinimumResolution_ (rev : Revision) (tileWidth tileHeight : Q)
    : M (option Resolution) :=
  this ← get;
  match rev with
  | Rev1 => mret (findMinimumResolution_ (resolutions_ this) tileWidth tileHeight)
  | Rev2 =>
      let '(logged, result) :=
        findMinimumResolution_2 (resolutions_ this) tileWidth tileHeight in
      forEach logged (fun msg => emit (ConsoleLog msg));;
      match result with
      | Some r => mret (Some r)
      | None => throw
      end
  end.

(** Reading a property of a value that may be [undefined]. *)
Definition propertyOf {A B} (o : option A) (f : A -> B) : M B :=
  match o with
  | Some a => mret (f a)
  | None => throw
  end.

Definition rebuildIfNeeded_ (rev : Revision) : M unit :=
  this ← get;
  let grid := calculateGrid_ this in
  resolution ← callFindMinimumResolution_ rev (cellWidthPx grid) (cellHeightPx grid);
  containerResolution ←
    callFindMinimumResolution_ rev (inject_Z (offsetWidth (container_ this)))
      (inject_Z (offsetHeight (container_ this)));
  (if constraint_neq (constraint grid) (constraint_ this) then
     modify (set_constraint_ (constraint grid));;
     setUpscaleRule_ (constraint grid) ImageScaleRule
   else mret tt);;
  (if constraint_neq (Some (containerConstraint grid)) (containerConstraint_ this) then
     modify (set_containerConstraint_ (Some (containerConstraint grid)));;
     setUpscaleRule_ (Some (containerConstraint grid)) ContainerImageScaleRule
   else mret tt);;
  w ← propertyOf resolution imgWidthPx;
  h ← propertyOf resolution imgHeightPx;
  (if num_neq (Some w) (imgWidthPx_ this) || num_neq (Some h) (imgHeightPx_ this) then
     modify (set_imgWidthPx_ (Some w));;
     modify (set_imgHeightPx_ (Some h));;
     buildImages_
   else mret tt);;
  cw ← propertyOf containerResolution imgWidthPx;
  ch ← propertyOf containerResolution imgHeightPx;
  (if num_neq (Some cw) (containerImgWidthPx_ this)
      || num_neq (Some ch) (containerImgHeightPx_ this) then
     modify (set_containerImgWidthPx_ (Some cw));;
     modify (set_containerImgHeightPx_ (Some ch));;
     match selected_ this with
     | Some s => buildImage_ s
     | None => mret tt
     end
   else mret tt);;
  (if num_neq (gridWidthCells grid) (gridWidthCells_ this)
      || num_neq (gridHeightCells grid) (gridHeightCells_ this) then
     modify (set_gridWidthCells_ (gridWidthCells grid));;
     modify (set_gridHeightCells_ (gridHeightCells grid));;
     buildGrid_
   else mret tt).

(** ** Keyboard handlers *)

Definition charCodeAt0 (c : ascii) : Z := Z.of_N (N_of_ascii c).

(** [String.fromCharCode] keeps the low sixteen bits of its argument. *)
Definition fromCharCode (charCode : Z) : Z := charCode mod 65536.

(** The [case] labels that share the digit branch, in source order. *)
Definition digitCases : list ascii :=
  ["1"; "2"; "3"; "4"; "5"; "6"; "7"; "8"; "9"; "0"]%char.

Definition onKeyPress_ (charCode : Z) : M unit :=
  let character := fromCharCode charCode in
  if existsb (fun c => character =? charCodeAt0 c) digitCases then
    let index := charCode - charCodeAt0 "1" in
    let index := if index =? -1 then 10 else index in
    this ← get;
    if index <? Z.of_nat (length (cells_ this))
    then setSelectedNoScan_ index
    else mret tt
  else if character =? charCodeAt0 "s" then
    this ← get;
    match scanning_ this, selected_ this with
    | true, Some s => setSelectedNoScan_ s
    | _, _ =>
        modify (set_scanning_ true);;
        this ← get;
        match selected_ this with
        | None => setSelected_ 0
        | Some _ => mret tt
        end
    end
  else if character =? charCodeAt0 " " then
    modify (fun this => set_scanning_ (negb (scanning_ this)) this)
  else mret tt.

Definition onKeyDown_ (keyCode : Z) : M unit :=
  this ← get;
  if keyCode =? 27 then
    match selected_ this with
    | Some s => setSelectedNoScan_ s
    | None => mret tt
    end
  else if keyCode =? 37 then
    match selected_ this with
    | Some _ => scanLeft_;; disableScanning_
    | None => mret tt
    end
  else if keyCode =? 39 then
    match selected_ this with
    | Some _ => scanRight_;; disableScanning_
    | None => mret tt
    end
  else mret tt.

(** ** Construction and event dispatch *)

Definition buildCells_ : M unit :=
  this ← get;
  modify (set_cells_ ((fun _ => mkCell [] []) <$> sourceUrls_ this)).

(** [buildStylesheet_]: four fresh empty rules, and the container gets its
    class. *)
Definition buildStylesheet_ : M unit :=
  modify (set_stylesheet_ (mkStylesheet None None None None));;
  modify (fun this =>
    let c := container_ this in
    set_container_
      (mkContainer (offsetWidth c) (offsetHeight c)
         (addCSSClass_ "cameraGridContainer" (containerClasses c)) (rows c)) this).

(** The fields as the constructor assigns them before it calls a method.
    The first revision starts the cached sizes at 0, except the full-screen
    height, whose assignment misspells the field name; the second leaves them
    all [undefined].  [first] is [this.resolutions_[0]]. *)
Definition initialFields (rev : Revision) (container : Container)
    (sourceUrls : list string) (resolutions : list (Z * Z))
    (getUrl : option string -> option Z -> option Z -> string) (first : Z * Z)
    : CameraGrid :=
  let zero := match rev with Rev1 => Some 0 | Rev2 => None end in
  mkCameraGrid container sourceUrls resolutions getUrl
    (fst first) (snd first) (Some 0) (Some 0) zero zero None zero None None
    None false [] (mkStylesheet None None None None).

(** The method calls of the constructor. *)
Definition construct (rev : Revision) : M unit :=
  buildCells_;;
  buildStylesheet_;;
  rebuildIfNeeded_ rev.

(** [new CameraGrid(container, sourceUrls, resolutions, getUrl)].  [None]
    when [this.resolutions_[0][0]] throws, before any method has run. *)
Definition CameraGrid_new (rev : Revision) (container : Container)
    (sourceUrls : list string) (resolutions : option (list (Z * Z)))
    (getUrl : option (option string -> option Z -> option Z -> string))
    : option (Completion unit * CameraGrid * list Effect) :=
  let resolutions_ := default defaultResolutions_ resolutions in
  match resolutions_ with
  | [] => None
  | first :: _ =>
      Some (construct rev
              (initialFields rev container sourceUrls resolutions_
                 (default defaultGetUrl_ getUrl) first))
  end.

(** What the browser delivers to the controller.  A click reaches the
    listener [buildImage_] bound for a tile only if that tile's cell holds an
    image; a resize changes the size the container reports and then calls the
    resize listener. *)
Inductive Event :=
| KeyPress (charCode : Z)
| KeyDown (keyCode : Z)
| Click (index : nat)
| Resize (width height : Z)
| ScanTimer.

Definition dispatch (rev : Revision) (e : Event) : M unit :=
  match e with
  | KeyPress charCode => onKeyPress_ charCode
  | KeyDown keyCode => onKeyDown_ keyCode
  | Click index =>
      this ← get;
      match cells_ this !! index with
      | Some cell =>
          if bool_decide (imgContainers cell = []) then mret tt
          else setSelected_ (Z.of_nat index)
      | None => mret tt
      end
  | Resize width height =>
      modify (fun this =>
        let c := container_ this in
        set_container_ (mkContainer width height (containerClasses c) (rows c)) this);;
      rebuildIfNeeded_ rev
  | ScanTimer => onScanTimer_
  end.

(** The state after a sequence of events, ignoring how each completed (an
    uncaught exception in a listener does not stop later events). *)
Definition stateAfter (rev : Revision) (events : list Event) (this : CameraGrid) : CameraGrid :=
  fold_left (fun st e => snd (fst (dispatch rev e st))) events this.

(** ** Example controllers *)

(** A controller of the first revision with the default catalog and URL
    builder, as the constructor leaves it. *)
Definition exampleGrid (width height : Z) (sourceUrls : list string) : CameraGrid :=
  snd (fst (construct Rev1
              (initialFields Rev1 (mkContainer width height [] []) sourceUrls
                 defaultResolutions_ defaultGetUrl_ (160, 120)))).

(** Four feeds in a 700 x 500 container. *)
Definition fourFeeds : CameraGrid :=
  exampleGrid 700 500 ["cam1/"; "cam2/"; "cam3/"; "cam4/"].


(** A single feed, and the same after the key [s]: scanning, feed 0
    selected. *)
Definition oneFeed : CameraGrid := exampleGrid 700 500 ["cam1/"].
Definition oneFeedScanning : CameraGrid := stateAfter Rev1 [KeyPress 115] oneFeed.


(** Ten and eleven feeds. *)
Definition tenFeeds : CameraGrid :=
  exampleGrid 1280 960
    ["cam1/"; "cam2/"; "cam3/"; "cam4/"; "cam5/";
     "cam6/"; "cam7/"; "cam8/"; "cam9/"; "cam10/"].
Definition elevenFeeds : CameraGrid :=
  exampleGrid 1280 960
    ["cam1/"; "cam2/"; "cam3/"; "cam4/"; "cam5/";
     "cam6/"; "cam7/"; "cam8/"; "cam9/"; "cam10/"; "cam11/"].

(** * Properties *)

(** ** Rational comparisons and rounded square roots *)

Lemma Qltb_lt (x y : Q) : Qltb x y = true <-> (x < y)%Q.
Proof.
  unfold Qltb. rewrite Qlt_alt. destruct (x ?= y)%Q; split; congruence.
Qed.

Lemma Qltb_ge (x y : Q) : Qltb x y = false <-> (y <= x)%Q.
Proof.
  rewrite <- Bool.not_true_iff_false, Qltb_lt. split.
  - apply Qnot_lt_le.
  - intros Hle Hlt. exact (Qlt_not_le _ _ Hlt Hle).
Qed.

Lemma inject_Z_le (a b : Z) : (inject_Z a <= inject_Z b)%Q <-> a <= b.
Proof. now rewrite Zle_Qle. Qed.

Lemma inject_Z_lt (a b : Z) : (inject_Z a < inject_Z b)%Q <-> a < b.
Proof. now rewrite Zlt_Qlt. Qed.

(** [Math.floor(Math.sqrt(x))] is the integer [k >= 0] with
    [k^2 <= x < (k+1)^2]. *)
Lemma Math_floor_spec (x : Q) :
  (0 <= x)%Q ->
  let k := Math_floor (Math_sqrt x) in
  0 <= k /\ (inject_Z (k * k) <= x)%Q /\ (x < inject_Z ((k + 1) * (k + 1)))%Q.
Proof.
  intros Hx k. unfold Math_floor in k. simpl in k.
  assert (Hf : 0 <= Qfloor x).
  { change 0 with (Qfloor (inject_Z 0)). rewrite Qfloor_Z at 1.
    rewrite <- (Qfloor_Z 0). now apply Qfloor_resp_le. }
  pose proof (Z.sqrt_spec _ Hf) as Hs. cbv zeta in Hs. fold k in Hs.
  pose proof (Z.sqrt_nonneg (Qfloor x)) as Hk. fold k in Hk.
  split; [exact Hk|]. split.
  - eapply Qle_trans; [|apply Qfloor_le]. apply inject_Z_le. lia.
  - eapply Qlt_le_trans; [apply Qlt_floor|]. apply inject_Z_le. lia.
Qed.

(** [Math.ceil(Math.sqrt(x))] is the integer [k >= 1] with
    [(k-1)^2 < x <= k^2], for positive [x]. *)
Lemma Math_ceil_spec (x : Q) :
  (0 < x)%Q ->
  let k := Math_ceil (Math_sqrt x) in
  1 <= k /\ (inject_Z ((k - 1) * (k - 1)) < x)%Q /\ (x <= inject_Z (k * k))%Q.
Proof.
  intros Hx k. unfold Math_ceil in k. simpl in k.
  assert (Hc : 1 <= Qceiling x).
  { assert (0 < Qceiling x); [|lia]. apply inject_Z_lt.
    eapply Qlt_le_trans; [exact Hx|apply Qle_ceiling]. }
  assert (Hc0 : 0 <= Qceiling x) by lia.
  pose proof (Z.sqrt_spec _ Hc0) as Hs. cbv zeta in Hs.
  pose proof (Qceiling_lt x) as Hlo. pose proof (Qle_ceiling x) as Hhi.
  set (r := Z.sqrt (Qceiling x)) in *.
  assert (Hr : 1 <= r) by nia.
  subst k. destruct (Z.eqb_spec (r * r) (Qceiling x)) as [He|Hne].
  - split; [lia|]. split.
    + eapply Qle_lt_trans; [|exact Hlo]. apply inject_Z_le. nia.
    + rewrite He. exact Hhi.
  - split; [lia|]. split.
    + eapply Qle_lt_trans; [|exact Hlo]. apply inject_Z_le.
      replace (r + 1 - 1) with r by lia. lia.
    + eapply Qle_trans; [exact Hhi|]. apply inject_Z_le. lia.
Qed.

Lemma Math_floor_nonneg (s : Surd) : 0 <= Math_floor s.
Proof. apply Z.sqrt_nonneg. Qed.

Lemma Math_ceil_nonneg (s : Surd) : 0 <= Math_ceil s.
Proof.
  unfold Math_ceil. pose proof (Z.sqrt_nonneg (Qceiling (radicand s))).
  cbv zeta. destruct (_ =? _); lia.
Qed.

(** The product of the two ceilings seats every tile. *)
Lemma ceil_ceil_seats_all (scaleFactor : Q) (numTiles : Z) :
  (0 < scaleFactor)%Q -> 1 <= numTiles ->
  numTiles <=
    Math_ceil (Math_sqrt (inject_Z numTiles / scaleFactor))
    * Math_ceil (Math_sqrt (scaleFactor * inject_Z numTiles)).
Proof.
  intros Hsf Hn.
  assert (Hnq : (0 < inject_Z numTiles)%Q) by (apply (inject_Z_lt 0); lia).
  assert (Hw : (0 < inject_Z numTiles / scaleFactor)%Q).
  { apply Qlt_shift_div_l; [exact Hsf|]. now rewrite Qmult_0_l. }
  assert (Hh : (0 < scaleFactor * inject_Z numTiles)%Q).
  { rewrite <- (Qmult_0_l 0). apply Qmult_lt_compat_nonneg; split;
      try apply Qle_refl; assumption. }
  destruct (Math_ceil_spec _ Hw) as (Hcw & _ & Hw2).
  destruct (Math_ceil_spec _ Hh) as (Hch & _ & Hh2).
  set (cw := Math_ceil (Math_sqrt (inject_Z numTiles / scaleFactor))) in *.
  set (ch := Math_ceil (Math_sqrt (scaleFactor * inject_Z numTiles))) in *.
  assert (Hprod : (inject_Z (numTiles * numTiles)
                   <= inject_Z ((cw * cw) * (ch * ch)))%Q).
  { assert (Heq : (inject_Z numTiles * inject_Z numTiles
                   == (inject_Z numTiles / scaleFactor)
                      * (scaleFactor * inject_Z numTiles))%Q).
    { field. intros E. rewrite E in Hsf. now apply Qlt_irrefl in Hsf. }
    rewrite (inject_Z_mult numTiles numTiles), Heq.
    rewrite (inject_Z_mult (cw * cw) (ch * ch)).
    apply Qmult_le_compat_nonneg; split;
      solve [assumption | apply Qlt_le_weak; assumption]. }
  apply (proj1 (inject_Z_le _ _)) in Hprod.
  apply Z.square_le_simpl_nonneg; [nia|].
  now replace (cw * ch * (cw * ch)) with (cw * cw * (ch * ch)) by ring.
Qed.

(** ** The option loop of [calculateGrid_] *)

Section GridLoopFacts.
Variables containerWidth containerHeight tileScaleWidth tileScaleHeight : Q.
Variable numTiles : Z.
Hypothesis containerWidth_pos : (0 < containerWidth)%Q.
Hypothesis containerHeight_pos : (0 < containerHeight)%Q.
Hypothesis tileScaleWidth_pos : (0 < tileScaleWidth)%Q.
Hypothesis tileScaleHeight_pos : (0 < tileScaleHeight)%Q.
Hypothesis numTiles_pos : 1 <= numTiles.

(** An option seats all tiles. *)
Definition seatsAll (gridOption : Z * Z) : Prop :=
  numTiles <= numCellsOf gridOption.

Definition nonnegOption (gridOption : Z * Z) : Prop :=
  0 <= fst gridOption /\ 0 <= snd gridOption.

Definition optionScale (gridOption : Z * Z) : Q :=
  fst (scaleOf containerWidth containerHeight tileScaleWidth tileScaleHeight gridOption).

Definition optionConstraint (gridOption : Z * Z) : Constraint :=
  snd (scaleOf containerWidth containerHeight tileScaleWidth tileScaleHeight gridOption).

(** Option [o'] at position [j] does not beat option [o] at position [i]:
    it has a smaller scale, or the same scale and more cells, or the same
    scale and cell count and comes no later. *)
Definition notBetter (j : nat) (o' : Z * Z) (i : nat) (o : Z * Z) : Prop :=
  (optionScale o' < optionScale o)%Q
  \/ (optionScale o' == optionScale o)%Q
     /\ (numCellsOf o < numCellsOf o'
         \/ numCellsOf o' = numCellsOf o /\ (j <= i)%nat).

(** The loop variables hold option [o], met at position [i] of [seen]. *)
Definition holdsOption (seen : list (Z * Z)) (vars : GridLoop) (i : nat) (o : Z * Z)
    : Prop :=
  seen !! i = Some o
  /\ seatsAll o
  /\ chosenWidth vars = Some (fst o)
  /\ chosenHeight vars = Some (snd o)
  /\ chosenConstraint vars = Some (optionConstraint o)
  /\ maxScale vars = optionScale o
  /\ minCells vars = numCellsOf o
  /\ forall j o', seen !! j = Some o' -> seatsAll o' -> notBetter j o' i o.

Definition loopInvariant (seen : list (Z * Z)) (vars : GridLoop) : Prop :=
  (vars = gridLoopInit /\ Forall (fun o => ~ seatsAll o) seen)
  \/ exists i o, holdsOption seen vars i o.

Lemma seatsAll_positive (o : Z * Z) :
  nonnegOption o -> seatsAll o -> 1 <= fst o /\ 1 <= snd o.
Proof using numTiles_pos.
  unfold nonnegOption, seatsAll, numCellsOf. intros [Hw Hh] Hs. nia.
Qed.

Lemma Qdiv_pos (a b : Q) : (0 < a)%Q -> (0 < b)%Q -> (0 < a / b)%Q.
Proof.
  intros Ha Hb. apply Qlt_shift_div_l; [exact Hb|]. now rewrite Qmult_0_l.
Qed.

Lemma optionScale_pos (o : Z * Z) :
  nonnegOption o -> seatsAll o -> (0 < optionScale o)%Q.
Proof using All.
  intros Hnn Hs. destruct (seatsAll_positive o Hnn Hs) as [Hw Hh].
  assert (Hws : (0 < widthScaleOf containerWidth tileScaleWidth o)%Q).
  { unfold widthScaleOf. apply Qdiv_pos; [apply Qdiv_pos|]; try assumption.
    apply (inject_Z_lt 0). lia. }
  assert (Hhs : (0 < heightScaleOf containerHeight tileScaleHeight o)%Q).
  { unfold heightScaleOf. apply Qdiv_pos; [apply Qdiv_pos|]; try assumption.
    apply (inject_Z_lt 0). lia. }
  unfold optionScale, scaleOf. now destruct (Qltb _ _).
Qed.

Lemma gridLoopBody_skip_unseated (vars : GridLoop) (o : Z * Z) :
  ~ seatsAll o ->
  gridLoopBody containerWidth containerHeight tileScaleWidth tileScaleHeight
    numTiles vars o = vars.
Proof.
  unfold seatsAll, gridLoopBody. intros Hs.
  destruct (Z.ltb_spec (numCellsOf o) numTiles); [reflexivity|lia].
Qed.

(** The three outcomes of an iteration on an option that seats all
    tiles. *)
Lemma gridLoopBody_seated (vars : GridLoop) (o : Z * Z) :
  seatsAll o ->
  let vars' :=
    gridLoopBody containerWidth containerHeight tileScaleWidth tileScaleHeight
      numTiles vars o in
  (vars' = vars /\ (optionScale o < maxScale vars)%Q)
  \/ (vars' = vars /\ (optionScale o == maxScale vars)%Q
      /\ minCells vars < numCellsOf o)
  \/ (vars' = mkGridLoop (numCellsOf o) (optionScale o) (Some (fst o)) (Some (snd o))
                (Some (optionConstraint o))
      /\ (maxScale vars <= optionScale o)%Q
      /\ ((optionScale o == maxScale vars)%Q -> numCellsOf o <= minCells vars)).
Proof.
  unfold seatsAll, gridLoopBody, optionScale, optionConstraint. intros Hs.
  destruct (Z.ltb_spec (numCellsOf o) numTiles); [lia|].
  destruct (scaleOf _ _ _ _ o) as [scale constraint]. simpl.
  destruct (Qltb scale (maxScale vars)) eqn:Hlt.
  { left. split; [reflexivity|]. now apply Qltb_lt. }
  apply Qltb_ge in Hlt.
  destruct (Qeq_bool scale (maxScale vars)) eqn:Heq; simpl.
  - apply Qeq_bool_iff in Heq.
    destruct (Z.gtb_spec (numCellsOf o) (minCells vars)).
    + right. left. repeat split; try assumption; lia.
    + right. right. repeat split; try assumption. intros _. lia.
  - right. right. repeat split; try assumption.
    intros E. apply Qeq_bool_iff in E. congruence.
Qed.

Lemma loopInvariant_step (seen : list (Z * Z)) (vars : GridLoop) (o : Z * Z) :
  nonnegOption o ->
  loopInvariant seen vars ->
  loopInvariant (seen ++ [o])
    (gridLoopBody containerWidth containerHeight tileScaleWidth tileScaleHeight
       numTiles vars o).
Proof using All.
  intros Hnn Hinv.
  destruct (Z_le_gt_dec numTiles (numCellsOf o)) as [Hs|Hns].
  2: { (* the option cannot seat all tiles: skipped *)
    assert (Hno : ~ seatsAll o) by (unfold seatsAll; lia).
    rewrite gridLoopBody_skip_unseated by exact Hno.
    destruct Hinv as [[Hinit Hall]|(i & oi & Hlook & Hsi & Hw & Hh & Hc & Hm & Hn & Hbest)].
    - left. split; [exact Hinit|]. apply Forall_app. split; [exact Hall|].
      now constructor.
    - right. exists i, oi. repeat split; try assumption.
      + now apply lookup_app_l_Some.
      + intros j o' Hj Hsj. apply lookup_app_Some in Hj.
        destruct Hj as [Hj|[_ Hj]]; [now apply Hbest|].
        apply list_lookup_singleton_Some in Hj. destruct Hj as [_ <-].
        contradiction. }
  pose proof (optionScale_pos o Hnn Hs) as Hpos.
  pose proof (gridLoopBody_seated vars o Hs) as Hbody. cbv zeta in Hbody.
  assert (Hnew : (seen ++ [o]) !! length seen = Some o).
  { rewrite lookup_app_r by lia. now rewrite Nat.sub_diag. }
  destruct Hinv as [[Hinit Hall]|(i & oi & Hlook & Hsi & Hw & Hh & Hc & Hm & Hn & Hbest)].
  - (* nothing chosen so far: the option is taken *)
    subst vars. simpl in Hbody.
    destruct Hbody as [[_ Hlt]|[(_ & Heq & _)|(-> & _ & _)]].
    + exfalso. exact (Qlt_irrefl _ (Qlt_trans _ _ _ Hlt Hpos)).
    + exfalso. rewrite Heq in Hpos. exact (Qlt_irrefl _ Hpos).
    + right. exists (length seen), o. repeat split; try assumption.
      intros j o' Hj Hsj. apply lookup_app_Some in Hj.
      destruct Hj as [Hj|[Hge Hj]].
      * rewrite Forall_lookup in Hall. now apply Hall in Hj.
      * apply list_lookup_singleton_Some in Hj. destruct Hj as [Hj <-].
        right. split; [reflexivity|]. right. split; [reflexivity|lia].
  - (* an option is held *)
    assert (Hi : (i < length seen)%nat) by (eapply lookup_lt_Some; eauto).
    rewrite Hm, Hn in Hbody.
    destruct Hbody as [[-> Hlt]|[(-> & Heq & Hcells)|(-> & Hle & Hcells)]].
    + right. exists i, oi. repeat split; try assumption.
      * now apply lookup_app_l_Some.
      * intros j o' Hj Hsj. apply lookup_app_Some in Hj.
        destruct Hj as [Hj|[_ Hj]]; [now apply Hbest|].
        apply list_lookup_singleton_Some in Hj. destruct Hj as [_ <-].
        now left.
    + right. exists i, oi. repeat split; try assumption.
      * now apply lookup_app_l_Some.
      * intros j o' Hj Hsj. apply lookup_app_Some in Hj.
        destruct Hj as [Hj|[_ Hj]]; [now apply Hbest|].
        apply list_lookup_singleton_Some in Hj. destruct Hj as [_ <-].
        right. split; [exact Heq|]. now left.
    + right. exists (length seen), o. repeat split; try assumption.
      intros j o' Hj Hsj. apply lookup_app_Some in Hj.
      destruct Hj as [Hj|[Hge Hj]].
      * assert (Hjlt : (j < length seen)%nat) by (eapply lookup_lt_Some; eauto).
        destruct (Hbest j o' Hj Hsj) as [Hlt|[Heq Hc']].
        { left. eapply Qlt_le_trans; eauto. }
        destruct (Qlt_le_dec (optionScale oi) (optionScale o)) as [Hlt|Hge].
        { left. now rewrite Heq. }
        assert (Hso : (optionScale o == optionScale oi)%Q) by now apply Qle_antisym.
        specialize (Hcells Hso). right. split; [now rewrite Heq, Hso|].
        destruct Hc' as [Hc'|[Hc' _]]; [left; lia|].
        destruct (Z_lt_le_dec (numCellsOf o) (numCellsOf o')); [now left|].
        right. split; lia.
      * apply list_lookup_singleton_Some in Hj. destruct Hj as [Hj <-].
        right. split; [reflexivity|]. right. split; [reflexivity|lia].
Qed.

Lemma loopInvariant_fold (rest seen : list (Z * Z)) (vars : GridLoop) :
  Forall nonnegOption rest ->
  loopInvariant seen vars ->
  loopInvariant (seen ++ rest)
    (fold_left
       (gridLoopBody containerWidth containerHeight tileScaleWidth tileScaleHeight
          numTiles) rest vars).
Proof using All.
  revert seen vars. induction rest as [|o rest IH]; intros seen vars Hnn Hinv.
  - now rewrite app_nil_r.
  - inversion Hnn as [|? ? Ho Hrest]; subst. simpl.
    replace (seen ++ o :: rest) with ((seen ++ [o]) ++ rest)
      by now rewrite <- app_assoc.
    apply IH; [exact Hrest|]. now apply loopInvariant_step.
Qed.

(** After the loop over any list of options: if one of them seats all
    tiles, the variables hold a seated option that no other beats. *)
Lemma gridLoop_result (gridOptions : list (Z * Z)) :
  Forall nonnegOption gridOptions ->
  Exists seatsAll gridOptions ->
  exists i o,
    holdsOption gridOptions
      (fold_left
         (gridLoopBody containerWidth containerHeight tileScaleWidth tileScaleHeight
            numTiles) gridOptions gridLoopInit) i o.
Proof using All.
  intros Hnn Hex.
  destruct (loopInvariant_fold gridOptions [] gridLoopInit Hnn) as [[_ Hall]|Hheld].
  - left. split; [reflexivity|constructor].
  - exfalso. simpl in Hall. apply Exists_exists in Hex. destruct Hex as (o & Hin & Hs).
    rewrite Forall_forall in Hall. exact (Hall o Hin Hs).
  - exact Hheld.
Qed.
End GridLoopFacts.

(** ** [calculateGrid_] on a controller *)

(** What the solver needs of a controller: a container and a tile shape of
    positive size and at least one tile. *)
Definition solvable (this : CameraGrid) : Prop :=
  0 < offsetWidth (container_ this)
  /\ 0 < offsetHeight (container_ this)
  /\ 0 < tileScaleWidth_ this
  /\ 0 < tileScaleHeight_ this
  /\ 1 <= Z.of_nat (length (sourceUrls_ this)).

Definition numTilesOf (this : CameraGrid) : Z :=
  Z.of_nat (length (sourceUrls_ this)).

Definition scaleFactorIn (this : CameraGrid) : Q :=
  scaleFactorOf (inject_Z (offsetWidth (container_ this)))
    (inject_Z (offsetHeight (container_ this)))
    (inject_Z (tileScaleWidth_ this)) (inject_Z (tileScaleHeight_ this)).

(** The three options [calculateGrid_] generates for a controller. *)
Definition gridOptionsIn (this : CameraGrid) : list (Z * Z) :=
  gridOptionsOf (scaleFactorIn this) (numTilesOf this).

(** The scale of an option in a controller's container. *)
Definition scaleIn (this : CameraGrid) (gridOption : Z * Z) : Q :=
  optionScale (inject_Z (offsetWidth (container_ this)))
    (inject_Z (offsetHeight (container_ this)))
    (inject_Z (tileScaleWidth_ this)) (inject_Z (tileScaleHeight_ this)) gridOption.

Lemma scaleFactorIn_pos (this : CameraGrid) :
  solvable this -> (0 < scaleFactorIn this)%Q.
Proof.
  intros (HW & HH & HtW & HtH & _). unfold scaleFactorIn, scaleFactorOf.
  repeat apply Qdiv_pos; now apply (inject_Z_lt 0).
Qed.

Lemma gridOptionsIn_nonneg (this : CameraGrid) :
  Forall nonnegOption (gridOptionsIn this).
Proof.
  unfold gridOptionsIn, gridOptionsOf, nonnegOption.
  repeat constructor; simpl; auto using Math_floor_nonneg, Math_ceil_nonneg.
Qed.

Lemma gridOptionsIn_last_seatsAll (this : CameraGrid) :
  solvable this ->
  exists o, gridOptionsIn this !! 2%nat = Some o /\ seatsAll (numTilesOf this) o.
Proof.
  intros Hs. eexists. split; [reflexivity|].
  unfold seatsAll, numCellsOf. simpl.
  apply ceil_ceil_seats_all; [now apply scaleFactorIn_pos|apply Hs].
Qed.

(** The state of the loop variables when [calculateGrid_] returns. *)
Lemma calculateGrid_holdsOption (this : CameraGrid) :
  solvable this ->
  exists i o,
    holdsOption (inject_Z (offsetWidth (container_ this)))
      (inject_Z (offsetHeight (container_ this)))
      (inject_Z (tileScaleWidth_ this)) (inject_Z (tileScaleHeight_ this))
      (numTilesOf this) (gridOptionsIn this)
      (fold_left
         (gridLoopBody (inject_Z (offsetWidth (container_ this)))
            (inject_Z (offsetHeight (container_ this)))
            (inject_Z (tileScaleWidth_ this)) (inject_Z (tileScaleHeight_ this))
            (numTilesOf this))
         (gridOptionsIn this) gridLoopInit) i o.
Proof.
  intros Hs. pose proof Hs as (HW & HH & HtW & HtH & Hn).
  apply gridLoop_result; try (now apply (inject_Z_lt 0)); try exact Hn.
  - apply gridOptionsIn_nonneg.
  - destruct (gridOptionsIn_last_seatsAll this Hs) as (o & Hlook & Hseat).
    unfold gridOptionsIn, gridOptionsOf in *. injection Hlook as <-.
    do 2 apply Exists_cons_tl. now apply Exists_cons_hd.
Qed.






(** The spec's scenario: four 4:3 feeds in 700 x 500 get a 2 x 2 grid bound
    by the height, with cells of 1000/3 x 250 pixels. *)
Example calculateGrid_fourFeeds :
  gridOptionsIn fourFeeds = [(3, 1); (2, 2); (3, 2)]
  /\ gridWidthCells (calculateGrid_ fourFeeds) = Some 2
  /\ gridHeightCells (calculateGrid_ fourFeeds) = Some 2
  /\ constraint (calculateGrid_ fourFeeds) = Some Height
  /\ (cellWidthPx (calculateGrid_ fourFeeds) == 1000 # 3)%Q
  /\ (cellHeightPx (calculateGrid_ fourFeeds) == 250)%Q.
Proof. vm_compute. repeat split; reflexivity. Qed.


(** ** The resolution catalog *)

(** The object [findMinimumResolution_] returns for a catalog entry. *)
Definition resolutionOf (entry : Z * Z) : Resolution :=
  {| imgWidthPx := fst entry; imgHeightPx := snd entry |}.

(** An entry covers a target: it is at least as wide and at least as high. *)
Definition covers (tileWidth tileHeight : Q) (entry : Z * Z) : Prop :=
  (tileWidth <= inject_Z (fst entry))%Q /\ (tileHeight <= inject_Z (snd entry))%Q.

(** An entry reaches a target: it is at least as wide or at least as high.
    These are the entries the loops do not skip. *)
Definition reaches (tileWidth tileHeight : Q) (entry : Z * Z) : Prop :=
  (tileWidth <= inject_Z (fst entry))%Q \/ (tileHeight <= inject_Z (snd entry))%Q.

(** The entries grow strictly in width and in height, each one to the
    next. *)
Fixpoint ascending (resolutions : list (Z * Z)) : Prop :=
  match resolutions with
  | a :: (b :: _) as rest => (fst a < fst b /\ snd a < snd b) /\ ascending rest
  | _ => True
  end.

(** Every entry is a positive size. *)
Definition positiveEntries (resolutions : list (Z * Z)) : Prop :=
  Forall (fun e => 0 < fst e /\ 0 < snd e) resolutions.

(** [entry] at position [i] is the first entry that reaches the target. *)
Definition firstReaching (resolutions : list (Z * Z)) (tileWidth tileHeight : Q)
    (i : nat) (entry : Z * Z) : Prop :=
  resolutions !! i = Some entry
  /\ reaches tileWidth tileHeight entry
  /\ forall j e, (j < i)%nat -> resolutions !! j = Some e ->
       ~ reaches tileWidth tileHeight e.

(** No entry of the list is larger than [entry] in either dimension. *)
Definition largestOf (resolutions : list (Z * Z)) (entry : Z * Z) : Prop :=
  forall e, e ∈ resolutions -> fst e <= fst entry /\ snd e <= snd entry.

(** No entry of the list is smaller than [entry] in either dimension. *)
Definition smallestOf (resolutions : list (Z * Z)) (entry : Z * Z) : Prop :=
  forall e, e ∈ resolutions -> fst entry <= fst e /\ snd entry <= snd e.

Lemma skip_test_spec (tileWidth tileHeight : Q) (entry : Z * Z) :
  Qltb (inject_Z (fst entry)) tileWidth && Qltb (inject_Z (snd entry)) tileHeight = false
  <-> reaches tileWidth tileHeight entry.
Proof.
  unfold reaches. rewrite andb_false_iff, !Qltb_ge. reflexivity.
Qed.

Lemma findMinimumResolution_loop2_Some (resolutions : list (Z * Z))
    (tileWidth tileHeight : Q) (r : Resolution) :
  findMinimumResolution_loop2 resolutions tileWidth tileHeight = Some r
  <-> exists i entry,
        firstReaching resolutions tileWidth tileHeight i entry /\ r = resolutionOf entry.
Proof.
  induction resolutions as [|e rest IH]; simpl.
  - split; [discriminate|]. intros (i & entry & (Hl & _) & _). discriminate Hl.
  - destruct (Qltb _ _ && Qltb _ _) eqn:Hskip.
    + assert (Hno : ~ reaches tileWidth tileHeight e).
      { intros Hr. apply skip_test_spec in Hr. congruence. }
      rewrite IH. split.
      * intros (i & entry & (Hl & Hr & Hfirst) & ->). exists (S i), entry.
        split; [|reflexivity]. split; [exact Hl|]. split; [exact Hr|].
        intros [|j] e' Hj He'; [injection He' as <-; exact Hno|].
        apply (Hfirst j); [lia|exact He'].
      * intros ([|i] & entry & (Hl & Hr & Hfirst) & ->).
        { injection Hl as <-. contradiction. }
        exists i, entry. split; [|reflexivity]. split; [exact Hl|].
        split; [exact Hr|]. intros j e' Hj He'. apply (Hfirst (S j)); [lia|exact He'].
    + apply skip_test_spec in Hskip. split.
      * intros [= <-]. exists 0%nat, e. split; [|reflexivity].
        split; [reflexivity|]. split; [exact Hskip|]. intros j e' Hj. lia.
      * intros ([|i] & entry & (Hl & Hr & Hfirst) & ->).
        { now injection Hl as <-. }
        exfalso. apply (Hfirst 0%nat e); [lia|reflexivity|exact Hskip].
Qed.

Lemma findMinimumResolution_loop2_None (resolutions : list (Z * Z))
    (tileWidth tileHeight : Q) :
  findMinimumResolution_loop2 resolutions tileWidth tileHeight = None
  <-> Forall (fun e => ~ reaches tileWidth tileHeight e) resolutions.
Proof.
  induction resolutions as [|e rest IH]; simpl.
  - split; [constructor|reflexivity].
  - destruct (Qltb _ _ && Qltb _ _) eqn:Hskip.
    + rewrite IH. split.
      * intros Hall. constructor; [|exact Hall].
        intros Hr. apply skip_test_spec in Hr. congruence.
      * intros Hall. now inversion Hall.
    + apply skip_test_spec in Hskip. split; [discriminate|].
      intros Hall. inversion Hall. contradiction.
Qed.

(** The first revision is the loop of the second followed by its fallback to
    the last entry, without the log line. *)
Lemma findMinimumResolution_as_loop2 (resolutions : list (Z * Z))
    (tileWidth tileHeight : Q) :
  findMinimumResolution_ resolutions tileWidth tileHeight =
  match findMinimumResolution_loop2 resolutions tileWidth tileHeight with
  | Some r => Some r
  | None => resolutionOf <$> last resolutions
  end.
Proof.
  induction resolutions as [|e rest IH]; simpl; [reflexivity|].
  destruct rest as [|e' rest'].
  - simpl. destruct (Qltb _ _ && Qltb _ _); reflexivity.
  - cbn [length Nat.eqb negb andb].
    destruct (Qltb _ _ && Qltb _ _); [|reflexivity].
    rewrite IH. destruct (findMinimumResolution_loop2 _ _ _); reflexivity.
Qed.

Lemma findMinimumResolution_revisions (resolutions : list (Z * Z))
    (tileWidth tileHeight : Q) :
  snd (findMinimumResolution_2 resolutions tileWidth tileHeight)
  = findMinimumResolution_ resolutions tileWidth tileHeight.
Proof.
  rewrite findMinimumResolution_as_loop2. unfold findMinimumResolution_2.
  destruct (findMinimumResolution_loop2 _ _ _); [reflexivity|].
  simpl. now destruct (last resolutions).
Qed.

Lemma last_is_Some {A} (l : list A) : l <> [] -> exists x, last l = Some x.
Proof.
  intros Hne. destruct (last l) eqn:E; [eauto|].
  apply last_None in E. contradiction.
Qed.

Lemma ascending_lookup (resolutions : list (Z * Z)) (i j : nat) (a b : Z * Z) :
  ascending resolutions ->
  (i < j)%nat -> resolutions !! i = Some a -> resolutions !! j = Some b ->
  fst a < fst b /\ snd a < snd b.
Proof.
  revert i j a b.
  induction resolutions as [|x rest IH]; intros i j a b Hasc Hij Hi Hj;
    [discriminate Hi|].
  destruct rest as [|y rest']; [destruct j as [|[|j]]; [lia|discriminate Hj..]|].
  destruct Hasc as [Hxy Hasc]. destruct j as [|j]; [lia|].
  destruct i as [|i].
  - injection Hi as <-. destruct j as [|j].
    + now injection Hj as <-.
    + assert (fst y < fst b /\ snd y < snd b); [|lia].
      apply (IH 0%nat (S j)); [exact Hasc|lia|reflexivity|exact Hj].
  - apply (IH i j); [exact Hasc|lia|exact Hi|exact Hj].
Qed.

Lemma ascending_last_largest (resolutions : list (Z * Z)) (entry : Z * Z) :
  ascending resolutions -> last resolutions = Some entry ->
  largestOf resolutions entry.
Proof.
  intros Hasc Hlast e Hin. apply list_elem_of_lookup in Hin. destruct Hin as [i Hi].
  rewrite last_lookup in Hlast.
  assert (Hlt : (i < length resolutions)%nat) by (eapply lookup_lt_Some; eauto).
  destruct (decide (i = Nat.pred (length resolutions))) as [->|Hne].
  - rewrite Hi in Hlast. injection Hlast as <-. lia.
  - destruct (ascending_lookup resolutions i (Nat.pred (length resolutions)) e entry);
      [assumption|lia|assumption..|lia].
Qed.

Lemma ascending_head_smallest (resolutions : list (Z * Z)) (entry : Z * Z) :
  ascending resolutions -> head resolutions = Some entry ->
  smallestOf resolutions entry.
Proof.
  intros Hasc Hhead e Hin. apply list_elem_of_lookup in Hin. destruct Hin as [i Hi].
  rewrite head_lookup in Hhead. destruct i as [|i].
  - rewrite Hi in Hhead. injection Hhead as <-. lia.
  - destruct (ascending_lookup resolutions 0%nat (S i) entry e);
      [assumption|lia|assumption..|lia].
Qed.

(** C3, as the code has it.  For every non-empty ascending catalog of
    positive sizes and every target (w, h), in both revisions: when some
    entry has width >= w or height >= h, [findMinimumResolution_] returns the
    first such entry; when every entry is below the target in both
    dimensions it returns the last entry, the largest of the catalog; and for
    the target (0, 0) it returns the first entry, the smallest. *)
Theorem findMinimumResolution_first_reaching (resolutions : list (Z * Z))
    (tileWidth tileHeight : Q) :
  resolutions <> [] -> ascending resolutions -> positiveEntries resolutions ->
  snd (findMinimumResolution_2 resolutions tileWidth tileHeight)
    = findMinimumResolution_ resolutions tileWidth tileHeight
  /\ (Exists (reaches tileWidth tileHeight) resolutions ->
      exists i entry,
        firstReaching resolutions tileWidth tileHeight i entry
        /\ findMinimumResolution_ resolutions tileWidth tileHeight
           = Some (resolutionOf entry))
  /\ (Forall (fun e => ~ reaches tileWidth tileHeight e) resolutions ->
      exists entry,
        last resolutions = Some entry
        /\ largestOf resolutions entry
        /\ findMinimumResolution_ resolutions tileWidth tileHeight
           = Some (resolutionOf entry))
  /\ exists entry,
      head resolutions = Some entry
      /\ smallestOf resolutions entry
      /\ findMinimumResolution_ resolutions 0 0 = Some (resolutionOf entry)
      /\ snd (findMinimumResolution_2 resolutions 0 0) = Some (resolutionOf entry).
Proof.
  intros Hne Hasc Hpos.
  split; [apply findMinimumResolution_revisions|].
  split; [|split].
  - intros Hex. rewrite findMinimumResolution_as_loop2.
    destruct (findMinimumResolution_loop2 resolutions tileWidth tileHeight) as [r|] eqn:E.
    + apply findMinimumResolution_loop2_Some in E.
      destruct E as (i & entry & Hfirst & ->). now exists i, entry.
    + apply findMinimumResolution_loop2_None in E. exfalso.
      apply Exists_exists in Hex. destruct Hex as (e & Hin & Hr).
      rewrite Forall_forall in E. exact (E e Hin Hr).
  - intros Hall. apply findMinimumResolution_loop2_None in Hall.
    destruct (last_is_Some resolutions Hne) as [entry Hlast].
    exists entry. split; [exact Hlast|].
    split; [now apply ascending_last_largest|].
    now rewrite findMinimumResolution_as_loop2, Hall, Hlast.
  - destruct resolutions as [|entry rest]; [contradiction|].
    exists entry. split; [reflexivity|].
    split; [now apply ascending_head_smallest|].
    assert (Hfind : findMinimumResolution_ (entry :: rest) 0 0
                    = Some (resolutionOf entry)).
    { inversion Hpos as [|? ? [Hw Hh] _]; subst. simpl.
      assert (Hskip : Qltb (inject_Z (fst entry)) 0 = false).
      { apply Qltb_ge. apply (inject_Z_le 0). lia. }
      rewrite Hskip. simpl. now rewrite andb_false_r. }
    split; [exact Hfind|]. now rewrite findMinimumResolution_revisions.
Qed.

Lemma findMinimumResolution_first_reaching_witness :
  (defaultResolutions_ <> [] /\ ascending defaultResolutions_
   /\ positiveEntries defaultResolutions_)
  /\ (Exists (reaches 700 500) defaultResolutions_ ->
      exists i entry,
        firstReaching defaultResolutions_ 700 500 i entry
        /\ findMinimumResolution_ defaultResolutions_ 700 500
           = Some (resolutionOf entry))
  /\ exists entry,
      head defaultResolutions_ = Some entry
      /\ smallestOf defaultResolutions_ entry
      /\ findMinimumResolution_ defaultResolutions_ 0 0 = Some (resolutionOf entry)
      /\ snd (findMinimumResolution_2 defaultResolutions_ 0 0)
         = Some (resolutionOf entry).
Proof.
  assert (Hne : defaultResolutions_ <> []) by discriminate.
  assert (Hasc : ascending defaultResolutions_) by (simpl; repeat split; reflexivity).
  assert (Hpos : positiveEntries defaultResolutions_)
    by (repeat constructor; reflexivity).
  split; [now repeat split|].
  pose proof (findMinimumResolution_first_reaching defaultResolutions_ 700 500
                Hne Hasc Hpos) as (_ & Hfirst & _ & Hzero).
  split; [exact Hfirst|exact Hzero].
Defined.

(** C3 as stated fails when the target is not the shape of the catalog.  A
    container 100 wide and 200 high: the first default entry that covers it
    in both dimensions is 320 x 240, and the code returns 160 x 120, which is
    wide enough but not high enough.  A container 100 wide and 1000 high: no
    entry covers it, and the code returns 160 x 120, not the largest entry
    1280 x 960. *)
Lemma findMinimumResolution_not_first_covering :
  (defaultResolutions_ !! 2%nat = Some (320, 240)
   /\ covers 100 200 (320, 240)%Z
   /\ ~ covers 100 200 (160, 120)%Z
   /\ ~ covers 100 200 (240, 180)%Z
   /\ findMinimumResolution_ defaultResolutions_ 100 200
      = Some {| imgWidthPx := 160; imgHeightPx := 120 |}
   /\ snd (findMinimumResolution_2 defaultResolutions_ 100 200)
      = Some {| imgWidthPx := 160; imgHeightPx := 120 |})
  /\ (Forall (fun e => ~ covers 100 1000 e) defaultResolutions_
      /\ last defaultResolutions_ = Some (1280, 960)
      /\ findMinimumResolution_ defaultResolutions_ 100 1000
         = Some {| imgWidthPx := 160; imgHeightPx := 120 |}
      /\ snd (findMinimumResolution_2 defaultResolutions_ 100 1000)
         = Some {| imgWidthPx := 160; imgHeightPx := 120 |}).
Proof.
  split.
  - repeat split; try reflexivity; try discriminate;
      intros [_ H]; vm_compute in H; now apply H.
  - split; [|repeat split; reflexivity].
    repeat constructor; intros [_ H]; vm_compute in H; now apply H.
Qed.

(** C10.  On every non-empty catalog and every target the two revisions
    return the same resolution; the second also writes the upscaling message
    to the console, exactly when no entry reaches the target. *)
Theorem findMinimumResolution_revisions_agree (resolutions : list (Z * Z))
    (tileWidth tileHeight : Q) :
  resolutions <> [] ->
  exists r logged,
    findMinimumResolution_ resolutions tileWidth tileHeight = Some r
    /\ findMinimumResolution_2 resolutions tileWidth tileHeight = (logged, Some r)
    /\ (Exists (reaches tileWidth tileHeight) resolutions -> logged = [])
    /\ (Forall (fun e => ~ reaches tileWidth tileHeight e) resolutions ->
        logged = [upscaleMessage]).
Proof.
  intros Hne. destruct (last_is_Some resolutions Hne) as [entry Hlast].
  rewrite findMinimumResolution_as_loop2. unfold findMinimumResolution_2.
  destruct (findMinimumResolution_loop2 resolutions tileWidth tileHeight) as [r|] eqn:E.
  - exists r, []. repeat split; try reflexivity.
    intros Hall. apply findMinimumResolution_loop2_None in Hall. congruence.
  - exists (resolutionOf entry), [upscaleMessage]. rewrite Hlast.
    repeat split; try reflexivity.
    intros Hex. apply findMinimumResolution_loop2_None in E. exfalso.
    apply Exists_exists in Hex. destruct Hex as (e & Hin & Hr).
    rewrite Forall_forall in E. exact (E e Hin Hr).
Qed.

Lemma findMinimumResolution_revisions_agree_witness :
  defaultResolutions_ <> []
  /\ exists r logged,
      findMinimumResolution_ defaultResolutions_ 2000 1500 = Some r
      /\ findMinimumResolution_2 defaultResolutions_ 2000 1500 = (logged, Some r)
      /\ (Exists (reaches 2000 1500) defaultResolutions_ -> logged = [])
      /\ (Forall (fun e => ~ reaches 2000 1500 e) defaultResolutions_ ->
          logged = [upscaleMessage]).
Proof.
  assert (Hne : defaultResolutions_ <> []) by discriminate.
  split; [exact Hne|].
  exact (findMinimumResolution_revisions_agree defaultResolutions_ 2000 1500 Hne).
Defined.

(** ** Running the controller monad *)

(** The parts of a run. *)
Definition completionOf {A} (r : Completion A * CameraGrid * list Effect) : Completion A :=
  fst (fst r).
Definition stateOf {A} (r : Completion A * CameraGrid * list Effect) : CameraGrid :=
  snd (fst r).
Definition traceOf {A} (r : Completion A * CameraGrid * list Effect) : list Effect :=
  snd r.

(** [m] run in [st] returns [a], leaving [st'] and the trace [t]. *)
Definition returns {A} (m : M A) (st : CameraGrid) (a : A) (st' : CameraGrid)
    (t : list Effect) : Prop :=
  m st = (Normal a, st', t).

(** [m] keeps the property [I] of the state, however it completes. *)
Definition keeps {A} (I : CameraGrid -> Prop) (m : M A) : Prop :=
  forall st, I st -> I (stateOf (m st)).

(** The selection, when there is one, is the index of a cell, and there is
    one cell per source URL. *)
Definition validSelection (st : CameraGrid) : Prop :=
  (forall i, selected_ st = Some i -> 0 <= i < Z.of_nat (length (cells_ st)))
  /\ length (cells_ st) = length (sourceUrls_ st).

(** [st'] differs from [st] in the contents of its cells only. *)
Definition onlyCells (st st' : CameraGrid) : Prop :=
  st' = set_cells_ (cells_ st') st /\ length (cells_ st') = length (cells_ st).

Lemma returns_ret {A} (a : A) (st : CameraGrid) : returns (mret a) st a st [].
Proof. reflexivity. Qed.

Lemma returns_bind {A B} (m : M A) (f : A -> M B) st a st1 t1 b st2 t2 :
  returns m st a st1 t1 -> returns (f a) st1 b st2 t2 ->
  returns (m ≫= f) st b st2 (t1 ++ t2).
Proof.
  unfold returns, mbind, M_bind. intros -> Hf. now rewrite Hf.
Qed.

Lemma bind_throws {A B} (m : M A) (f : A -> M B) st st1 t1 :
  m st = (TypeError, st1, t1) -> (m ≫= f) st = (TypeError, st1, t1).
Proof. unfold mbind, M_bind. now intros ->. Qed.

Lemma keeps_ret {A} (I : CameraGrid -> Prop) (a : A) : keeps I (mret a).
Proof. intros st H. exact H. Qed.

Lemma keeps_get (I : CameraGrid -> Prop) : keeps I get.
Proof. intros st H. exact H. Qed.

Lemma keeps_emit (I : CameraGrid -> Prop) (e : Effect) : keeps I (emit e).
Proof. intros st H. exact H. Qed.

Lemma keeps_throw {A} (I : CameraGrid -> Prop) : keeps I (@throw A).
Proof. intros st H. exact H. Qed.

Lemma keeps_bind {A B} (I : CameraGrid -> Prop) (m : M A) (f : A -> M B) :
  keeps I m -> (forall a, keeps I (f a)) -> keeps I (m ≫= f).
Proof.
  intros Hm Hf st H. specialize (Hm st H). unfold mbind, M_bind, stateOf in *.
  destruct (m st) as [[[a|] st1] t1]; simpl in *; [|exact Hm].
  specialize (Hf a st1 Hm). unfold stateOf in Hf.
  now destruct (f a st1) as [[c st2] t2].
Qed.

Lemma keeps_forEach {A} (I : CameraGrid -> Prop) (l : list A) (body : A -> M unit) :
  (forall x, keeps I (body x)) -> keeps I (forEach l body).
Proof.
  intros Hbody. induction l as [|x l IH]; simpl.
  - apply keeps_ret.
  - apply keeps_bind; [apply Hbody|intros _; exact IH].
Qed.

Lemma keeps_asBuildImages {A} (I : CameraGrid -> Prop) (m : M A) :
  keeps I m -> keeps I (asBuildImages m).
Proof.
  intros Hm st H. specialize (Hm st H). unfold asBuildImages, stateOf in *.
  now destruct (m st) as [[c st1] t1].
Qed.

(** ** Array access *)

Lemma lookupZ_Some {A} (l : list A) (i : Z) (x : A) :
  lookupZ l i = Some x <-> 0 <= i /\ l !! Z.to_nat i = Some x.
Proof.
  unfold lookupZ. destruct (Z.ltb_spec i 0).
  - split; [discriminate|lia].
  - split; [now split|now intros [_ ?]].
Qed.

Lemma lookupZ_in_range {A} (l : list A) (i : Z) :
  0 <= i < Z.of_nat (length l) -> exists x, lookupZ l i = Some x.
Proof.
  intros Hi. destruct (lookup_lt_is_Some_2 l (Z.to_nat i)) as [x Hx]; [lia|].
  exists x. apply lookupZ_Some. split; [lia|exact Hx].
Qed.

Lemma lookupZ_range {A} (l : list A) (i : Z) (x : A) :
  lookupZ l i = Some x -> 0 <= i < Z.of_nat (length l).
Proof.
  intros H. apply lookupZ_Some in H. destruct H as [H0 H].
  apply lookup_lt_Some in H. lia.
Qed.

Lemma withCell_returns (index : Z) (f : Cell -> Cell) (st : CameraGrid) (cell : Cell) :
  lookupZ (cells_ st) index = Some cell ->
  returns (withCell index f) st tt
    (set_cells_ (<[Z.to_nat index := f cell]> (cells_ st)) st) [].
Proof.
  intros H. unfold returns, withCell, mbind, M_bind, get. simpl. now rewrite H.
Qed.

Lemma withCell_throws (index : Z) (f : Cell -> Cell) (st : CameraGrid) :
  lookupZ (cells_ st) index = None ->
  withCell index f st = (TypeError, st, []).
Proof.
  intros H. unfold withCell, mbind, M_bind, get. simpl. now rewrite H.
Qed.

Lemma withCell_keeps (index : Z) (f : Cell -> Cell) :
  keeps validSelection (withCell index f).
Proof.
  intros st [Hsel Hlen]. destruct (lookupZ (cells_ st) index) as [cell|] eqn:E.
  - rewrite (withCell_returns _ f _ _ E). unfold stateOf, validSelection. simpl.
    rewrite length_insert. now split.
  - rewrite (withCell_throws _ f _ E). now split.
Qed.

(** ** Image requests *)

Lemma buildImage_run (index : Z) (st : CameraGrid) (cell : Cell) :
  lookupZ (cells_ st) index = Some cell ->
  buildImage_ index st =
  if decide (last (imgContainers cell) = Some (imgUrlOf st index))
  then (Normal tt, st, [BuildImage (mkImageRequest index (imgUrlOf st index) false)])
  else (Normal tt,
        set_cells_ (<[Z.to_nat index := cellAppendImg (imgUrlOf st index) cell]> (cells_ st)) st,
        [BuildImage (mkImageRequest index (imgUrlOf st index) true)]).
Proof.
  intros H. unfold buildImage_, mbind, M_bind, get. simpl. rewrite H.
  destruct (decide _); [reflexivity|].
  unfold mbind, M_bind. now rewrite (withCell_returns _ _ _ _ H).
Qed.

Lemma buildImage_throws (index : Z) (st : CameraGrid) :
  lookupZ (cells_ st) index = None ->
  buildImage_ index st = (TypeError, st, []).
Proof.
  intros H. unfold buildImage_, mbind, M_bind, get. simpl. now rewrite H.
Qed.

Lemma onlyCells_refl (st : CameraGrid) : onlyCells st st.
Proof. split; [now destruct st|reflexivity]. Qed.

Lemma onlyCells_trans (st1 st2 st3 : CameraGrid) :
  onlyCells st1 st2 -> onlyCells st2 st3 -> onlyCells st1 st3.
Proof.
  intros [H12 L12] [H23 L23]. split; [|congruence].
  rewrite H23 at 1. rewrite H12 at 1. reflexivity.
Qed.

Lemma onlyCells_insert (st : CameraGrid) (i : nat) (cell : Cell) :
  onlyCells st (set_cells_ (<[i := cell]> (cells_ st)) st).
Proof. split; [reflexivity|]. simpl. apply length_insert. Qed.

(** A run of [buildImage_] on an existing cell returns, issues one request
    with the URL of [imgUrlOf], touches nothing but the cells, and leaves
    that URL on the last image of the cell. *)
Lemma buildImage_returns (index : Z) (st : CameraGrid) :
  0 <= index < Z.of_nat (length (cells_ st)) ->
  exists st' created cell',
    returns (buildImage_ index) st tt st'
      [BuildImage (mkImageRequest index (imgUrlOf st index) created)]
    /\ onlyCells st st'
    /\ lookupZ (cells_ st') index = Some cell'
    /\ last (imgContainers cell') = Some (imgUrlOf st index).
Proof.
  intros Hi. destruct (lookupZ_in_range _ _ Hi) as [cell Hcell].
  unfold returns. rewrite (buildImage_run _ _ _ Hcell).
  destruct (decide _) as [Hlast|Hlast].
  - exists st, false, cell. split; [reflexivity|].
    split; [apply onlyCells_refl|]. now split.
  - exists (set_cells_ (<[Z.to_nat index := cellAppendImg (imgUrlOf st index) cell]>
                          (cells_ st)) st), true, (cellAppendImg (imgUrlOf st index) cell).
    split; [reflexivity|]. split; [apply onlyCells_insert|]. split.
    + apply lookupZ_Some. split; [lia|]. simpl.
      apply list_lookup_insert_eq. lia.
    + simpl. apply last_snoc.
Qed.

Lemma buildImage_onlyCells (index : Z) (st : CameraGrid) :
  onlyCells st (stateOf (buildImage_ index st)).
Proof.
  destruct (lookupZ (cells_ st) index) as [cell|] eqn:E.
  - rewrite (buildImage_run _ _ _ E). destruct (decide _); unfold stateOf; simpl.
    + apply onlyCells_refl.
    + apply onlyCells_insert.
  - rewrite (buildImage_throws _ _ E). apply onlyCells_refl.
Qed.

Lemma onlyCells_validSelection (st st' : CameraGrid) :
  onlyCells st st' -> validSelection st -> validSelection st'.
Proof.
  intros [Heq Hlen] [Hsel Hurls]. rewrite Heq. unfold validSelection. simpl.
  rewrite Hlen. now split.
Qed.

(** C4.  For every tile that has a cell, in every state of the controller,
    [buildImage_] requests the URL built from the full-screen resolution
    when the controller is scanning or the tile is the selected one, and the
    URL built from the grid-cell resolution otherwise. *)
Theorem buildImage_resolution_policy (st : CameraGrid) (index : Z) :
  0 <= index < Z.of_nat (length (cells_ st)) ->
  exists st' created,
    returns (buildImage_ index) st tt st'
      [BuildImage (mkImageRequest index (imgUrlOf st index) created)]
    /\ (scanning_ st = true \/ selected_ st = Some index ->
        imgUrlOf st index
        = getUrl_ st (lookupZ (sourceUrls_ st) index)
            (containerImgWidthPx_ st) (containerImgHeightPx_ st))
    /\ (scanning_ st = false -> selected_ st <> Some index ->
        imgUrlOf st index
        = getUrl_ st (lookupZ (sourceUrls_ st) index)
            (imgWidthPx_ st) (imgHeightPx_ st)).
Proof.
  intros Hi. destruct (buildImage_returns index st Hi) as (st' & created & _ & Hrun & _).
  exists st', created. split; [exact Hrun|].
  unfold imgUrlOf, isSelected. split.
  - intros [-> | ->]; [reflexivity|]. now rewrite Z.eqb_refl, orb_true_r.
  - intros -> Hsel. destruct (selected_ st) as [s|]; [|reflexivity].
    destruct (Z.eqb_spec index s) as [->|]; [congruence|reflexivity].
Qed.

Lemma buildImage_resolution_policy_witness :
  0 <= 1 < Z.of_nat (length (cells_ fourFeeds))
  /\ exists st' created,
      returns (buildImage_ 1) fourFeeds tt st'
        [BuildImage (mkImageRequest 1 (imgUrlOf fourFeeds 1) created)]
      /\ (scanning_ fourFeeds = true \/ selected_ fourFeeds = Some 1 ->
          imgUrlOf fourFeeds 1
          = getUrl_ fourFeeds (lookupZ (sourceUrls_ fourFeeds) 1)
              (containerImgWidthPx_ fourFeeds) (containerImgHeightPx_ fourFeeds))
      /\ (scanning_ fourFeeds = false -> selected_ fourFeeds <> Some 1 ->
          imgUrlOf fourFeeds 1
          = getUrl_ fourFeeds (lookupZ (sourceUrls_ fourFeeds) 1)
              (imgWidthPx_ fourFeeds) (imgHeightPx_ fourFeeds)).
Proof.
  assert (Hi : 0 <= 1 < Z.of_nat (length (cells_ fourFeeds)))
    by (vm_compute; split; [discriminate|reflexivity]).
  split; [exact Hi|].
  exact (buildImage_resolution_policy fourFeeds 1 Hi).
Defined.

(** On the example: tile 1 is requested at the grid-cell resolution 480 x 360
    while nothing is selected, at the full-screen resolution 800 x 600 once
    it is selected, and every tile at 800 x 600 while scanning. *)
Example imgUrlOf_fourFeeds :
  imgUrlOf fourFeeds 1 = "cam2/mjpg/video.mjpg?resolution=480x360"
  /\ imgUrlOf (set_selected_ (Some 1) fourFeeds) 1
     = "cam2/mjpg/video.mjpg?resolution=800x600"
  /\ imgUrlOf (set_selected_ (Some 1) fourFeeds) 0
     = "cam1/mjpg/video.mjpg?resolution=480x360"
  /\ imgUrlOf (set_scanning_ true fourFeeds) 0
     = "cam1/mjpg/video.mjpg?resolution=800x600".
Proof. vm_compute. repeat split; reflexivity. Qed.

(** ** Selection *)

Lemma run_bind {A B} (m : M A) (f : A -> M B) (st : CameraGrid) :
  (m ≫= f) st =
  match m st with
  | (Normal a, st', t) => let '(r, st'', t') := f a st' in (r, st'', t ++ t')
  | (TypeError, st', t) => (TypeError, st', t)
  end.
Proof. reflexivity. Qed.

Arguments withCell : simpl never.
Arguments buildImage_ : simpl never.
Arguments buildImages_ : simpl never.

(** [st'] differs from [st] in its selection and the contents of its cells
    only. *)
Definition onlySelection (st st' : CameraGrid) : Prop :=
  st' = set_selected_ (selected_ st') (set_cells_ (cells_ st') st)
  /\ length (cells_ st') = length (cells_ st).

Lemma withCell_run (index : Z) (f : Cell -> Cell) (st : CameraGrid) :
  0 <= index < Z.of_nat (length (cells_ st)) ->
  exists cells',
    withCell index f st = (Normal tt, set_cells_ cells' st, [])
    /\ length cells' = length (cells_ st).
Proof.
  intros Hi. destruct (lookupZ_in_range _ _ Hi) as [cell Hcell].
  eexists. split; [exact (withCell_returns _ f _ _ Hcell)|apply length_insert].
Qed.

Lemma buildImage_run_in_range (index : Z) (st : CameraGrid) :
  0 <= index < Z.of_nat (length (cells_ st)) ->
  exists cells' created,
    buildImage_ index st =
      (Normal tt, set_cells_ cells' st,
       [BuildImage (mkImageRequest index (imgUrlOf st index) created)])
    /\ length cells' = length (cells_ st).
Proof.
  intros Hi. destruct (buildImage_returns index st Hi)
    as (st' & created & _ & Hrun & [Heq Hlen] & _).
  exists (cells_ st'), created. split; [|exact Hlen]. now rewrite <- Heq.
Qed.

(** Symbolic execution of one call on a cell that exists. *)
Ltac run_cell_call :=
  match goal with
  | |- context [withCell ?i ?f ?s] =>
      let c := fresh "cells'" in
      let E := fresh "E" in
      let L := fresh "L" in
      destruct (withCell_run i f s) as (c & E & L); [simpl; lia|];
      rewrite E; clear E; cbn in L; cbn
  | |- context [buildImage_ ?i ?s] =>
      let c := fresh "cells'" in
      let b := fresh "created" in
      let E := fresh "E" in
      let L := fresh "L" in
      destruct (buildImage_run_in_range i s) as (c & b & E & L); [simpl; lia|];
      rewrite E; clear E; cbn in L; cbn
  end.

Ltac run := repeat first [rewrite run_bind | run_cell_call | progress cbn].

Ltac finish_run :=
  eexists _, _; (split; [reflexivity|]); (split; [reflexivity|]);
  split; [reflexivity|simpl; lia].

Lemma setSelected_returns (index : Z) (st : CameraGrid) :
  validSelection st ->
  0 <= index < Z.of_nat (length (cells_ st)) ->
  exists st' t,
    returns (setSelected_ index) st tt st' t
    /\ selected_ st' = (if isSelected st index then None else Some index)
    /\ onlySelection st st'.
Proof.
  intros [Hsel Hlen] Hi.
  unfold returns, setSelected_, isSelected, onlySelection.
  destruct (selected_ st) as [s|] eqn:Es.
  - specialize (Hsel s eq_refl).
    destruct (Z.eqb_spec index s) as [<-|Hne]; run; rewrite Es; run.
    + rewrite Z.eqb_refl. run. destruct (_ || _); run; finish_run.
    + destruct (Z.eqb_spec index s); [contradiction|]. run.
      destruct (_ || _); run; finish_run.
  - run. rewrite Es. run. destruct (_ || _); run; finish_run.
Qed.

Lemma lookupZ_None {A} (l : list A) (i : Z) :
  ~ (0 <= i < Z.of_nat (length l)) -> lookupZ l i = None.
Proof.
  intros Hi. destruct (lookupZ l i) as [x|] eqn:E; [|reflexivity].
  apply lookupZ_range in E. contradiction.
Qed.

Lemma onlySelection_validSelection (st st' : CameraGrid) :
  onlySelection st st' -> validSelection st ->
  (forall i, selected_ st' = Some i -> 0 <= i < Z.of_nat (length (cells_ st))) ->
  validSelection st'.
Proof.
  intros [Heq Hlen] [_ Hurls] Hsel. split.
  - intros i Hi. rewrite Hlen. now apply Hsel.
  - rewrite Heq. simpl. congruence.
Qed.

(** [setSelected_] keeps the selection valid whatever index it is given: an
    index without a cell makes [addCSSClass_] throw before [this.selected_]
    is assigned. *)
Lemma setSelected_keeps (index : Z) : keeps validSelection (setSelected_ index).
Proof.
  intros st Hvalid.
  destruct (decide (0 <= index < Z.of_nat (length (cells_ st)))) as [Hi|Hi].
  - destruct (setSelected_returns index st Hvalid Hi) as (st' & t & Hrun & Hsel & Honly).
    rewrite Hrun. unfold stateOf. simpl.
    apply (onlySelection_validSelection st); [assumption..|].
    intros i Hi'. rewrite Hsel in Hi'. destruct (isSelected st index); [discriminate|].
    now injection Hi' as <-.
  - destruct Hvalid as [Hsel Hlen]. unfold setSelected_, isSelected, stateOf.
    destruct (selected_ st) as [s|] eqn:Es.
    + specialize (Hsel s eq_refl).
      destruct (Z.eqb_spec index s) as [->|Hne]; [contradiction|].
      run. rewrite Es. run. destruct (Z.eqb_spec index s); [contradiction|]. run.
      rewrite (withCell_throws index); [|apply lookupZ_None; simpl; lia].
      cbn. split; simpl; [|lia]. intros i Hi'. rewrite Es in Hi'.
      injection Hi' as <-. lia.
    + run. rewrite Es. run.
      rewrite (withCell_throws index); [|apply lookupZ_None; simpl; lia].
      cbn. split; simpl; [|lia]. intros i Hi'. congruence.
Qed.

Lemma forEach_buildImage_run (l : list Z) (st : CameraGrid) :
  (forall i, i ∈ l -> 0 <= i < Z.of_nat (length (cells_ st))) ->
  exists cells' t,
    forEach l buildImage_ st = (Normal tt, set_cells_ cells' st, t)
    /\ length cells' = length (cells_ st).
Proof.
  revert st. induction l as [|i l IH]; intros st Hl.
  - exists (cells_ st), []. split; [now destruct st|reflexivity].
  - simpl. rewrite run_bind.
    destruct (buildImage_run_in_range i st) as (c & b & E & L);
      [apply Hl; left|]. rewrite E.
    destruct (IH (set_cells_ c st)) as (c' & t' & E' & L').
    { intros j Hj. simpl. rewrite L. apply Hl. now right. }
    rewrite E'. eexists _, _. split; [reflexivity|]. simpl in L'. lia.
Qed.

Lemma buildImages_run (st : CameraGrid) :
  length (cells_ st) = length (sourceUrls_ st) ->
  exists cells' rs,
    buildImages_ st = (Normal tt, set_cells_ cells' st, [BuildImages rs])
    /\ length cells' = length (cells_ st).
Proof.
  intros Hlen. unfold buildImages_, asBuildImages. rewrite run_bind. cbn.
  destruct (forEach_buildImage_run
              (seqZ 0 (Z.of_nat (length (sourceUrls_ st)))) st) as (c & t & E & L).
  { intros i Hi. apply elem_of_seqZ in Hi. lia. }
  rewrite E. cbn. eexists _, _. split; [reflexivity|exact L].
Qed.

Lemma keeps_modify (I : CameraGrid -> Prop) (f : CameraGrid -> CameraGrid) :
  (forall st, I st -> I (f st)) -> keeps I (modify f).
Proof. intros Hf st H. now apply Hf. Qed.

(** [disableScanning_] returns with scanning off, the selection as it was and
    nothing but the cell contents changed besides. *)
Lemma disableScanning_run (st : CameraGrid) :
  length (cells_ st) = length (sourceUrls_ st) ->
  exists cells' t,
    disableScanning_ st = (Normal tt, set_scanning_ false (set_cells_ cells' st), t)
    /\ length cells' = length (cells_ st).
Proof.
  intros Hlen. unfold disableScanning_. rewrite run_bind. cbn.
  destruct (scanning_ st) eqn:Es.
  - rewrite run_bind. cbn.
    destruct (buildImages_run (set_scanning_ false st)) as (c & rs & E & L);
      [exact Hlen|].
    rewrite E. cbn. eexists _, _. split; [reflexivity|exact L].
  - exists (cells_ st), []. split; [|reflexivity].
    destruct st. simpl in Es. now subst.
Qed.

(** ** Invariants of the handlers *)

(** [st'] has the cells, the selection, the scanning flag and the
    configuration of [st]: only cached values, styles and the container
    differ. *)
Definition sameCore (st st' : CameraGrid) : Prop :=
  cells_ st' = cells_ st
  /\ selected_ st' = selected_ st
  /\ scanning_ st' = scanning_ st
  /\ sourceUrls_ st' = sourceUrls_ st
  /\ resolutions_ st' = resolutions_ st.

Section HandlerInvariant.
Variable I : CameraGrid -> Prop.
Hypothesis I_withCell : forall index f, keeps I (withCell index f).
Hypothesis I_cache : forall st st', sameCore st st' -> I st -> I st'.
Hypothesis I_scanning : forall v st, I st -> I (set_scanning_ v st).
Hypothesis I_setSelected : forall index, keeps I (setSelected_ index).

Lemma keeps_cache (f : CameraGrid -> CameraGrid) :
  (forall st, sameCore st (f st)) -> keeps I (modify f).
Proof using I_cache. intros Hf st H. exact (I_cache st (f st) (Hf st) H). Qed.

(** Goes through sequencing, branches and loops; [call] settles the calls
    of procedures that have their own lemma. *)
Ltac keeps_structure_with call :=
  repeat first
    [ call
    | apply keeps_ret | apply keeps_get | apply keeps_emit | apply keeps_throw
    | apply keeps_cache; intros ?; now repeat split
    | apply keeps_forEach; intros ?
    | apply keeps_bind; [|intros ?]
    | match goal with
      | |- keeps _ (if ?b then _ else _) => destruct b
      | |- keeps _ (match ?x with _ => _ end) => destruct x
      | |- keeps _ (let '(_, _) := ?x in _) => destruct x
      end ].

Ltac keeps_structure := keeps_structure_with fail.

Lemma buildImage_keeps (index : Z) : keeps I (buildImage_ index).
Proof using I_withCell.
  unfold buildImage_. apply keeps_bind; [apply keeps_get|]. intros this.
  destruct (lookupZ _ _); [|apply keeps_throw].
  destruct (decide _); [apply keeps_emit|].
  apply keeps_bind; [apply I_withCell|]. intros _. apply keeps_emit.
Qed.

Lemma buildImages_keeps : keeps I buildImages_.
Proof using I_withCell.
  apply keeps_asBuildImages. apply keeps_bind; [apply keeps_get|].
  intros this. apply keeps_forEach. apply buildImage_keeps.
Qed.

Lemma setUpscaleRule_keeps (c : option Constraint) (rule : RuleName) :
  keeps I (setUpscaleRule_ c rule).
Proof using I_cache. unfold setUpscaleRule_. keeps_structure. Qed.

Lemma buildGrid_keeps : keeps I buildGrid_.
Proof using I_cache. unfold buildGrid_. keeps_structure. Qed.

Lemma buildStylesheet_keeps : keeps I buildStylesheet_.
Proof using I_cache. unfold buildStylesheet_. keeps_structure. Qed.

Lemma rebuildIfNeeded_keeps (rev : Revision) : keeps I (rebuildIfNeeded_ rev).
Proof using I_withCell I_cache.
  unfold rebuildIfNeeded_, callFindMinimumResolution_, propertyOf. cbv zeta.
  keeps_structure_with
    ltac:(first [ apply setUpscaleRule_keeps | apply buildGrid_keeps
                | apply buildImages_keeps | apply buildImage_keeps ]).
Qed.

Lemma disableScanning_keeps : keeps I disableScanning_.
Proof using I_withCell I_scanning.
  apply keeps_bind; [apply keeps_get|]. intros this.
  destruct (scanning_ this); [|apply keeps_ret].
  apply keeps_bind; [apply keeps_modify, I_scanning|]. intros _.
  apply buildImages_keeps.
Qed.

Lemma setSelectedNoScan_keeps (index : Z) : keeps I (setSelectedNoScan_ index).
Proof using I_withCell I_scanning I_setSelected.
  apply keeps_bind; [apply I_setSelected|]. intros _. apply disableScanning_keeps.
Qed.

Lemma scanLeft_keeps : keeps I scanLeft_.
Proof using I_setSelected.
  apply keeps_bind; [apply keeps_get|]. intros this. apply I_setSelected.
Qed.

Lemma scanRight_keeps : keeps I scanRight_.
Proof using I_setSelected.
  apply keeps_bind; [apply keeps_get|]. intros this. apply I_setSelected.
Qed.

Lemma onScanTimer_keeps : keeps I onScanTimer_.
Proof using I_setSelected.
  apply keeps_bind; [apply keeps_get|]. intros this.
  destruct (_ || _); [apply keeps_ret|apply scanRight_keeps].
Qed.

Lemma onKeyPress_keeps (charCode : Z) : keeps I (onKeyPress_ charCode).
Proof using I_withCell I_scanning I_setSelected.
  unfold onKeyPress_. cbv zeta. destruct (existsb _ _).
  { apply keeps_bind; [apply keeps_get|]. intros this.
    destruct (_ <? _); [apply setSelectedNoScan_keeps|apply keeps_ret]. }
  destruct (_ =? _).
  { apply keeps_bind; [apply keeps_get|]. intros this.
    assert (Hstart : keeps I
              (modify (set_scanning_ true);;
               this0 ← get;
               match selected_ this0 with
               | Some _ => mret tt
               | None => setSelected_ 0
               end)).
    { apply keeps_bind; [apply keeps_modify, I_scanning|]. intros _.
      apply keeps_bind; [apply keeps_get|]. intros this0.
      destruct (selected_ this0); [apply keeps_ret|apply I_setSelected]. }
    destruct (scanning_ this), (selected_ this);
      solve [apply setSelectedNoScan_keeps | exact Hstart]. }
  destruct (_ =? _); [|apply keeps_ret].
  apply keeps_modify. intros st. apply I_scanning.
Qed.

Lemma onKeyDown_keeps (keyCode : Z) : keeps I (onKeyDown_ keyCode).
Proof using I_withCell I_scanning I_setSelected.
  apply keeps_bind; [apply keeps_get|]. intros this.
  destruct (_ =? _).
  { destruct (selected_ this); [apply setSelectedNoScan_keeps|apply keeps_ret]. }
  destruct (_ =? _).
  { destruct (selected_ this); [|apply keeps_ret].
    apply keeps_bind; [apply scanLeft_keeps|]. intros _. apply disableScanning_keeps. }
  destruct (_ =? _); [|apply keeps_ret].
  destruct (selected_ this); [|apply keeps_ret].
  apply keeps_bind; [apply scanRight_keeps|]. intros _. apply disableScanning_keeps.
Qed.

Lemma dispatch_keeps (rev : Revision) (e : Event) : keeps I (dispatch rev e).
Proof using All.
  destruct e as [charCode|keyCode|index|width height|]; simpl.
  - apply onKeyPress_keeps.
  - apply onKeyDown_keeps.
  - apply keeps_bind; [apply keeps_get|]. intros this.
    destruct (cells_ this !! index); [|apply keeps_ret].
    destruct (bool_decide _); [apply keeps_ret|apply I_setSelected].
  - apply keeps_bind; [|intros _; apply rebuildIfNeeded_keeps].
    apply keeps_cache. intros st. now repeat split.
  - apply onScanTimer_keeps.
Qed.
End HandlerInvariant.

(** *** The selection stays valid *)

Lemma validSelection_sameCore (st st' : CameraGrid) :
  sameCore st st' -> validSelection st -> validSelection st'.
Proof.
  intros (Hcells & Hsel & _ & Hurls & _) [Hvalid Hlen].
  unfold validSelection. now rewrite Hcells, Hsel, Hurls.
Qed.

Lemma validSelection_scanning (v : bool) (st : CameraGrid) :
  validSelection st -> validSelection (set_scanning_ v st).
Proof. intros H. exact H. Qed.

Lemma dispatch_validSelection (rev : Revision) (e : Event) :
  keeps validSelection (dispatch rev e).
Proof.
  apply dispatch_keeps.
  - apply withCell_keeps.
  - apply validSelection_sameCore.
  - apply validSelection_scanning.
  - apply setSelected_keeps.
Qed.

(** *** The catalog and the number of cells stay *)

(** [st] has the catalog and the number of cells of [st0]. *)
Definition sameConfig (st0 st : CameraGrid) : Prop :=
  resolutions_ st = resolutions_ st0 /\ length (cells_ st) = length (cells_ st0).

Lemma withCell_sameConfig (st0 : CameraGrid) (index : Z) (f : Cell -> Cell) :
  keeps (sameConfig st0) (withCell index f).
Proof.
  intros st [Hres Hlen]. destruct (lookupZ (cells_ st) index) as [cell|] eqn:E.
  - rewrite (withCell_returns _ f _ _ E). unfold stateOf, sameConfig. simpl.
    now rewrite length_insert.
  - now rewrite (withCell_throws _ f _ E).
Qed.

Lemma sameConfig_sameCore (st0 st st' : CameraGrid) :
  sameCore st st' -> sameConfig st0 st -> sameConfig st0 st'.
Proof.
  intros (Hcells & _ & _ & _ & Hres) [Hres0 Hlen]. unfold sameConfig.
  now rewrite Hcells, Hres.
Qed.

Lemma setSelected_sameConfig (st0 : CameraGrid) (index : Z) :
  keeps (sameConfig st0) (setSelected_ index).
Proof.
  assert (Himg : forall i, keeps (sameConfig st0) (buildImage_ i)).
  { intros i. apply buildImage_keeps. apply withCell_sameConfig. }
  assert (Hsel : forall v, keeps (sameConfig st0) (modify (set_selected_ v))).
  { intros v. apply keeps_modify. intros st H. exact H. }
  unfold setSelected_.
  apply keeps_bind; [apply keeps_get|]. intros this.
  apply keeps_bind.
  - destruct (isSelected this index).
    + apply keeps_bind;
        [destruct (selected_ this); [apply withCell_sameConfig|apply keeps_ret]|].
      intros _. apply keeps_bind; [apply Hsel|]. intros _. apply keeps_ret.
    + apply keeps_bind;
        [destruct (selected_ this); [apply withCell_sameConfig|apply keeps_ret]|].
      intros _. apply keeps_bind; [apply withCell_sameConfig|]. intros _.
      apply keeps_bind; [apply Hsel|]. intros _. apply keeps_ret.
  - intros old_index. apply keeps_bind; [apply keeps_get|]. intros this0.
    destruct (_ || _); [|apply keeps_ret].
    apply keeps_bind; [destruct old_index; [apply Himg|apply keeps_ret]|].
    intros _. apply keeps_bind; [apply keeps_get|]. intros this1.
    destruct (selected_ this1); [apply Himg|apply keeps_ret].
Qed.

Lemma dispatch_sameConfig (st0 : CameraGrid) (rev : Revision) (e : Event) :
  keeps (sameConfig st0) (dispatch rev e).
Proof.
  apply dispatch_keeps.
  - apply withCell_sameConfig.
  - apply sameConfig_sameCore.
  - intros v st H. exact H.
  - apply setSelected_sameConfig.
Qed.

(** *** What the recompute pass leaves alone *)

(** [st] has the selection, the scanning flag, the configuration and the
    number of cells of [st0]. *)
Definition sameView (st0 st : CameraGrid) : Prop :=
  selected_ st = selected_ st0
  /\ scanning_ st = scanning_ st0
  /\ sourceUrls_ st = sourceUrls_ st0
  /\ resolutions_ st = resolutions_ st0
  /\ length (cells_ st) = length (cells_ st0).

Lemma sameView_refl (st : CameraGrid) : sameView st st.
Proof. now repeat split. Qed.

Lemma withCell_sameView (st0 : CameraGrid) (index : Z) (f : Cell -> Cell) :
  keeps (sameView st0) (withCell index f).
Proof.
  intros st H. destruct (lookupZ (cells_ st) index) as [cell|] eqn:E.
  - rewrite (withCell_returns _ f _ _ E). unfold stateOf, sameView. simpl.
    now rewrite length_insert.
  - now rewrite (withCell_throws _ f _ E).
Qed.

Lemma sameView_sameCore (st0 st st' : CameraGrid) :
  sameCore st st' -> sameView st0 st -> sameView st0 st'.
Proof.
  intros (Hcells & Hsel & Hscan & Hurls & Hres) H. unfold sameView.
  now rewrite Hcells, Hsel, Hscan, Hurls, Hres.
Qed.

Lemma rebuildIfNeeded_sameView (st0 : CameraGrid) (rev : Revision) :
  keeps (sameView st0) (rebuildIfNeeded_ rev).
Proof.
  apply rebuildIfNeeded_keeps; [apply withCell_sameView|apply sameView_sameCore].
Qed.

(** The constructor hands over a controller with nothing selected, scanning
    off and one cell per source URL. *)
Lemma construct_initial (rev : Revision) (container : Container)
    (sourceUrls : list string) (resolutions : list (Z * Z))
    (getUrl : option string -> option Z -> option Z -> string) (first : Z * Z) :
  let st :=
    stateOf (construct rev
               (initialFields rev container sourceUrls resolutions getUrl first)) in
  selected_ st = None /\ scanning_ st = false /\ validSelection st.
Proof.
  set (st0 := initialFields rev container sourceUrls resolutions getUrl first).
  set (st1 := set_cells_ ((fun _ => mkCell [] []) <$> sourceUrls) st0).
  assert (Hkeep : keeps (sameView st1) (buildStylesheet_;; rebuildIfNeeded_ rev)).
  { apply keeps_bind; [|intros _; apply rebuildIfNeeded_sameView].
    apply buildStylesheet_keeps, sameView_sameCore. }
  assert (Hrun : stateOf (construct rev st0)
                 = stateOf ((buildStylesheet_;; rebuildIfNeeded_ rev) st1)).
  { assert (Hcells : buildCells_ st0 = (Normal tt, st1, [])) by reflexivity.
    unfold construct, stateOf. rewrite (run_bind buildCells_), Hcells.
    now destruct ((buildStylesheet_;; rebuildIfNeeded_ rev) st1) as [[c s] t]. }
  cbv zeta. rewrite Hrun.
  destruct (Hkeep st1 (sameView_refl st1)) as (Hsel & Hscan & Hurls & _ & Hlen).
  split; [exact Hsel|]. split; [exact Hscan|]. split.
  - intros i Hi. rewrite Hsel in Hi. discriminate Hi.
  - rewrite Hlen, Hurls. simpl. now rewrite length_fmap.
Qed.

(** C9.  The controller the constructor returns has nothing selected, is not
    scanning and has a valid selection; and every event handler (a key
    press, a key down, a click on a tile, a resize with its recompute pass,
    a tick of the scan timer) takes a controller whose selection is absent or
    the index of a tile to one whose selection is absent or the index of a
    tile, whether the handler returns or throws. *)
Theorem validSelection_invariant :
  (forall rev container sourceUrls resolutions getUrl r,
      CameraGrid_new rev container sourceUrls resolutions getUrl = Some r ->
      selected_ (stateOf r) = None
      /\ scanning_ (stateOf r) = false
      /\ validSelection (stateOf r))
  /\ (forall rev e st,
        validSelection st -> validSelection (stateOf (dispatch rev e st))).
Proof.
  split.
  - intros rev container sourceUrls resolutions getUrl r. unfold CameraGrid_new.
    cbv zeta. destruct (default defaultResolutions_ resolutions) as [|first rest];
      [discriminate|].
    intros [= <-]. apply construct_initial.
  - intros rev e st. apply dispatch_validSelection.
Qed.

Lemma validSelection_invariant_witness :
  exists r,
    CameraGrid_new Rev1 (mkContainer 700 500 [] [])
      ["cam1/"; "cam2/"; "cam3/"; "cam4/"] None None = Some r
    /\ (selected_ (stateOf r) = None /\ scanning_ (stateOf r) = false
        /\ validSelection (stateOf r))
    /\ validSelection (stateOf (dispatch Rev1 (KeyPress 51) (stateOf r))).
Proof.
  eexists. split.
  { cbv [CameraGrid_new default defaultResolutions_]. reflexivity. }
  match goal with
  | |- (_ /\ _ /\ validSelection (stateOf ?r)) /\ _ =>
      assert (Hnew : CameraGrid_new Rev1 (mkContainer 700 500 [] [])
                       ["cam1/"; "cam2/"; "cam3/"; "cam4/"] None None = Some r)
        by (cbv [CameraGrid_new default defaultResolutions_]; reflexivity);
      pose proof (proj1 validSelection_invariant _ _ _ _ _ r Hnew) as Hinit
  end.
  split; [exact Hinit|].
  exact (proj2 validSelection_invariant Rev1 (KeyPress 51) _ (proj2 (proj2 Hinit))).
Defined.

(** ** Scanning *)

(** The number of tiles, as the handlers read it. *)
Definition cellCount (st : CameraGrid) : Z := Z.of_nat (length (cells_ st)).

(** With a valid selection [i], [scanRight_] returns and selects
    [(i + 1) mod n], except that with a single tile it deselects: the next
    index is then the selected one, which [setSelected_] toggles off. *)
Lemma scanRight_returns (st : CameraGrid) (i : Z) :
  validSelection st -> selected_ st = Some i ->
  exists st' t,
    returns scanRight_ st tt st' t
    /\ selected_ st'
       = (if cellCount st =? 1 then None else Some ((i + 1) mod cellCount st))
    /\ onlySelection st st'.
Proof.
  intros Hvalid Hsel. pose proof (proj1 Hvalid i Hsel) as Hi. fold (cellCount st) in Hi.
  unfold returns, scanRight_. rewrite run_bind. cbn. rewrite Hsel. cbn.
  fold (cellCount st). rewrite Z.rem_mod_nonneg by lia.
  destruct (setSelected_returns ((i + 1) mod cellCount st) st Hvalid)
    as (st' & t & Hrun & Hnew & Honly).
  { apply Z.mod_pos_bound. unfold cellCount in *. lia. }
  rewrite Hrun. exists st', t. split; [reflexivity|]. split; [|exact Honly].
  rewrite Hnew. unfold isSelected. rewrite Hsel.
  destruct (Z.eqb_spec (cellCount st) 1) as [E|E].
  - rewrite E, Z.mod_1_r. assert (i = 0) as -> by lia. reflexivity.
  - destruct (Z.eqb_spec ((i + 1) mod cellCount st) i) as [E'|]; [|reflexivity].
    exfalso. destruct (Z_lt_le_dec (i + 1) (cellCount st)).
    + rewrite Z.mod_small in E' by lia. lia.
    + assert (i + 1 = cellCount st) as Hn by lia.
      rewrite Hn, Z.mod_same in E' by lia. lia.
Qed.

(** The index [scanLeft_] passes to [setSelected_]. *)
Definition previousIndex (st : CameraGrid) : Z :=
  match selected_ st with
  | Some s => if 0 <? s then s - 1 else cellCount st - 1
  | None => cellCount st - 1
  end.

Lemma scanLeft_returns (st : CameraGrid) :
  validSelection st -> 1 <= cellCount st ->
  exists st' t,
    returns scanLeft_ st tt st' t
    /\ selected_ st'
       = (if isSelected st (previousIndex st) then None else Some (previousIndex st))
    /\ onlySelection st st'.
Proof.
  intros Hvalid Hn. unfold returns, scanLeft_. rewrite run_bind. cbn.
  fold (cellCount st). fold (previousIndex st).
  destruct (setSelected_returns (previousIndex st) st Hvalid)
    as (st' & t & Hrun & Hnew & Honly).
  { unfold previousIndex. fold (cellCount st).
    destruct (selected_ st) as [s|] eqn:Es; [|lia].
    pose proof (proj1 Hvalid s Es). fold (cellCount st) in *.
    destruct (Z.ltb_spec 0 s); lia. }
  rewrite Hrun. now exists st', t.
Qed.

Lemma onlySelection_cellCount (st st' : CameraGrid) :
  onlySelection st st' -> cellCount st' = cellCount st.
Proof. intros [_ Hlen]. unfold cellCount. now rewrite Hlen. Qed.

(** [scanRight_] then [scanLeft_] from a valid selection comes back to it,
    for any number of tiles.  With a single tile the way back goes through
    the state with nothing selected. *)
Lemma scanRight_scanLeft (st : CameraGrid) (i : Z) :
  validSelection st -> selected_ st = Some i ->
  exists st1 t1 st2 t2,
    returns scanRight_ st tt st1 t1
    /\ returns scanLeft_ st1 tt st2 t2
    /\ selected_ st2 = Some i.
Proof.
  intros Hvalid Hsel. pose proof (proj1 Hvalid i Hsel) as Hi. fold (cellCount st) in Hi.
  destruct (scanRight_returns st i Hvalid Hsel) as (st1 & t1 & Hrun1 & Hsel1 & Honly1).
  pose proof (onlySelection_cellCount _ _ Honly1) as Hcount.
  assert (Hvalid1 : validSelection st1).
  { apply (onlySelection_validSelection st); [assumption..|].
    intros j Hj. rewrite Hsel1 in Hj. fold (cellCount st).
    destruct (cellCount st =? 1); [discriminate|]. injection Hj as <-.
    apply Z.mod_pos_bound. lia. }
  destruct (scanLeft_returns st1 Hvalid1) as (st2 & t2 & Hrun2 & Hsel2 & _);
    [lia|].
  exists st1, t1, st2, t2. split; [exact Hrun1|]. split; [exact Hrun2|].
  rewrite Hsel2. unfold isSelected, previousIndex. rewrite Hsel1, Hcount.
  destruct (Z.eqb_spec (cellCount st) 1) as [E|E].
  - f_equal. lia.
  - destruct (Z_lt_le_dec (i + 1) (cellCount st)).
    + rewrite Z.mod_small by lia. destruct (Z.ltb_spec 0 (i + 1)); [|lia].
      replace (i + 1 - 1) with i by lia.
      destruct (Z.eqb_spec i (i + 1)); [lia|reflexivity].
    + assert (i + 1 = cellCount st) as Hn by lia.
      rewrite Hn, Z.mod_same by lia. simpl.
      destruct (Z.eqb_spec (cellCount st - 1) 0); [lia|]. f_equal. lia.
Qed.

(** The scan timer does nothing unless the controller is scanning and a
    tile is selected. *)
Lemma onScanTimer_idle (st : CameraGrid) :
  scanning_ st = false \/ selected_ st = None ->
  onScanTimer_ st = (Normal tt, st, []).
Proof.
  intros H. unfold onScanTimer_. rewrite run_bind. cbn.
  destruct H as [-> | ->]; [reflexivity|].
  now rewrite orb_true_r.
Qed.

(** With at least two tiles the scan timer moves a valid selection [i] to
    [(i + 1) mod n]. *)
Lemma onScanTimer_advances (st : CameraGrid) (i : Z) :
  validSelection st -> scanning_ st = true -> selected_ st = Some i ->
  2 <= cellCount st ->
  exists st' t,
    returns onScanTimer_ st tt st' t
    /\ selected_ st' = Some ((i + 1) mod cellCount st).
Proof.
  intros Hvalid Hscan Hsel Hn.
  destruct (scanRight_returns st i Hvalid Hsel) as (st' & t & Hrun & Hnew & _).
  exists st', t. split.
  - unfold returns, onScanTimer_. rewrite run_bind. cbn. rewrite Hscan, Hsel. cbn.
    now rewrite Hrun.
  - rewrite Hnew. destruct (Z.eqb_spec (cellCount st) 1); [lia|reflexivity].
Qed.

(** C6, the failing input.  A single feed, scanning, feed 0 selected: the
    tick of the scan timer returns with nothing selected, where
    [(0 + 1) mod 1] is 0. *)
Theorem onScanTimer_single_feed_deselects :
  cellCount oneFeedScanning = 1
  /\ scanning_ oneFeedScanning = true
  /\ selected_ oneFeedScanning = Some 0
  /\ completionOf (onScanTimer_ oneFeedScanning) = Normal tt
  /\ selected_ (stateOf (onScanTimer_ oneFeedScanning)) = None
  /\ scanning_ (stateOf (onScanTimer_ oneFeedScanning)) = true.
Proof. vm_compute. repeat split; reflexivity. Qed.

(** C7, the failing input.  A single feed, scanning, feed 0 selected: after
    one tick of the scan timer nothing is selected, and further ticks leave
    it so; the Right arrow deselects as well. *)
Theorem scan_single_feed_leaves_index_0 :
  selected_ oneFeedScanning = Some 0
  /\ scanning_ oneFeedScanning = true
  /\ selected_ (stateAfter Rev1 [ScanTimer] oneFeedScanning) = None
  /\ selected_ (stateAfter Rev1 [ScanTimer; ScanTimer; ScanTimer] oneFeedScanning) = None
  /\ selected_ (stateAfter Rev1 [KeyDown 39] oneFeedScanning) = None.
Proof. vm_compute. repeat split; reflexivity. Qed.

(** ** Digit keys *)

Lemma digit_branch (charCode : Z) :
  48 <= charCode <= 57 ->
  existsb (fun c => fromCharCode charCode =? charCodeAt0 c) digitCases = true.
Proof.
  intros Hc.
  assert (Hcases : charCode = 48 \/ charCode = 49 \/ charCode = 50 \/ charCode = 51
                   \/ charCode = 52 \/ charCode = 53 \/ charCode = 54
                   \/ charCode = 55 \/ charCode = 56 \/ charCode = 57) by lia.
  repeat (destruct Hcases as [-> | Hcases]); try subst charCode; reflexivity.
Qed.

(** The digit branch of [onKeyPress_]. *)
Lemma onKeyPress_digit (st : CameraGrid) (charCode : Z) :
  48 <= charCode <= 57 ->
  onKeyPress_ charCode st
  = let index := if charCode - 49 =? -1 then 10 else charCode - 49 in
    if index <? cellCount st then setSelectedNoScan_ index st else (Normal tt, st, []).
Proof.
  intros Hc. unfold onKeyPress_, cellCount. cbv zeta. rewrite (digit_branch _ Hc).
  change (charCodeAt0 "1") with 49. rewrite run_bind. cbn.
  destruct (_ <? _); [|reflexivity].
  now destruct (setSelectedNoScan_ _ st) as [[c s] t].
Qed.

(** The keys [1] to [9] (character codes 49 to 57) apply
    [setSelectedNoScan_] to tiles 0 to 8 when the tile exists and do nothing
    otherwise. *)
Lemma onKeyPress_digit_1_to_9 (st : CameraGrid) (d : Z) :
  1 <= d <= 9 ->
  onKeyPress_ (48 + d) st
  = if d - 1 <? cellCount st then setSelectedNoScan_ (d - 1) st else (Normal tt, st, []).
Proof.
  intros Hd. rewrite onKeyPress_digit by lia. cbv zeta.
  destruct (Z.eqb_spec (48 + d - 49) (-1)); [lia|].
  now replace (48 + d - 49) with (d - 1) by lia.
Qed.

(** The key [0] (character code 48) applies [setSelectedNoScan_] to tile 10,
    the eleventh, when there is one, and does nothing otherwise. *)
Lemma onKeyPress_digit_0 (st : CameraGrid) :
  onKeyPress_ 48 st
  = if 10 <? cellCount st then setSelectedNoScan_ 10 st else (Normal tt, st, []).
Proof. now rewrite onKeyPress_digit by lia. Qed.

(** [setSelectedNoScan_] on an existing tile returns with scanning off and
    the tile selected, or nothing selected if the tile was the selected
    one. *)
Lemma setSelectedNoScan_returns (index : Z) (st : CameraGrid) :
  validSelection st ->
  0 <= index < cellCount st ->
  exists st' t,
    returns (setSelectedNoScan_ index) st tt st' t
    /\ selected_ st' = (if isSelected st index then None else Some index)
    /\ scanning_ st' = false
    /\ cellCount st' = cellCount st.
Proof.
  intros Hvalid Hi.
  destruct (setSelected_returns index st Hvalid Hi) as (st1 & t1 & Hrun1 & Hsel1 & Honly).
  destruct (disableScanning_run st1) as (c & t2 & Hrun2 & Hlen2).
  { destruct Honly as [Heq Hlen]. rewrite Heq at 2. simpl. rewrite Hlen. apply Hvalid. }
  exists (set_scanning_ false (set_cells_ c st1)), (t1 ++ t2).
  split; [|split; [exact Hsel1|split; [reflexivity|]]].
  - unfold returns, setSelectedNoScan_. rewrite run_bind, Hrun1, Hrun2. reflexivity.
  - unfold cellCount. simpl. rewrite Hlen2. f_equal. apply Honly.
Qed.

(** C8, the failing input.  With eleven feeds the key [0] selects tile 10,
    not tile 9; with ten feeds it changes nothing although tile 9 exists.
    The key [9] reaches tile 8. *)
Theorem onKeyPress_zero_skips_tile_9 :
  cellCount elevenFeeds = 11
  /\ selected_ (stateOf (onKeyPress_ 48 elevenFeeds)) = Some 10
  /\ cellCount tenFeeds = 10
  /\ selected_ tenFeeds = None
  /\ onKeyPress_ 48 tenFeeds = (Normal tt, tenFeeds, [])
  /\ selected_ (stateOf (onKeyPress_ 57 tenFeeds)) = Some 8.
Proof.
  split; [reflexivity|]. split; [vm_compute; reflexivity|].
  split; [reflexivity|]. split; [vm_compute; reflexivity|].
  split; [|vm_compute; reflexivity].
  rewrite onKeyPress_digit_0. reflexivity.
Qed.

(** ** The recompute pass *)

Arguments calculateGrid_ : simpl never.
Arguments findMinimumResolution_ : simpl never.
Arguments findMinimumResolution_2 : simpl never.

(** The grid-cell resolution a recompute pass finds. *)
Definition newResolution (st : CameraGrid) : option Resolution :=
  findMinimumResolution_ (resolutions_ st)
    (cellWidthPx (calculateGrid_ st)) (cellHeightPx (calculateGrid_ st)).

(** The full-screen resolution a recompute pass finds. *)
Definition newContainerResolution (st : CameraGrid) : option Resolution :=
  findMinimumResolution_ (resolutions_ st)
    (inject_Z (offsetWidth (container_ st))) (inject_Z (offsetHeight (container_ st))).

(** The five comparisons of [rebuildIfNeeded_] against the cached values. *)
Definition constraintTest (st : CameraGrid) : bool :=
  constraint_neq (constraint (calculateGrid_ st)) (constraint_ st).

Definition containerConstraintTest (st : CameraGrid) : bool :=
  constraint_neq (Some (containerConstraint (calculateGrid_ st))) (containerConstraint_ st).

Definition resolutionTest (st : CameraGrid) : bool :=
  num_neq (imgWidthPx <$> newResolution st) (imgWidthPx_ st)
  || num_neq (imgHeightPx <$> newResolution st) (imgHeightPx_ st).

Definition containerResolutionTest (st : CameraGrid) : bool :=
  num_neq (imgWidthPx <$> newContainerResolution st) (containerImgWidthPx_ st)
  || num_neq (imgHeightPx <$> newContainerResolution st) (containerImgHeightPx_ st).

Definition shapeTest (st : CameraGrid) : bool :=
  num_neq (gridWidthCells (calculateGrid_ st)) (gridWidthCells_ st)
  || num_neq (gridHeightCells (calculateGrid_ st)) (gridHeightCells_ st).

Definition isConsoleLog (e : Effect) : Prop := exists msg, e = ConsoleLog msg.

Lemma callFindMinimumResolution_run (rev : Revision) (tileWidth tileHeight : Q)
    (st : CameraGrid) :
  resolutions_ st <> [] ->
  exists r logs,
    callFindMinimumResolution_ rev tileWidth tileHeight st = (Normal (Some r), st, logs)
    /\ findMinimumResolution_ (resolutions_ st) tileWidth tileHeight = Some r
    /\ Forall isConsoleLog logs
    /\ (rev = Rev1 -> logs = []).
Proof.
  intros Hne.
  destruct (findMinimumResolution_revisions_agree (resolutions_ st) tileWidth tileHeight Hne)
    as (r & logged & H1 & H2 & Hlog & Hlog').
  unfold callFindMinimumResolution_. rewrite run_bind. cbn. destruct rev.
  - rewrite H1. exists r, []. split; [reflexivity|]. split; [reflexivity|].
    split; [constructor|reflexivity].
  - rewrite H2. cbn.
    assert (Hcases : logged = [] \/ logged = [upscaleMessage]).
    { destruct (findMinimumResolution_loop2 (resolutions_ st) tileWidth tileHeight)
        as [r'|] eqn:E.
      - left. apply Hlog.
        apply findMinimumResolution_loop2_Some in E.
        destruct E as (i & e & (Hl & Hr & _) & _).
        apply Exists_exists. exists e. split; [|exact Hr].
        eapply list_elem_of_lookup_2. exact Hl.
      - right. apply Hlog'. now apply findMinimumResolution_loop2_None. }
    destruct Hcases as [-> | ->]; cbn.
    + exists r, []. split; [reflexivity|]. split; [exact H1|].
      split; [constructor|discriminate].
    + exists r, [ConsoleLog upscaleMessage]. split; [reflexivity|].
      split; [exact H1|]. split; [|discriminate].
      repeat constructor. now exists upscaleMessage.
Qed.

Arguments num_neq : simpl never.
Arguments constraint_neq : simpl never.

Ltac run_rebuild :=
  repeat first
    [ rewrite run_bind
    | progress unfold setUpscaleRule_, buildGrid_
    | match goal with
      | H : ?b = _ |- context [if ?b then _ else _] => rewrite H
      end
    | run_cell_call
    | match goal with
      | |- context [buildImages_ ?s] =>
          let c := fresh "cells'" in
          let rs := fresh "rs" in
          let E := fresh "E" in
          let L := fresh "L" in
          destruct (buildImages_run s) as (c & rs & E & L); [simpl; lia|];
          rewrite E; clear E; cbn in L; cbn
      end
    | progress cbn ].

Lemma rebuildIfNeeded_run (rev : Revision) (st : CameraGrid) :
  resolutions_ st <> [] -> validSelection st ->
  exists st' logs rs req,
    returns (rebuildIfNeeded_ rev) st tt st'
      (logs
       ++ (if constraintTest st
           then [SetUpscaleRule ImageScaleRule (constraint (calculateGrid_ st))] else [])
       ++ (if containerConstraintTest st
           then [SetUpscaleRule ContainerImageScaleRule
                   (Some (containerConstraint (calculateGrid_ st)))] else [])
       ++ (if resolutionTest st then [BuildImages rs] else [])
       ++ (if containerResolutionTest st
           then match selected_ st with Some _ => [BuildImage req] | None => [] end
           else [])
       ++ (if shapeTest st
           then [BuildGrid (gridWidthCells (calculateGrid_ st))
                   (gridHeightCells (calculateGrid_ st))] else []))
    /\ Forall isConsoleLog logs
    /\ (rev = Rev1 -> logs = [])
    /\ (constraintTest st = false -> containerConstraintTest st = false ->
        resolutionTest st = false -> containerResolutionTest st = false ->
        shapeTest st = false -> st' = st).
Proof.
  intros Hne [Hsel Hlen].
  destruct (callFindMinimumResolution_run rev (cellWidthPx (calculateGrid_ st))
              (cellHeightPx (calculateGrid_ st)) st Hne)
    as (r & logs1 & Hrun1 & Hr & Hlogs1 & Hrev1).
  destruct (callFindMinimumResolution_run rev (inject_Z (offsetWidth (container_ st)))
              (inject_Z (offsetHeight (container_ st))) st Hne)
    as (cr & logs2 & Hrun2 & Hcr & Hlogs2 & Hrev2).
  unfold constraintTest, containerConstraintTest, resolutionTest,
    containerResolutionTest, shapeTest, newResolution, newContainerResolution.
  rewrite Hr, Hcr. cbn [fmap option_fmap option_map].
  unfold returns, rebuildIfNeeded_. cbv zeta.
  rewrite run_bind. cbn [get]. cbv iota beta.
  rewrite run_bind, Hrun1. cbv iota beta.
  rewrite run_bind, Hrun2. cbv iota beta.
  assert (Hlogs : Forall isConsoleLog (logs1 ++ logs2)) by now apply Forall_app.
  assert (Hrev : rev = Rev1 -> logs1 ++ logs2 = []).
  { intros E. now rewrite (Hrev1 E), (Hrev2 E). }
  assert (Hsel' : forall s, selected_ st = Some s ->
                    0 <= s < Z.of_nat (length (cells_ st))) by exact Hsel.
  destruct (selected_ st) as [s|] eqn:Es; [specialize (Hsel' s eq_refl)|clear Hsel'];
    destruct (constraint_neq (constraint (calculateGrid_ st)) (constraint_ st)) eqn:E1;
    destruct (constraint_neq (Some (containerConstraint (calculateGrid_ st)))
                (containerConstraint_ st)) eqn:E2;
    destruct (num_neq (Some (imgWidthPx r)) (imgWidthPx_ st)
              || num_neq (Some (imgHeightPx r)) (imgHeightPx_ st)) eqn:E3;
    destruct (num_neq (Some (imgWidthPx cr)) (containerImgWidthPx_ st)
              || num_neq (Some (imgHeightPx cr)) (containerImgHeightPx_ st)) eqn:E4;
    destruct (num_neq (gridWidthCells (calculateGrid_ st)) (gridWidthCells_ st)
              || num_neq (gridHeightCells (calculateGrid_ st)) (gridHeightCells_ st)) eqn:E5;
    run_rebuild;
    eexists _, (logs1 ++ logs2), _, _;
    (split; [rewrite <- ?app_assoc; reflexivity|]);
    (split; [exact Hlogs|]); (split; [exact Hrev|]);
    intros; first [discriminate | reflexivity].
  Unshelve.
  all: first [exact [] | exact (mkImageRequest 0 "" false)].
Qed.

(** A recomputed value differs from the cached one. *)
Definition constraintChanged (st : CameraGrid) : Prop :=
  constraint (calculateGrid_ st) <> constraint_ st.

Definition containerConstraintChanged (st : CameraGrid) : Prop :=
  Some (containerConstraint (calculateGrid_ st)) <> containerConstraint_ st.

Definition resolutionChanged (st : CameraGrid) : Prop :=
  (imgWidthPx <$> newResolution st, imgHeightPx <$> newResolution st)
  <> (imgWidthPx_ st, imgHeightPx_ st).

Definition containerResolutionChanged (st : CameraGrid) : Prop :=
  (imgWidthPx <$> newContainerResolution st, imgHeightPx <$> newContainerResolution st)
  <> (containerImgWidthPx_ st, containerImgHeightPx_ st).

Definition shapeChanged (st : CameraGrid) : Prop :=
  (gridWidthCells (calculateGrid_ st), gridHeightCells (calculateGrid_ st))
  <> (gridWidthCells_ st, gridHeightCells_ st).

Lemma num_neq_spec (a b : option Z) : num_neq a b = true <-> a <> b.
Proof.
  unfold num_neq. destruct a as [x|], b as [y|]; try (split; congruence).
  rewrite negb_true_iff, Z.eqb_neq. split; congruence.
Qed.













(** ** No handler throws *)

(** What a handler needs to return: a valid selection, a non-empty catalog
    and at least one tile. *)
Definition ready (st : CameraGrid) : Prop :=
  validSelection st /\ resolutions_ st <> [] /\ 1 <= cellCount st.

(** Key events carry a character code that is not negative. *)
Definition wellFormed (e : Event) : Prop :=
  match e with
  | KeyPress charCode => 0 <= charCode
  | _ => True
  end.

Lemma returns_then_disableScanning (m : M unit) (st st1 : CameraGrid) (t1 : list Effect) :
  returns m st tt st1 t1 -> onlySelection st st1 -> validSelection st ->
  exists st' t, returns (m;; disableScanning_) st tt st' t.
Proof.
  intros Hrun [Heq Hlen] [_ Hurls].
  destruct (disableScanning_run st1) as (c & t2 & Hrun2 & _).
  { rewrite Heq at 2. simpl. congruence. }
  eexists _, _. unfold returns. rewrite run_bind, Hrun, Hrun2. reflexivity.
Qed.

Lemma digit_branch_nonneg (charCode : Z) :
  0 <= charCode ->
  existsb (fun c => fromCharCode charCode =? charCodeAt0 c) digitCases = true ->
  48 <= charCode.
Proof.
  intros Hc Hex. apply existsb_exists in Hex. destruct Hex as (c & Hin & Heq).
  apply Z.eqb_eq in Heq. unfold fromCharCode in Heq.
  assert (Hle : charCode mod 65536 <= charCode) by (apply Z.mod_le; lia).
  assert (Hd : 48 <= charCodeAt0 c).
  { simpl in Hin. repeat (destruct Hin as [<- | Hin]; [vm_compute; discriminate|]).
    contradiction. }
  lia.
Qed.

Lemma onKeyPress_returns (charCode : Z) (st : CameraGrid) :
  ready st -> 0 <= charCode ->
  exists st' t, returns (onKeyPress_ charCode) st tt st' t.
Proof.
  intros (Hvalid & _ & Hn) Hc. unfold onKeyPress_. cbv zeta.
  destruct (existsb _ _) eqn:Hdigit.
  { apply (digit_branch_nonneg _ Hc) in Hdigit. change (charCodeAt0 "1") with 49.
    unfold returns. rewrite run_bind. cbn.
    destruct (Z.ltb_spec
                (if charCode - 49 =? -1 then 10 else charCode - 49)
                (Z.of_nat (length (cells_ st)))) as [Hlt|_];
      [|now eexists _, _].
    destruct (setSelectedNoScan_returns
                (if charCode - 49 =? -1 then 10 else charCode - 49) st Hvalid)
      as (st' & t & Hrun & _).
    { unfold cellCount. destruct (Z.eqb_spec (charCode - 49) (-1)); lia. }
    rewrite Hrun. now eexists _, _. }
  destruct (_ =? _).
  { unfold returns. rewrite run_bind. cbn.
    assert (Hstart :
      exists st' t,
        (modify (set_scanning_ true);;
         this0 ← get;
         match selected_ this0 with
         | Some _ => mret tt
         | None => setSelected_ 0
         end) st = (Normal tt, st', t)).
    { rewrite run_bind. cbn. rewrite run_bind. cbn.
      destruct (selected_ st) eqn:Es; [now eexists _, _|].
      destruct (setSelected_returns 0 (set_scanning_ true st)) as (st' & t & Hrun & _);
        [exact Hvalid|unfold cellCount in Hn; simpl; lia|].
      rewrite Hrun. now eexists _, _. }
    destruct (scanning_ st), (selected_ st) as [s|] eqn:Es;
      try (destruct Hstart as (st' & t & ->); now eexists _, _).
    destruct (setSelectedNoScan_returns s st Hvalid) as (st' & t & Hrun & _);
      [apply Hvalid, Es|].
    rewrite Hrun. now eexists _, _. }
  destruct (_ =? _); now eexists _, _.
Qed.

Lemma onKeyDown_returns (keyCode : Z) (st : CameraGrid) :
  ready st -> exists st' t, returns (onKeyDown_ keyCode) st tt st' t.
Proof.
  intros (Hvalid & _ & Hn). unfold returns, onKeyDown_. rewrite run_bind. cbn.
  destruct (_ =? _).
  { destruct (selected_ st) as [s|] eqn:Es; [|now eexists _, _].
    destruct (setSelectedNoScan_returns s st Hvalid) as (st' & t & Hrun & _);
      [apply Hvalid, Es|].
    rewrite Hrun. now eexists _, _. }
  destruct (_ =? _).
  { destruct (selected_ st) as [s|] eqn:Es; [|now eexists _, _].
    destruct (scanLeft_returns st Hvalid Hn) as (st1 & t1 & Hrun1 & _ & Honly).
    destruct (returns_then_disableScanning _ _ _ _ Hrun1 Honly Hvalid)
      as (st' & t & ->).
    now eexists _, _. }
  destruct (_ =? _); [|now eexists _, _].
  destruct (selected_ st) as [s|] eqn:Es; [|now eexists _, _].
  destruct (scanRight_returns st s Hvalid Es) as (st1 & t1 & Hrun1 & _ & Honly).
  destruct (returns_then_disableScanning _ _ _ _ Hrun1 Honly Hvalid) as (st' & t & ->).
  now eexists _, _.
Qed.

(** In a ready controller every handler returns: no event makes one throw. *)
Lemma dispatch_returns (rev : Revision) (e : Event) (st : CameraGrid) :
  ready st -> wellFormed e ->
  exists st' t, returns (dispatch rev e) st tt st' t.
Proof.
  intros Hready Hwf. pose proof Hready as (Hvalid & Hne & Hn).
  destruct e as [charCode|keyCode|index|width height|]; cbn [dispatch].
  - now apply onKeyPress_returns.
  - now apply onKeyDown_returns.
  - unfold returns. rewrite run_bind. cbn.
    destruct (cells_ st !! index) as [cell|] eqn:Hcell; [|now eexists _, _].
    destruct (bool_decide _); [now eexists _, _|].
    destruct (setSelected_returns (Z.of_nat index) st Hvalid) as (st' & t & Hrun & _).
    { apply lookup_lt_Some in Hcell. lia. }
    rewrite Hrun. now eexists _, _.
  - unfold returns. rewrite run_bind. cbn.
    destruct (rebuildIfNeeded_run rev
                (set_container_
                   (mkContainer width height (containerClasses (container_ st))
                      (rows (container_ st))) st) Hne Hvalid)
      as (st' & logs & rs & req & Hrun & _).
    rewrite Hrun. now eexists _, _.
  - destruct (scanning_ st) eqn:Hscan, (selected_ st) as [s|] eqn:Es.
    2-4: unfold returns; rewrite onScanTimer_idle by auto; now eexists _, _.
    destruct (scanRight_returns st s Hvalid Es) as (st' & t & Hrun & _).
    exists st', t. unfold returns, onScanTimer_. rewrite run_bind. cbn.
    rewrite Hscan, Es. cbn. now rewrite Hrun.
Qed.

(** ** Reachable controllers *)

Lemma dispatch_ready (rev : Revision) (e : Event) (st : CameraGrid) :
  ready st -> ready (stateOf (dispatch rev e st)).
Proof.
  intros (Hvalid & Hne & Hn).
  destruct (dispatch_sameConfig st rev e st) as [Hres Hlen]; [now split|].
  split; [now apply dispatch_validSelection|].
  unfold cellCount. rewrite Hres, Hlen. now split.
Qed.

Lemma stateAfter_ready (rev : Revision) (events : list Event) (st : CameraGrid) :
  ready st -> ready (stateAfter rev events st).
Proof.
  revert st. induction events as [|e events IH]; intros st Hready; [exact Hready|].
  apply (IH (stateOf (dispatch rev e st))). now apply dispatch_ready.
Qed.

(** A controller constructed over at least one source URL is ready, and its
    constructor returns. *)
Lemma CameraGrid_new_ready (rev : Revision) (container : Container)
    (sourceUrls : list string) (resolutions : option (list (Z * Z)))
    (getUrl : option (option string -> option Z -> option Z -> string))
    (r : Completion unit * CameraGrid * list Effect) :
  CameraGrid_new rev container sourceUrls resolutions getUrl = Some r ->
  sourceUrls <> [] ->
  completionOf r = Normal tt /\ ready (stateOf r).
Proof.
  unfold CameraGrid_new. cbv zeta.
  destruct (default defaultResolutions_ resolutions) as [|first rest] eqn:Hres;
    [discriminate|].
  intros [= <-] Hurls.
  set (st0 := initialFields rev container sourceUrls (first :: rest)
                (default defaultGetUrl_ getUrl) first).
  pose proof (construct_initial rev container sourceUrls (first :: rest)
                (default defaultGetUrl_ getUrl) first) as Hinit.
  cbv zeta in Hinit. fold st0 in Hinit. destruct Hinit as (_ & _ & Hvalid).
  set (st1 := set_cells_ ((fun _ => mkCell [] []) <$> sourceUrls) st0).
  set (st2 := stateOf (buildStylesheet_ st1)).
  assert (Hvalid2 : validSelection st2).
  { split; [intros i Hi; discriminate Hi|]. simpl. now rewrite length_fmap. }
  destruct (rebuildIfNeeded_run rev st2) as (st' & logs & rs & req & Hrun & _);
    [discriminate|exact Hvalid2|].
  assert (Hconstruct : exists t, construct rev st0 = (Normal tt, st', t)).
  { unfold construct. rewrite (run_bind buildCells_).
    change (buildCells_ st0) with (Normal tt, st1, @nil Effect). cbv iota beta.
    rewrite (run_bind buildStylesheet_).
    change (buildStylesheet_ st1) with (Normal tt, st2, @nil Effect). cbv iota beta.
    rewrite Hrun. now eexists. }
  destruct Hconstruct as [t Hconstruct].
  rewrite Hconstruct in Hvalid |- *. split; [reflexivity|].
  split; [exact Hvalid|]. unfold stateOf in *. simpl in *.
  destruct (rebuildIfNeeded_sameView st2 rev st2 (sameView_refl st2))
    as (_ & _ & _ & Hres' & Hlen').
  rewrite Hrun in Hres', Hlen'. unfold stateOf in Hres', Hlen'. simpl in Hres', Hlen'.
  unfold cellCount. rewrite Hres', Hlen'. simpl. rewrite length_fmap.
  split; [discriminate|]. destruct sourceUrls; [contradiction|simpl; lia].
Qed.

(** Every handler returns in every state a constructed controller reaches
    through events. *)
Lemma reachable_returns (rev : Revision) (container : Container)
    (sourceUrls : list string) (resolutions : option (list (Z * Z)))
    (getUrl : option (option string -> option Z -> option Z -> string))
    (r : Completion unit * CameraGrid * list Effect)
    (events : list Event) (e : Event) :
  CameraGrid_new rev container sourceUrls resolutions getUrl = Some r ->
  sourceUrls <> [] -> wellFormed e ->
  exists st' t,
    returns (dispatch rev e) (stateAfter rev events (stateOf r)) tt st' t.
Proof.
  intros Hnew Hurls Hwf.
  destruct (CameraGrid_new_ready _ _ _ _ _ _ Hnew Hurls) as [_ Hready].
  apply dispatch_returns; [|exact Hwf]. now apply stateAfter_ready.
Qed.

(** ** The rows of the grid *)

(** The inner loop of [buildGrid_] places the next cells in order: as many
    as there are columns, or as many as are left. *)
Lemma fillRow_spec (x i n : nat) :
  fillRow x i n = (seq i (Nat.min x (n - i)), (i + Nat.min x (n - i))%nat).
Proof.
  revert i. induction x as [|x IH]; intros i; simpl.
  - f_equal. lia.
  - destruct (Nat.ltb_spec i n) as [Hlt|Hge].
    + rewrite IH. replace (n - i)%nat with (S (n - S i)) by lia. simpl.
      f_equal. lia.
    + rewrite IH. replace (n - i)%nat with 0%nat by lia.
      now rewrite Nat.min_0_r.
Qed.

Lemma fillRows_concat (y w i n : nat) :
  concat (fillRows y w i n) = seq i (Nat.min (y * w) (n - i)).
Proof.
  revert i. induction y as [|y IH]; intros i; simpl; [reflexivity|].
  rewrite fillRow_spec. simpl. rewrite IH.
  rewrite <- seq_app. f_equal. lia.
Qed.

Lemma fillRows_length (y w i n : nat) : length (fillRows y w i n) = y.
Proof.
  revert i. induction y as [|y IH]; intros i; simpl; [reflexivity|].
  rewrite fillRow_spec. simpl. now rewrite IH.
Qed.

Lemma fillRows_row_length (y w i n : nat) (row : list nat) :
  row ∈ fillRows y w i n -> (length row <= w)%nat.
Proof.
  revert i. induction y as [|y IH]; intros i; simpl.
  - intros H. now apply elem_of_nil in H.
  - rewrite fillRow_spec. intros H. apply elem_of_cons in H.
    destruct H as [-> | H]; [rewrite length_seq; lia|exact (IH _ H)].
Qed.

(** The rows [buildGrid_] leaves in the container, for the cached shape
    [w] by [h] and [n] cells. *)
Lemma buildGrid_run (st : CameraGrid) :
  exists st',
    returns buildGrid_ st tt st' [BuildGrid (gridWidthCells_ st) (gridHeightCells_ st)]
    /\ rows (container_ st')
       = fillRows (loopBound (gridHeightCells_ st)) (loopBound (gridWidthCells_ st))
           0 (length (cells_ st))
    /\ cells_ st' = cells_ st
    /\ offsetWidth (container_ st') = offsetWidth (container_ st)
    /\ offsetHeight (container_ st') = offsetHeight (container_ st).
Proof. eexists. split; [reflexivity|]. now repeat split. Qed.

(** X1.  When the cached grid shape has at least as many cells as there are
    tiles, [buildGrid_] returns and leaves one row per grid row, none longer
    than the grid is wide, that hold every tile exactly once, in order, from
    the top left; it touches no cell. *)
Theorem buildGrid_places_every_tile (st : CameraGrid) (w h : Z) :
  gridWidthCells_ st = Some w -> gridHeightCells_ st = Some h ->
  0 <= w -> 0 <= h -> cellCount st <= w * h ->
  exists st',
    returns buildGrid_ st tt st' [BuildGrid (Some w) (Some h)]
    /\ concat (rows (container_ st')) = seq 0 (length (cells_ st))
    /\ length (rows (container_ st')) = Z.to_nat h
    /\ (forall row, row ∈ rows (container_ st') -> (length row <= Z.to_nat w)%nat)
    /\ cells_ st' = cells_ st.
Proof.
  intros Hw Hh Hw0 Hh0 Hfit.
  destruct (buildGrid_run st) as (st' & Hrun & Hrows & Hcells & _).
  rewrite Hw, Hh in Hrun, Hrows. unfold loopBound in Hrows. simpl in Hrows.
  exists st'. split; [exact Hrun|]. rewrite Hrows.
  split; [|split; [apply fillRows_length|split; [|exact Hcells]]].
  - rewrite fillRows_concat. f_equal. unfold cellCount in Hfit. nia.
  - intros row. apply fillRows_row_length.
Qed.

Lemma buildGrid_places_every_tile_witness :
  (gridWidthCells_ fourFeeds = Some 2 /\ gridHeightCells_ fourFeeds = Some 2
   /\ 0 <= 2 /\ 0 <= 2 /\ cellCount fourFeeds <= 2 * 2)
  /\ exists st',
      returns buildGrid_ fourFeeds tt st' [BuildGrid (Some 2) (Some 2)]
      /\ concat (rows (container_ st')) = seq 0 (length (cells_ fourFeeds))
      /\ length (rows (container_ st')) = Z.to_nat 2
      /\ (forall row, row ∈ rows (container_ st') -> (length row <= Z.to_nat 2)%nat)
      /\ cells_ st' = cells_ fourFeeds.
Proof.
  assert (Hw : gridWidthCells_ fourFeeds = Some 2) by (vm_compute; reflexivity).
  assert (Hh : gridHeightCells_ fourFeeds = Some 2) by (vm_compute; reflexivity).
  assert (Hfit : cellCount fourFeeds <= 2 * 2) by (vm_compute; discriminate).
  split; [repeat split; solve [assumption | lia]|].
  exact (buildGrid_places_every_tile fourFeeds 2 2 Hw Hh ltac:(lia) ltac:(lia) Hfit).
Defined.

(** ** The cells of the chosen grid *)



(** The option [calculateGrid_] returns, with what the loop recorded for
    it. *)
Lemma calculateGrid_chosen (this : CameraGrid) :
  solvable this ->
  exists o,
    1 <= fst o /\ 1 <= snd o
    /\ numTilesOf this <= fst o * snd o
    /\ (0 < scaleIn this o)%Q
    /\ gridWidthCells (calculateGrid_ this) = Some (fst o)
    /\ gridHeightCells (calculateGrid_ this) = Some (snd o)
    /\ constraint (calculateGrid_ this)
       = Some (optionConstraint (inject_Z (offsetWidth (container_ this)))
                 (inject_Z (offsetHeight (container_ this)))
                 (inject_Z (tileScaleWidth_ this)) (inject_Z (tileScaleHeight_ this)) o)
    /\ cellWidthPx (calculateGrid_ this)
       = (inject_Z (tileScaleWidth_ this) * scaleIn this o)%Q
    /\ cellHeightPx (calculateGrid_ this)
       = (inject_Z (tileScaleHeight_ this) * scaleIn this o)%Q.
Proof.
  intros Hs.
  destruct (calculateGrid_holdsOption this Hs)
    as (i & o & Hlook & Hseat & Hw & Hh & Hc & Hmax & _).
  assert (Hnn : nonnegOption o).
  { pose proof (gridOptionsIn_nonneg this) as Hall.
    rewrite Forall_lookup in Hall. exact (Hall i o Hlook). }
  destruct (seatsAll_positive (numTilesOf this) (proj2 (proj2 (proj2 (proj2 Hs)))) o Hnn Hseat).
  assert (Hpos : (0 < scaleIn this o)%Q).
  { destruct Hs as (HW & HH & HtW & HtH & Hn).
    apply optionScale_pos with (numTiles := numTilesOf this);
      try (now apply (inject_Z_lt 0)); assumption. }
  exists o. unfold calculateGrid_.
  cbn [gridWidthCells gridHeightCells constraint cellWidthPx cellHeightPx].
  repeat split; try assumption; exact (f_equal (Qmult _) Hmax).
Qed.







(** ** More on the resolution catalog *)

Lemma reaches_weaken (tileWidth tileHeight tileWidth' tileHeight' : Q) (e : Z * Z) :
  (tileWidth <= tileWidth')%Q -> (tileHeight <= tileHeight')%Q ->
  reaches tileWidth' tileHeight' e -> reaches tileWidth tileHeight e.
Proof.
  intros Hw Hh [H|H]; [left|right]; eapply Qle_trans; eauto.
Qed.

(** X4.  On an ascending catalog a larger target never gets a smaller
    resolution: if the target grows in width and in height, the entry
    [findMinimumResolution_] returns is at least as wide and as high as
    before. *)
Theorem findMinimumResolution_monotone (resolutions : list (Z * Z))
    (tileWidth tileHeight tileWidth' tileHeight' : Q) (r r' : Resolution) :
  ascending resolutions ->
  (tileWidth <= tileWidth')%Q -> (tileHeight <= tileHeight')%Q ->
  findMinimumResolution_ resolutions tileWidth tileHeight = Some r ->
  findMinimumResolution_ resolutions tileWidth' tileHeight' = Some r' ->
  imgWidthPx r <= imgWidthPx r' /\ imgHeightPx r <= imgHeightPx r'.
Proof.
  intros Hasc Hw Hh. rewrite !findMinimumResolution_as_loop2.
  destruct (findMinimumResolution_loop2 resolutions tileWidth tileHeight) as [r0|] eqn:E;
    destruct (findMinimumResolution_loop2 resolutions tileWidth' tileHeight') as [r0'|] eqn:E'.
  - intros [= <-] [= <-].
    apply findMinimumResolution_loop2_Some in E, E'.
    destruct E as (i & e & (Hi & _ & Hfirst) & ->).
    destruct E' as (i' & e' & (Hi' & Hr' & _) & ->).
    assert (Hle : (i <= i')%nat).
    { apply Nat.nlt_ge. intros Hlt.
      exact (Hfirst i' e' Hlt Hi' (reaches_weaken _ _ _ _ _ Hw Hh Hr')). }
    destruct (decide (i = i')) as [->|Hne].
    + rewrite Hi in Hi'. injection Hi' as <-. simpl. lia.
    + destruct (ascending_lookup resolutions i i' e e'); [assumption|lia|assumption..|].
      simpl. lia.
  - intros [= <-]. destruct (last resolutions) as [lastResolution|] eqn:Hlast;
      [|discriminate].
    intros [= <-]. apply findMinimumResolution_loop2_Some in E.
    destruct E as (i & e & (Hi & _) & ->).
    apply (ascending_last_largest resolutions lastResolution Hasc Hlast).
    eapply list_elem_of_lookup_2. exact Hi.
  - intros _ _. exfalso.
    apply findMinimumResolution_loop2_None in E.
    apply findMinimumResolution_loop2_Some in E'.
    destruct E' as (i' & e' & (Hi' & Hr' & _) & _).
    rewrite Forall_lookup in E.
    exact (E i' e' Hi' (reaches_weaken _ _ _ _ _ Hw Hh Hr')).
  - intros H H'. rewrite H in H'. injection H' as <-. lia.
Qed.

Lemma findMinimumResolution_monotone_witness :
  (ascending defaultResolutions_ /\ (300 <= 700)%Q /\ (200 <= 500)%Q
   /\ findMinimumResolution_ defaultResolutions_ 300 200
      = Some {| imgWidthPx := 320; imgHeightPx := 240 |}
   /\ findMinimumResolution_ defaultResolutions_ 700 500
      = Some {| imgWidthPx := 800; imgHeightPx := 600 |})
  /\ 320 <= 800 /\ 240 <= 600.
Proof.
  assert (Hasc : ascending defaultResolutions_) by (simpl; repeat split; reflexivity).
  assert (Hw : (300 <= 700)%Q) by discriminate.
  assert (Hh : (200 <= 500)%Q) by discriminate.
  assert (H1 : findMinimumResolution_ defaultResolutions_ 300 200
               = Some {| imgWidthPx := 320; imgHeightPx := 240 |}) by reflexivity.
  assert (H2 : findMinimumResolution_ defaultResolutions_ 700 500
               = Some {| imgWidthPx := 800; imgHeightPx := 600 |}) by reflexivity.
  split; [exact (conj Hasc (conj Hw (conj Hh (conj H1 H2))))|].
  exact (findMinimumResolution_monotone defaultResolutions_ 300 200 700 500 _ _
           Hasc Hw Hh H1 H2).
Defined.









(** ** What a recompute pass leaves behind *)

(** The fields after a pass: each cached value is the recomputed one if its
    test fired and the old one otherwise; the rows are rebuilt if the shape
    test fired; nothing else changes but the contents of the cells. *)
Lemma rebuildIfNeeded_fields (rev : Revision) (st : CameraGrid) :
  resolutions_ st <> [] -> validSelection st ->
  exists st' t r cr,
    returns (rebuildIfNeeded_ rev) st tt st' t
    /\ newResolution st = Some r
    /\ newContainerResolution st = Some cr
    /\ constraint_ st'
       = (if constraintTest st then constraint (calculateGrid_ st) else constraint_ st)
    /\ containerConstraint_ st'
       = (if containerConstraintTest st
          then Some (containerConstraint (calculateGrid_ st)) else containerConstraint_ st)
    /\ (imgWidthPx_ st', imgHeightPx_ st')
       = (if resolutionTest st then (Some (imgWidthPx r), Some (imgHeightPx r))
          else (imgWidthPx_ st, imgHeightPx_ st))
    /\ (containerImgWidthPx_ st', containerImgHeightPx_ st')
       = (if containerResolutionTest st then (Some (imgWidthPx cr), Some (imgHeightPx cr))
          else (containerImgWidthPx_ st, containerImgHeightPx_ st))
    /\ (gridWidthCells_ st', gridHeightCells_ st')
       = (if shapeTest st
          then (gridWidthCells (calculateGrid_ st), gridHeightCells (calculateGrid_ st))
          else (gridWidthCells_ st, gridHeightCells_ st))
    /\ rows (container_ st')
       = (if shapeTest st
          then fillRows (loopBound (gridHeightCells (calculateGrid_ st)))
                 (loopBound (gridWidthCells (calculateGrid_ st))) 0 (length (cells_ st))
          else rows (container_ st))
    /\ (rowHeightRule_ (stylesheet_ st'), cellWidthRule_ (stylesheet_ st'))
       = (if shapeTest st
          then (percentOf (gridHeightCells (calculateGrid_ st)),
                percentOf (gridWidthCells (calculateGrid_ st)))
          else (rowHeightRule_ (stylesheet_ st), cellWidthRule_ (stylesheet_ st)))
    /\ imageScaleRule_ (stylesheet_ st')
       = (if constraintTest st
          then Some (upscaleStyleOf (constraint (calculateGrid_ st)))
          else imageScaleRule_ (stylesheet_ st))
    /\ containerImageScaleRule_ (stylesheet_ st')
       = (if containerConstraintTest st
          then Some (upscaleStyleOf (Some (containerConstraint (calculateGrid_ st))))
          else containerImageScaleRule_ (stylesheet_ st))
    /\ (offsetWidth (container_ st'), offsetHeight (container_ st'),
        containerClasses (container_ st'))
       = (offsetWidth (container_ st), offsetHeight (container_ st),
          containerClasses (container_ st))
    /\ (sourceUrls_ st', resolutions_ st', tileScaleWidth_ st', tileScaleHeight_ st')
       = (sourceUrls_ st, resolutions_ st, tileScaleWidth_ st, tileScaleHeight_ st)
    /\ getUrl_ st' = getUrl_ st
    /\ (selected_ st', scanning_ st') = (selected_ st, scanning_ st)
    /\ length (cells_ st') = length (cells_ st).
Proof.
  intros Hne [Hsel Hlen].
  destruct (callFindMinimumResolution_run rev (cellWidthPx (calculateGrid_ st))
              (cellHeightPx (calculateGrid_ st)) st Hne)
    as (r & logs1 & Hrun1 & Hr & Hlogs1 & Hrev1).
  destruct (callFindMinimumResolution_run rev (inject_Z (offsetWidth (container_ st)))
              (inject_Z (offsetHeight (container_ st))) st Hne)
    as (cr & logs2 & Hrun2 & Hcr & Hlogs2 & Hrev2).
  unfold constraintTest, containerConstraintTest, resolutionTest,
    containerResolutionTest, shapeTest, newResolution, newContainerResolution.
  rewrite Hr, Hcr. cbn [fmap option_fmap option_map].
  unfold returns, rebuildIfNeeded_. cbv zeta.
  rewrite run_bind. cbn [get]. cbv iota beta.
  rewrite run_bind, Hrun1. cbv iota beta.
  rewrite run_bind, Hrun2. cbv iota beta.
  assert (Hsel' : forall s, selected_ st = Some s ->
                    0 <= s < Z.of_nat (length (cells_ st))) by exact Hsel.
  destruct (selected_ st) as [s|] eqn:Es; [specialize (Hsel' s eq_refl)|clear Hsel'];
    destruct (constraint_neq (constraint (calculateGrid_ st)) (constraint_ st)) eqn:E1;
    destruct (constraint_neq (Some (containerConstraint (calculateGrid_ st)))
                (containerConstraint_ st)) eqn:E2;
    destruct (num_neq (Some (imgWidthPx r)) (imgWidthPx_ st)
              || num_neq (Some (imgHeightPx r)) (imgHeightPx_ st)) eqn:E3;
    destruct (num_neq (Some (imgWidthPx cr)) (containerImgWidthPx_ st)
              || num_neq (Some (imgHeightPx cr)) (containerImgHeightPx_ st)) eqn:E4;
    destruct (num_neq (gridWidthCells (calculateGrid_ st)) (gridWidthCells_ st)
              || num_neq (gridHeightCells (calculateGrid_ st)) (gridHeightCells_ st)) eqn:E5;
    run_rebuild;
    eexists _, _, r, cr;
    (split; [reflexivity|]);
    repeat (split; [first [reflexivity | simpl; congruence]|]);
    simpl; lia.
Qed.


Lemma constraint_neq_false (a b : option Constraint) :
  constraint_neq a b = false <-> a = b.
Proof.
  unfold constraint_neq. destruct a as [[]|], b as [[]|]; simpl; split; congruence.
Qed.

Lemma num_neq_false (a b : option Z) : num_neq a b = false <-> a = b.
Proof.
  rewrite <- Bool.not_true_iff_false, num_neq_spec.
  destruct (decide (a = b)); tauto.
Qed.

Lemma num_neq_pair_false (a b c d : option Z) :
  num_neq a b || num_neq c d = false <-> a = b /\ c = d.
Proof. now rewrite orb_false_iff, !num_neq_false. Qed.

(** [calculateGrid_] reads the size of the container, the number of source
    URLs and the tile shape, and nothing else. *)
Lemma calculateGrid_reads (st st' : CameraGrid) :
  offsetWidth (container_ st') = offsetWidth (container_ st) ->
  offsetHeight (container_ st') = offsetHeight (container_ st) ->
  length (sourceUrls_ st') = length (sourceUrls_ st) ->
  tileScaleWidth_ st' = tileScaleWidth_ st ->
  tileScaleHeight_ st' = tileScaleHeight_ st ->
  calculateGrid_ st' = calculateGrid_ st.
Proof.
  intros HW HH Hn HtW HtH. unfold calculateGrid_. now rewrite HW, HH, Hn, HtW, HtH.
Qed.

(** Every cached value equals the recomputed one. *)
Definition cacheCurrent (st : CameraGrid) : Prop :=
  ~ constraintChanged st /\ ~ containerConstraintChanged st
  /\ ~ resolutionChanged st /\ ~ containerResolutionChanged st
  /\ ~ shapeChanged st.

(** After a pass that returned, the cache holds what the pass computed, the
    rows are the old ones or rebuilt for the new shape, and the
    configuration, the size of the container, the selection and the scanning
    flag are as before. *)
Lemma rebuildIfNeeded_result (rev : Revision) (st : CameraGrid) :
  resolutions_ st <> [] -> validSelection st ->
  exists st' t,
    returns (rebuildIfNeeded_ rev) st tt st' t
    /\ calculateGrid_ st' = calculateGrid_ st
    /\ newResolution st' = newResolution st
    /\ newContainerResolution st' = newContainerResolution st
    /\ cacheCurrent st'
    /\ rows (container_ st')
       = (if shapeTest st
          then fillRows (loopBound (gridHeightCells_ st')) (loopBound (gridWidthCells_ st'))
                 0 (length (cells_ st'))
          else rows (container_ st))
    /\ (rowHeightRule_ (stylesheet_ st'), cellWidthRule_ (stylesheet_ st'))
       = (if shapeTest st
          then (percentOf (gridHeightCells_ st'), percentOf (gridWidthCells_ st'))
          else (rowHeightRule_ (stylesheet_ st), cellWidthRule_ (stylesheet_ st)))
    /\ (shapeTest st = false ->
        gridWidthCells_ st' = gridWidthCells_ st
        /\ gridHeightCells_ st' = gridHeightCells_ st)
    /\ imageScaleRule_ (stylesheet_ st')
       = (if constraintTest st then Some (upscaleStyleOf (constraint_ st'))
          else imageScaleRule_ (stylesheet_ st))
    /\ (constraintTest st = false -> constraint_ st' = constraint_ st)
    /\ containerImageScaleRule_ (stylesheet_ st')
       = (if containerConstraintTest st
          then Some (upscaleStyleOf (containerConstraint_ st'))
          else containerImageScaleRule_ (stylesheet_ st))
    /\ (containerConstraintTest st = false ->
        containerConstraint_ st' = containerConstraint_ st)
    /\ (offsetWidth (container_ st'), offsetHeight (container_ st'),
        containerClasses (container_ st'))
       = (offsetWidth (container_ st), offsetHeight (container_ st),
          containerClasses (container_ st))
    /\ (sourceUrls_ st', resolutions_ st', tileScaleWidth_ st', tileScaleHeight_ st')
       = (sourceUrls_ st, resolutions_ st, tileScaleWidth_ st, tileScaleHeight_ st)
    /\ getUrl_ st' = getUrl_ st
    /\ (selected_ st', scanning_ st') = (selected_ st, scanning_ st)
    /\ length (cells_ st') = length (cells_ st).
Proof.
  intros Hne Hvalid.
  destruct (rebuildIfNeeded_fields rev st Hne Hvalid)
    as (st' & t & r & cr & Hrun & Hr & Hcr & Hc & Hcc & Hres & Hcres & Hshape & Hrows
        & Hrules & Hrule & Hcrule & Hsize & Hconf & Hurl & Hview & Hlen).
  injection Hsize as HW HH Hclasses. injection Hconf as Hurls Hcat HtW HtH.
  assert (Hgrid : calculateGrid_ st' = calculateGrid_ st)
    by (apply calculateGrid_reads; congruence).
  assert (Hnew : newResolution st' = newResolution st)
    by (unfold newResolution; now rewrite Hgrid, Hcat).
  assert (Hcnew : newContainerResolution st' = newContainerResolution st)
    by (unfold newContainerResolution; now rewrite HW, HH, Hcat).
  exists st', t. split; [exact Hrun|]. split; [exact Hgrid|].
  split; [exact Hnew|]. split; [exact Hcnew|].
  assert (Hc' : constraint_ st' = constraint (calculateGrid_ st)).
  { rewrite Hc. destruct (constraintTest st) eqn:E; [reflexivity|].
    symmetry. now apply constraint_neq_false. }
  assert (Hcc' : containerConstraint_ st' = Some (containerConstraint (calculateGrid_ st))).
  { rewrite Hcc. destruct (containerConstraintTest st) eqn:E; [reflexivity|].
    symmetry. now apply constraint_neq_false. }
  assert (Hres' : (imgWidthPx <$> newResolution st, imgHeightPx <$> newResolution st)
                  = (imgWidthPx_ st', imgHeightPx_ st')).
  { rewrite Hres, Hr. destruct (resolutionTest st) eqn:E; [reflexivity|].
    unfold resolutionTest in E. rewrite Hr in E. apply num_neq_pair_false in E.
    destruct E as [E1 E2]. simpl in E1, E2. simpl. congruence. }
  assert (Hcres' : (imgWidthPx <$> newContainerResolution st,
                    imgHeightPx <$> newContainerResolution st)
                   = (containerImgWidthPx_ st', containerImgHeightPx_ st')).
  { rewrite Hcres, Hcr. destruct (containerResolutionTest st) eqn:E; [reflexivity|].
    unfold containerResolutionTest in E. rewrite Hcr in E.
    apply num_neq_pair_false in E. destruct E as [E1 E2]. simpl in E1, E2. simpl.
    congruence. }
  assert (Hshape' : (gridWidthCells (calculateGrid_ st), gridHeightCells (calculateGrid_ st))
                    = (gridWidthCells_ st', gridHeightCells_ st')).
  { rewrite Hshape. destruct (shapeTest st) eqn:E; [reflexivity|].
    apply num_neq_pair_false in E. destruct E as [E1 E2]. congruence. }
  split.
  { unfold cacheCurrent, constraintChanged, containerConstraintChanged,
      resolutionChanged, containerResolutionChanged, shapeChanged.
    rewrite Hgrid, Hnew, Hcnew.
    repeat split; intros H; apply H; congruence. }
  split.
  { rewrite Hrows. destruct (shapeTest st); [|reflexivity].
    injection Hshape' as <- <-. now rewrite Hlen. }
  split.
  { rewrite Hrules. destruct (shapeTest st); [|reflexivity].
    now injection Hshape' as <- <-. }
  split.
  { intros E. rewrite E in Hshape. now injection Hshape. }
  split.
  { rewrite Hrule, Hc'. reflexivity. }
  split.
  { intros E. now rewrite E in Hc. }
  split.
  { rewrite Hcrule, Hcc'. reflexivity. }
  split.
  { intros E. now rewrite E in Hcc. }
  split; [congruence|]. split; [congruence|]. split; [exact Hurl|].
  split; [exact Hview|exact Hlen].
Qed.



Lemma rebuildIfNeeded_validSelection (st st' : CameraGrid) :
  validSelection st ->
  (sourceUrls_ st', resolutions_ st', tileScaleWidth_ st', tileScaleHeight_ st')
  = (sourceUrls_ st, resolutions_ st, tileScaleWidth_ st, tileScaleHeight_ st) ->
  (selected_ st', scanning_ st') = (selected_ st, scanning_ st) ->
  length (cells_ st') = length (cells_ st) ->
  validSelection st'.
Proof.
  intros [Hsel Hurls] Hconf Hview Hlen. injection Hconf as E1 _ _ _.
  injection Hview as E2 _. unfold validSelection. now rewrite Hlen, E1, E2.
Qed.



(** ** What the input handlers leave alone *)

Section SelectionFrame.
Variable I : CameraGrid -> Prop.
Hypothesis I_withCell : forall index f, keeps I (withCell index f).
Hypothesis I_selected : forall v st, I st -> I (set_selected_ v st).
Hypothesis I_scanning : forall v st, I st -> I (set_scanning_ v st).

Lemma setSelected_keeps_frame (index : Z) : keeps I (setSelected_ index).
Proof using I_withCell I_selected.
  assert (Himg : forall i, keeps I (buildImage_ i)).
  { intros i. apply buildImage_keeps. apply I_withCell. }
  assert (Hsel : forall v, keeps I (modify (set_selected_ v))).
  { intros v. apply keeps_modify. apply I_selected. }
  unfold setSelected_.
  apply keeps_bind; [apply keeps_get|]. intros this.
  apply keeps_bind.
  - destruct (isSelected this index).
    + apply keeps_bind;
        [destruct (selected_ this); [apply I_withCell|apply keeps_ret]|].
      intros _. apply keeps_bind; [apply Hsel|]. intros _. apply keeps_ret.
    + apply keeps_bind;
        [destruct (selected_ this); [apply I_withCell|apply keeps_ret]|].
      intros _. apply keeps_bind; [apply I_withCell|]. intros _.
      apply keeps_bind; [apply Hsel|]. intros _. apply keeps_ret.
  - intros old_index. apply keeps_bind; [apply keeps_get|]. intros this0.
    destruct (_ || _); [|apply keeps_ret].
    apply keeps_bind; [destruct old_index; [apply Himg|apply keeps_ret]|].
    intros _. apply keeps_bind; [apply keeps_get|]. intros this1.
    destruct (selected_ this1); [apply Himg|apply keeps_ret].
Qed.

(** The handlers of the keyboard, of a click and of the scan timer. *)
Lemma input_keeps (rev : Revision) (e : Event) :
  (forall width height, e <> Resize width height) -> keeps I (dispatch rev e).
Proof using All.
  intros Hinput.
  destruct e as [charCode|keyCode|index|width height|]; cbn [dispatch].
  - apply onKeyPress_keeps; auto using setSelected_keeps_frame.
  - apply onKeyDown_keeps; auto using setSelected_keeps_frame.
  - apply keeps_bind; [apply keeps_get|]. intros this.
    destruct (cells_ this !! index); [|apply keeps_ret].
    destruct (bool_decide _); [apply keeps_ret|apply setSelected_keeps_frame].
  - now destruct (Hinput width height).
  - apply onScanTimer_keeps. apply setSelected_keeps_frame.
Qed.
End SelectionFrame.

(** [st] differs from [st0] in its selection, its scanning flag and the
    contents of its cells only. *)
Definition onlyView (st0 st : CameraGrid) : Prop :=
  exists selected scanning cells,
    st = set_selected_ selected (set_scanning_ scanning (set_cells_ cells st0))
    /\ length cells = length (cells_ st0).

Lemma onlyView_refl (st : CameraGrid) : onlyView st st.
Proof. exists (selected_ st), (scanning_ st), (cells_ st). now destruct st. Qed.

Lemma withCell_onlyView (st0 : CameraGrid) (index : Z) (f : Cell -> Cell) :
  keeps (onlyView st0) (withCell index f).
Proof.
  intros st (sel & scan & cells & -> & Hlen).
  match goal with |- onlyView _ (stateOf (withCell _ _ ?s)) => set (st1 := s) end.
  destruct (lookupZ (cells_ st1) index) as [cell|] eqn:E.
  - rewrite (withCell_returns _ f _ _ E). unfold stateOf. simpl.
    exists sel, scan, (<[Z.to_nat index := f cell]> cells).
    split; [reflexivity|]. now rewrite length_insert.
  - rewrite (withCell_throws _ f _ E). now exists sel, scan, cells.
Qed.

Lemma input_onlyView (rev : Revision) (e : Event) (st : CameraGrid) :
  (forall width height, e <> Resize width height) ->
  onlyView st (stateOf (dispatch rev e st)).
Proof.
  intros Hinput. apply (input_keeps (onlyView st)); try assumption.
  - apply withCell_onlyView.
  - intros v s (sel & scan & cells & -> & Hlen). now exists v, scan, cells.
  - intros v s (sel & scan & cells & -> & Hlen). now exists sel, v, cells.
  - apply onlyView_refl.
Qed.

(** X7.  What the handlers never touch.  A key press, a key down, a click
    and a tick of the scan timer change nothing but the selection, the
    scanning flag and the contents of the cells: the cached layout, the
    stylesheet, the container and the configuration stay as they are.  A
    resize with its recompute pass changes neither the selection nor the
    scanning flag, the source URLs or the catalog.  The number of cells
    stays in both cases, and both hold whether the handler returns or
    throws. *)
Theorem handlers_frame (rev : Revision) (e : Event) (st : CameraGrid) :
  match e with
  | Resize _ _ => sameView st (stateOf (dispatch rev e st))
  | _ => onlyView st (stateOf (dispatch rev e st))
  end.
Proof.
  destruct e as [charCode|keyCode|index|width height|];
    try (apply input_onlyView; discriminate).
  cbn [dispatch]. apply (keeps_bind (sameView st)); [|intros _|apply sameView_refl].
  - apply keeps_modify. intros s H. exact H.
  - apply rebuildIfNeeded_sameView.
Qed.

(** ** Reachable controllers show every tile *)

(** The rows of the container and the two size rules of the stylesheet are
    the ones [buildGrid_] makes for the cached shape, and the cached shape
    seats all cells. *)
Definition gridBuilt (st : CameraGrid) : Prop :=
  rows (container_ st)
  = fillRows (loopBound (gridHeightCells_ st)) (loopBound (gridWidthCells_ st))
      0 (length (cells_ st))
  /\ (rowHeightRule_ (stylesheet_ st), cellWidthRule_ (stylesheet_ st))
     = (percentOf (gridHeightCells_ st), percentOf (gridWidthCells_ st))
  /\ exists columns rows,
      gridWidthCells_ st = Some columns /\ gridHeightCells_ st = Some rows
      /\ 1 <= columns /\ 1 <= rows /\ cellCount st <= columns * rows.


(** Events as a browser delivers them: a character code is not negative and
    a resized container has a positive size. *)
Definition wellSized (e : Event) : Prop :=
  match e with
  | KeyPress charCode => 0 <= charCode
  | Resize width height => 0 < width /\ 0 < height
  | _ => True
  end.

(** The two upscale rules of the stylesheet are the ones [setUpscaleRule_]
    writes for the cached constraints. *)
Definition upscaled (st : CameraGrid) : Prop :=
  imageScaleRule_ (stylesheet_ st) = Some (upscaleStyleOf (constraint_ st))
  /\ containerImageScaleRule_ (stylesheet_ st)
     = Some (upscaleStyleOf (containerConstraint_ st)).

(** A controller in working order. *)
Definition operational (st : CameraGrid) : Prop :=
  ready st /\ solvable st /\ gridBuilt st /\ upscaled st /\ cacheCurrent st.

Lemma rebuildIfNeeded_operational (rev : Revision) (st : CameraGrid) :
  solvable st -> resolutions_ st <> [] -> validSelection st ->
  gridBuilt st \/ shapeTest st = true ->
  upscaled st \/ constraintTest st = true /\ containerConstraintTest st = true ->
  exists st' t,
    returns (rebuildIfNeeded_ rev) st tt st' t
    /\ operational st'
    /\ length (cells_ st') = length (cells_ st).
Proof.
  intros Hs Hne Hvalid Hbuilt Hup.
  destruct (rebuildIfNeeded_result rev st Hne Hvalid)
    as (st' & t & Hrun & Hgrid & _ & _ & Hcur & Hrows & Hrules & Hsame & Hrule & Hcsame
        & Hcrule & Hccsame & Hsize & Hconf & _ & Hview & Hlen).
  pose proof (rebuildIfNeeded_validSelection st st' Hvalid Hconf Hview Hlen) as Hvalid'.
  injection Hsize as HW HH _. injection Hconf as Hurls Hcat HtW HtH.
  assert (Hs' : solvable st').
  { unfold solvable. now rewrite HW, HH, HtW, HtH, Hurls. }
  assert (Hcount : 1 <= cellCount st').
  { unfold cellCount. rewrite (proj2 Hvalid'). apply Hs'. }
  exists st', t. split; [exact Hrun|]. split; [|exact Hlen].
  split; [split; [exact Hvalid'|split; [congruence|exact Hcount]]|].
  split; [exact Hs'|].
  split; [|split; [|exact Hcur]].
  2: { destruct Hup as [[Hi Hci]|[T1 T2]].
       - split.
         + rewrite Hrule. destruct (constraintTest st); [reflexivity|].
           now rewrite (Hcsame eq_refl).
         + rewrite Hcrule. destruct (containerConstraintTest st); [reflexivity|].
           now rewrite (Hccsame eq_refl).
       - split; [now rewrite Hrule, T1|now rewrite Hcrule, T2]. }
  destruct (shapeTest st) eqn:Etest.
  - split; [exact Hrows|]. split; [exact Hrules|].
    destruct (calculateGrid_chosen st Hs) as (o & Hc & Hr & Hseat & _ & Hw & Hh & _).
    destruct Hcur as (_ & _ & _ & _ & Hshape).
    assert (Hcached : (gridWidthCells_ st', gridHeightCells_ st')
                      = (Some (fst o), Some (snd o))).
    { rewrite <- Hw, <- Hh, <- Hgrid.
      destruct (decide
        ((gridWidthCells (calculateGrid_ st'), gridHeightCells (calculateGrid_ st'))
         = (gridWidthCells_ st', gridHeightCells_ st'))) as [E|E]; [now symmetry|].
      contradiction. }
    injection Hcached as Ew Eh. exists (fst o), (snd o).
    repeat split; try assumption.
    unfold cellCount. rewrite (proj2 Hvalid'), Hurls. exact Hseat.
  - destruct Hbuilt as [(Hold & Holdrules & columns & rows & Hw & Hh & Hc & Hr & Hseat)|];
      [|discriminate].
    destruct (Hsame eq_refl) as [Ew Eh]. split; [|split].
    + now rewrite Hrows, Ew, Eh, Hlen.
    + now rewrite Hrules, Ew, Eh.
    + exists columns, rows. unfold cellCount. rewrite Ew, Eh, Hlen.
      now repeat split.
Qed.

Lemma onlyView_operational (st st' : CameraGrid) :
  onlyView st st' -> ready st' -> operational st -> operational st'.
Proof.
  intros (sel & scan & cells & -> & Hlen) Hready
    (_ & Hs & (Hrows & Hrules & Hshape) & Hup & Hcur).
  split; [exact Hready|]. split; [exact Hs|].
  split; [|split; [exact Hup|exact Hcur]]. split; [|split; [exact Hrules|]].
  - simpl. now rewrite Hlen.
  - unfold cellCount. simpl. now rewrite Hlen.
Qed.

Lemma dispatch_operational (rev : Revision) (e : Event) (st : CameraGrid) :
  operational st -> wellSized e ->
  operational (stateOf (dispatch rev e st))
  /\ length (cells_ (stateOf (dispatch rev e st))) = length (cells_ st).
Proof.
  intros Hop Hwf. pose proof Hop as (Hready & Hs & Hbuilt & Hup & _).
  assert (Hlen : length (cells_ (stateOf (dispatch rev e st))) = length (cells_ st)).
  { apply (dispatch_sameConfig st rev e st). now split. }
  split; [|exact Hlen].
  assert (Hcases : (exists width height, e = Resize width height)
                   \/ forall width height, e <> Resize width height).
  { destruct e; try (right; discriminate). left. eauto. }
  destruct Hcases as [(width & height & ->)|Hinput].
  - destruct Hwf as [Hw Hh]. destruct Hready as (Hvalid & Hne & _).
    cbn [dispatch]. rewrite run_bind. cbn.
    set (st1 := set_container_
                  (mkContainer width height (containerClasses (container_ st))
                     (rows (container_ st))) st).
    destruct (rebuildIfNeeded_operational rev st1) as (st' & t & Hrun & Hop' & _).
    + destruct Hs as (_ & _ & HtW & HtH & Hn). now repeat split.
    + exact Hne.
    + exact Hvalid.
    + left. exact Hbuilt.
    + left. exact Hup.
    + now rewrite Hrun.
  - apply (onlyView_operational st); [|now apply dispatch_ready|exact Hop].
    apply input_onlyView. exact Hinput.
Qed.


(** A constructor call a page makes: at least one source URL, a container of
    positive size and a catalog of positive sizes. *)
Definition wellConfigured (container : Container) (sourceUrls : list string)
    (resolutions : option (list (Z * Z))) : Prop :=
  sourceUrls <> [] /\ 0 < offsetWidth container /\ 0 < offsetHeight container
  /\ positiveEntries (default defaultResolutions_ resolutions).

Lemma CameraGrid_new_operational (rev : Revision) (container : Container)
    (sourceUrls : list string) (resolutions : option (list (Z * Z)))
    (getUrl : option (option string -> option Z -> option Z -> string))
    (r : Completion unit * CameraGrid * list Effect) :
  CameraGrid_new rev container sourceUrls resolutions getUrl = Some r ->
  wellConfigured container sourceUrls resolutions ->
  completionOf r = Normal tt /\ operational (stateOf r)
  /\ length (cells_ (stateOf r)) = length sourceUrls.
Proof.
  unfold CameraGrid_new, wellConfigured. cbv zeta.
  destruct (default defaultResolutions_ resolutions) as [|first rest] eqn:Hres;
    [discriminate|].
  intros [= <-] (Hurls & HW & HH & Hpos).
  inversion Hpos as [|? ? [Hfw Hfh] _]; subst.
  set (st0 := initialFields rev container sourceUrls (first :: rest)
                (default defaultGetUrl_ getUrl) first).
  set (st1 := set_cells_ ((fun _ => mkCell [] []) <$> sourceUrls) st0).
  set (st2 := stateOf (buildStylesheet_ st1)).
  assert (Hvalid2 : validSelection st2).
  { split; [intros i Hi; discriminate Hi|]. simpl. now rewrite length_fmap. }
  assert (Hs2 : solvable st2).
  { repeat split; try assumption. simpl. destruct sourceUrls; [contradiction|simpl; lia]. }
  assert (Htest : shapeTest st2 = true).
  { destruct (calculateGrid_chosen st2 Hs2) as (o & Hc & _ & _ & _ & Hw & _).
    unfold shapeTest. rewrite Hw. apply orb_true_iff. left.
    apply num_neq_spec. simpl. intros [= E]. lia. }
  assert (Htests : constraintTest st2 = true /\ containerConstraintTest st2 = true).
  { destruct (calculateGrid_chosen st2 Hs2) as (o & _ & _ & _ & _ & _ & _ & Hc & _).
    unfold constraintTest, containerConstraintTest. rewrite Hc. now split. }
  destruct (rebuildIfNeeded_operational rev st2 Hs2) as (st' & t & Hrun & Hop & Hlen);
    [discriminate|exact Hvalid2|now right|now right|].
  assert (Hconstruct : construct rev st0 = (Normal tt, st', t)).
  { unfold construct. rewrite (run_bind buildCells_).
    change (buildCells_ st0) with (Normal tt, st1, @nil Effect). cbv iota beta.
    rewrite (run_bind buildStylesheet_).
    change (buildStylesheet_ st1) with (Normal tt, st2, @nil Effect). cbv iota beta.
    now rewrite Hrun. }
  rewrite Hconstruct. split; [reflexivity|]. split; [exact Hop|].
  unfold stateOf. simpl. rewrite Hlen. simpl. apply length_fmap.
Qed.










(** ** The selection and the scanning flag as a state machine *)


(** The selection and the scanning flag. *)
Definition viewOf (st : CameraGrid) : option Z * bool :=
  (selected_ st, scanning_ st).






Lemma onlySelection_scanning (st st' : CameraGrid) :
  onlySelection st st' -> scanning_ st' = scanning_ st.
Proof. intros [Heq _]. now rewrite Heq. Qed.









(** ** The scan cycle *)

Lemma onScanTimer_step (st : CameraGrid) (i : Z) :
  validSelection st -> scanning_ st = true -> selected_ st = Some i ->
  2 <= cellCount st ->
  let st' := stateOf (onScanTimer_ st) in
  validSelection st' /\ scanning_ st' = true
  /\ selected_ st' = Some ((i + 1) mod cellCount st)
  /\ cellCount st' = cellCount st.
Proof.
  intros Hvalid Hscan Hsel Hn. cbv zeta.
  destruct (scanRight_returns st i Hvalid Hsel) as (st' & t & Hrun & Hnew & Honly).
  assert (Hrun' : onScanTimer_ st = (Normal tt, st', t)).
  { unfold onScanTimer_. rewrite run_bind. cbn. rewrite Hscan, Hsel. cbn.
    now rewrite Hrun. }
  rewrite Hrun'. unfold stateOf. simpl.
  destruct (Z.eqb_spec (cellCount st) 1) as [E|_]; [lia|].
  split; [|split; [|split]].
  - apply (onlySelection_validSelection st); [assumption..|].
    intros j Hj. rewrite Hnew in Hj. injection Hj as <-.
    apply Z.mod_pos_bound. unfold cellCount in Hn. lia.
  - now rewrite (onlySelection_scanning _ _ Honly).
  - exact Hnew.
  - apply (onlySelection_cellCount _ _ Honly).
Qed.

Lemma scan_ticks (rev : Revision) (k : nat) (st : CameraGrid) (i : Z) :
  validSelection st -> scanning_ st = true -> selected_ st = Some i ->
  2 <= cellCount st ->
  viewOf (stateAfter rev (repeat ScanTimer k) st)
  = (Some ((i + Z.of_nat k) mod cellCount st), true).
Proof.
  revert st i. induction k as [|k IH]; intros st i Hvalid Hscan Hsel Hn.
  - simpl. unfold viewOf. rewrite Hsel, Hscan, Z.add_0_r.
    rewrite Z.mod_small; [reflexivity|]. apply Hvalid, Hsel.
  - destruct (onScanTimer_step st i Hvalid Hscan Hsel Hn)
      as (Hvalid' & Hscan' & Hsel' & Hcount).
    cbn [repeat]. unfold stateAfter. cbn [fold_left dispatch].
    fold (stateOf (onScanTimer_ st)).
    fold (stateAfter rev (repeat ScanTimer k) (stateOf (onScanTimer_ st))).
    rewrite (IH _ _ Hvalid' Hscan' Hsel') by (rewrite Hcount; exact Hn).
    rewrite Hcount. f_equal. f_equal.
    rewrite Zplus_mod_idemp_l. f_equal. lia.
Qed.

(** X12.  Scanning cycles through the tiles.  With at least two tiles, a
    valid selection [i] and scanning on, [k] ticks of the scan timer select
    tile [(i + k) mod n] and leave scanning on; after [n] ticks the
    selection is [i] again. *)
Theorem scan_timer_cycles (rev : Revision) (st : CameraGrid) (i : Z) (k : nat) :
  validSelection st -> scanning_ st = true -> selected_ st = Some i ->
  2 <= cellCount st ->
  viewOf (stateAfter rev (repeat ScanTimer k) st)
  = (Some ((i + Z.of_nat k) mod cellCount st), true)
  /\ viewOf (stateAfter rev (repeat ScanTimer (length (cells_ st))) st) = (Some i, true).
Proof.
  intros Hvalid Hscan Hsel Hn. split; [now apply scan_ticks|].
  rewrite (scan_ticks rev _ st i Hvalid Hscan Hsel Hn). fold (cellCount st).
  f_equal. f_equal.
  rewrite <- Zplus_mod_idemp_r, Z.mod_same, Z.add_0_r by lia.
  apply Z.mod_small. apply Hvalid, Hsel.
Qed.

Lemma scan_timer_cycles_witness :
  (validSelection (stateAfter Rev1 [KeyPress 115] fourFeeds)
   /\ scanning_ (stateAfter Rev1 [KeyPress 115] fourFeeds) = true
   /\ selected_ (stateAfter Rev1 [KeyPress 115] fourFeeds) = Some 0
   /\ 2 <= cellCount (stateAfter Rev1 [KeyPress 115] fourFeeds))
  /\ viewOf (stateAfter Rev1 (repeat ScanTimer 3) (stateAfter Rev1 [KeyPress 115] fourFeeds))
     = (Some ((0 + Z.of_nat 3) mod cellCount (stateAfter Rev1 [KeyPress 115] fourFeeds)),
        true)
  /\ viewOf (stateAfter Rev1
               (repeat ScanTimer (length (cells_ (stateAfter Rev1 [KeyPress 115] fourFeeds))))
               (stateAfter Rev1 [KeyPress 115] fourFeeds))
     = (Some 0, true).
Proof.
  assert (Hvalid : validSelection (stateAfter Rev1 [KeyPress 115] fourFeeds)).
  { split; [|vm_compute; reflexivity].
    intros i Hi. vm_compute in Hi. injection Hi as <-.
    vm_compute. split; [discriminate|reflexivity]. }
  assert (Hscan : scanning_ (stateAfter Rev1 [KeyPress 115] fourFeeds) = true)
    by (vm_compute; reflexivity).
  assert (Hsel : selected_ (stateAfter Rev1 [KeyPress 115] fourFeeds) = Some 0)
    by (vm_compute; reflexivity).
  assert (Hn : 2 <= cellCount (stateAfter Rev1 [KeyPress 115] fourFeeds))
    by (vm_compute; discriminate).
  split; [exact (conj Hvalid (conj Hscan (conj Hsel Hn)))|].
  exact (scan_timer_cycles Rev1 _ 0 3 Hvalid Hscan Hsel Hn).
Defined.

(** ** Refreshing the images *)

(** The last image of the cell of tile [k] has the URL [buildImage_] would
    request for it. *)
Definition showsPolicy (st : CameraGrid) (k : Z) : Prop :=
  exists cell,
    lookupZ (cells_ st) k = Some cell
    /\ last (imgContainers cell) = Some (imgUrlOf st k).

Lemma imgUrlOf_set_cells (cells : list Cell) (st : CameraGrid) (k : Z) :
  imgUrlOf (set_cells_ cells st) k = imgUrlOf st k.
Proof. reflexivity. Qed.

(** One call of [buildImage_] on a tile that has a cell: the tile shows its
    URL afterwards, and every tile that showed its URL still does. *)
Lemma buildImage_refreshes (index : Z) (st : CameraGrid) :
  0 <= index < Z.of_nat (length (cells_ st)) ->
  exists cells' created,
    buildImage_ index st
    = (Normal tt, set_cells_ cells' st,
       [BuildImage (mkImageRequest index (imgUrlOf st index) created)])
    /\ length cells' = length (cells_ st)
    /\ showsPolicy (set_cells_ cells' st) index
    /\ (forall k, showsPolicy st k -> showsPolicy (set_cells_ cells' st) k)
    /\ (showsPolicy st index -> cells' = cells_ st /\ created = false).
Proof.
  intros Hi. destruct (lookupZ_in_range _ _ Hi) as [cell Hcell].
  rewrite (buildImage_run _ _ _ Hcell).
  destruct (decide _) as [Hlast|Hlast].
  - exists (cells_ st), false.
    assert (Hsame : set_cells_ (cells_ st) st = st) by now destruct st.
    rewrite Hsame. split; [reflexivity|]. split; [reflexivity|].
    split; [now exists cell|]. split; [tauto|]. now split.
  - exists (<[Z.to_nat index := cellAppendImg (imgUrlOf st index) cell]> (cells_ st)), true.
    split; [reflexivity|]. split; [apply length_insert|]. split; [|split].
    + exists (cellAppendImg (imgUrlOf st index) cell). split.
      * apply lookupZ_Some. split; [lia|]. simpl. apply list_lookup_insert_eq. lia.
      * simpl. apply last_snoc.
    + intros k (c & Hc & Hl). destruct (decide (k = index)) as [->|Hne].
      * rewrite Hcell in Hc. injection Hc as <-. contradiction.
      * exists c. split; [|exact Hl]. apply lookupZ_Some in Hc.
        destruct Hc as [Hk Hc]. apply lookupZ_Some. split; [exact Hk|]. simpl.
        rewrite list_lookup_insert_ne; [exact Hc|]. lia.
    + intros (c & Hc & Hl). rewrite Hcell in Hc. injection Hc as <-. contradiction.
Qed.

Lemma imageRequestsOf_cons (r : ImageRequest) (t : list Effect) :
  imageRequestsOf (BuildImage r :: t) = r :: imageRequestsOf t.
Proof. reflexivity. Qed.

Lemma forEach_buildImage_refreshes (l : list Z) (st : CameraGrid) :
  (forall i, i ∈ l -> 0 <= i < Z.of_nat (length (cells_ st))) ->
  exists cells' t,
    forEach l buildImage_ st = (Normal tt, set_cells_ cells' st, t)
    /\ length cells' = length (cells_ st)
    /\ (forall k, k ∈ l -> showsPolicy (set_cells_ cells' st) k)
    /\ (forall k, showsPolicy st k -> showsPolicy (set_cells_ cells' st) k)
    /\ reqIndex <$> imageRequestsOf t = l
    /\ Forall (fun req => reqUrl req = imgUrlOf st (reqIndex req)) (imageRequestsOf t)
    /\ ((forall k, k ∈ l -> showsPolicy st k) ->
        cells' = cells_ st
        /\ Forall (fun req => reqCreated req = false) (imageRequestsOf t)).
Proof.
  revert st. induction l as [|i l IH]; intros st Hl.
  - exists (cells_ st), [].
    assert (Hsame : set_cells_ (cells_ st) st = st) by now destruct st.
    rewrite Hsame. split; [reflexivity|]. split; [reflexivity|].
    split; [intros k Hk; now apply elem_of_nil in Hk|]. split; [tauto|].
    split; [reflexivity|]. split; [constructor|]. intros _. split; [reflexivity|constructor].
  - simpl. rewrite run_bind.
    destruct (buildImage_refreshes i st) as (c & b & E & L & Hi & Hkeep & Hidle);
      [apply Hl; left|]. rewrite E.
    destruct (IH (set_cells_ c st)) as (c' & t' & E' & L' & Hall & Hkeep' & Hidx & Hurl & Hidle').
    { intros j Hj. simpl. rewrite L. apply Hl. now right. }
    rewrite E'. exists c', (BuildImage (mkImageRequest i (imgUrlOf st i) b) :: t').
    split; [reflexivity|]. split; [simpl in L'; congruence|].
    split; [|split; [|split; [|split]]].
    + intros k Hk. apply elem_of_cons in Hk. destruct Hk as [->|Hk].
      * apply (Hkeep' i). exact Hi.
      * apply Hall. exact Hk.
    + intros k Hk. apply (Hkeep' k). now apply Hkeep.
    + rewrite imageRequestsOf_cons, fmap_cons. now rewrite Hidx.
    + rewrite imageRequestsOf_cons. constructor; [reflexivity|exact Hurl].
    + intros Hshown. destruct Hidle as [-> ->]; [apply Hshown; left|].
      assert (Hsame : set_cells_ (cells_ st) st = st) by now destruct st.
      rewrite Hsame in Hidle'. destruct Hidle' as [-> Hfalse].
      { intros k Hk. apply Hshown. now right. }
      split; [reflexivity|]. rewrite imageRequestsOf_cons. now constructor.
Qed.



(** ** What a handler ensures when it returns *)

(** If [m] is run in a state with [P] and returns [a], the state it leaves
    has [Q a]. *)
Definition ensures {A} (P : CameraGrid -> Prop) (m : M A)
    (Q : A -> CameraGrid -> Prop) : Prop :=
  forall st a st' t, P st -> m st = (Normal a, st', t) -> Q a st'.

(** [m] keeps [I] when it returns. *)
Definition preserves {A} (I : CameraGrid -> Prop) (m : M A) : Prop :=
  ensures I m (fun _ => I).

Lemma ensures_ret {A} (P : CameraGrid -> Prop) (Q : A -> CameraGrid -> Prop) (a : A) :
  (forall st, P st -> Q a st) -> ensures P (mret a) Q.
Proof. intros H st b st' t HP [= <- <- _]. now apply H. Qed.

Lemma ensures_throw {A} (P : CameraGrid -> Prop) (Q : A -> CameraGrid -> Prop) :
  ensures P throw Q.
Proof. intros st b st' t _ E. discriminate E. Qed.

Lemma ensures_modify (P : CameraGrid -> Prop) (Q : unit -> CameraGrid -> Prop)
    (f : CameraGrid -> CameraGrid) :
  (forall st, P st -> Q tt (f st)) -> ensures P (modify f) Q.
Proof. intros H st b st' t HP [= <- <- _]. now apply H. Qed.

Lemma ensures_emit (P : CameraGrid -> Prop) (Q : unit -> CameraGrid -> Prop) (e : Effect) :
  (forall st, P st -> Q tt st) -> ensures P (emit e) Q.
Proof. intros H st b st' t HP [= <- <- _]. now apply H. Qed.

Lemma ensures_bind {A B} (P : CameraGrid -> Prop) (R : A -> CameraGrid -> Prop)
    (Q : B -> CameraGrid -> Prop) (m : M A) (f : A -> M B) :
  ensures P m R -> (forall a, ensures (R a) (f a) Q) -> ensures P (m ≫= f) Q.
Proof.
  intros Hm Hf st b st' t HP. rewrite run_bind.
  destruct (m st) as [[[a|] st1] t1] eqn:E; [|discriminate].
  destruct (f a st1) as [[c st2] t2] eqn:E'. intros [= -> <- _].
  exact (Hf a st1 b st2 t2 (Hm st a st1 t1 HP E) E').
Qed.

(** After [this ← get] the state is [this]. *)
Lemma ensures_get_bind {B} (P : CameraGrid -> Prop) (Q : B -> CameraGrid -> Prop)
    (f : CameraGrid -> M B) :
  (forall this, ensures (fun st => P st /\ st = this) (f this) Q) ->
  ensures P (get ≫= f) Q.
Proof.
  intros Hf st b st' t HP. rewrite run_bind. cbn [get].
  destruct (f st st) as [[c st2] t2] eqn:E'. intros [= -> <- _].
  exact (Hf st st b st2 t2 (conj HP eq_refl) E').
Qed.

Lemma ensures_weaken {A} (P P' : CameraGrid -> Prop) (Q : A -> CameraGrid -> Prop)
    (m : M A) :
  (forall st, P' st -> P st) -> ensures P m Q -> ensures P' m Q.
Proof. intros HP Hm st a st' t HP'. apply Hm. now apply HP. Qed.

Lemma preserves_ret {A} (I : CameraGrid -> Prop) (a : A) : preserves I (mret a).
Proof. now apply ensures_ret. Qed.

Lemma preserves_bind {A B} (I : CameraGrid -> Prop) (m : M A) (f : A -> M B) :
  preserves I m -> (forall a, preserves I (f a)) -> preserves I (m ≫= f).
Proof. intros Hm Hf. apply (ensures_bind I (fun _ => I)); assumption. Qed.

Lemma preserves_get_bind {B} (I : CameraGrid -> Prop) (f : CameraGrid -> M B) :
  (forall this, preserves I (f this)) -> preserves I (get ≫= f).
Proof.
  intros Hf. apply ensures_get_bind. intros this.
  apply (ensures_weaken I); [now intros st [H _]|apply Hf].
Qed.

Lemma preserves_forEach {A} (I : CameraGrid -> Prop) (l : list A) (body : A -> M unit) :
  (forall x, preserves I (body x)) -> preserves I (forEach l body).
Proof.
  intros Hbody. induction l as [|x l IH]; simpl.
  - apply preserves_ret.
  - apply preserves_bind; [apply Hbody|intros _; exact IH].
Qed.

Lemma preserves_asBuildImages {A} (I : CameraGrid -> Prop) (m : M A) :
  preserves I m -> preserves I (asBuildImages m).
Proof.
  intros Hm st a st' t HI. unfold asBuildImages.
  destruct (m st) as [[c st1] t1] eqn:E. intros [= -> <- _].
  exact (Hm st a st1 t1 HI E).
Qed.

Lemma keeps_preserves {A} (I : CameraGrid -> Prop) (m : M A) :
  keeps I m -> preserves I m.
Proof. intros Hm st a st' t HI E. specialize (Hm st HI). now rewrite E in Hm. Qed.

(** An event that does not switch scanning on or off: any but the keys [s]
    and space. *)
Definition quiet (e : Event) : Prop :=
  match e with
  | KeyPress charCode =>
      fromCharCode charCode <> charCodeAt0 "s" /\ fromCharCode charCode <> charCodeAt0 " "
  | _ => True
  end.

(** The handlers, from what [buildImage_], [setSelected_] and the recompute
    pass preserve. *)
Section HandlerEnsures.
Variable I : CameraGrid -> Prop.
Hypothesis I_buildImage : forall index, preserves I (buildImage_ index).
Hypothesis I_setSelected : forall index, preserves I (setSelected_ index).
Hypothesis I_disableScanning : preserves I disableScanning_.
Hypothesis I_rebuild : forall rev, preserves I (rebuildIfNeeded_ rev).
Hypothesis I_resize : forall width height st,
  I st ->
  I (set_container_
       (mkContainer width height (containerClasses (container_ st))
          (rows (container_ st))) st).

Lemma buildImages_preserves : preserves I buildImages_.
Proof using I_buildImage.
  apply preserves_asBuildImages. apply preserves_get_bind. intros this.
  apply preserves_forEach. apply I_buildImage.
Qed.

Lemma setSelectedNoScan_preserves (index : Z) : preserves I (setSelectedNoScan_ index).
Proof using I_setSelected I_disableScanning.
  apply preserves_bind; [apply I_setSelected|]. intros _. apply I_disableScanning.
Qed.

Lemma scanLeft_preserves : preserves I scanLeft_.
Proof using I_setSelected. apply preserves_get_bind. intros this. apply I_setSelected. Qed.

Lemma scanRight_preserves : preserves I scanRight_.
Proof using I_setSelected. apply preserves_get_bind. intros this. apply I_setSelected. Qed.

Lemma onScanTimer_preserves : preserves I onScanTimer_.
Proof using I_setSelected.
  apply preserves_get_bind. intros this.
  destruct (_ || _); [apply preserves_ret|apply scanRight_preserves].
Qed.

Lemma onKeyDown_preserves (keyCode : Z) : preserves I (onKeyDown_ keyCode).
Proof using I_setSelected I_disableScanning.
  apply preserves_get_bind. intros this.
  destruct (_ =? _).
  { destruct (selected_ this); [apply setSelectedNoScan_preserves|apply preserves_ret]. }
  destruct (_ =? _).
  { destruct (selected_ this); [|apply preserves_ret].
    apply preserves_bind; [apply scanLeft_preserves|]. intros _. apply I_disableScanning. }
  destruct (_ =? _); [|apply preserves_ret].
  destruct (selected_ this); [|apply preserves_ret].
  apply preserves_bind; [apply scanRight_preserves|]. intros _. apply I_disableScanning.
Qed.

(** A key press that is neither [s] nor the space bar. *)
Lemma onKeyPress_quiet_preserves (charCode : Z) :
  fromCharCode charCode <> charCodeAt0 "s" ->
  fromCharCode charCode <> charCodeAt0 " " ->
  preserves I (onKeyPress_ charCode).
Proof using I_setSelected I_disableScanning.
  intros Hs Hspace. unfold onKeyPress_. cbv zeta. destruct (existsb _ _).
  { apply preserves_get_bind. intros this.
    destruct (_ <? _); [apply setSelectedNoScan_preserves|apply preserves_ret]. }
  destruct (Z.eqb_spec (fromCharCode charCode) (charCodeAt0 "s")); [contradiction|].
  destruct (Z.eqb_spec (fromCharCode charCode) (charCodeAt0 " ")); [contradiction|].
  apply preserves_ret.
Qed.

Lemma dispatch_quiet_preserves (rev : Revision) (e : Event) :
  quiet e -> preserves I (dispatch rev e).
Proof using I_setSelected I_disableScanning I_rebuild I_resize.
  intros Hquiet.
  destruct e as [charCode|keyCode|index|width height|]; cbn [dispatch].
  - destruct Hquiet. now apply onKeyPress_quiet_preserves.
  - apply onKeyDown_preserves.
  - apply preserves_get_bind. intros this.
    destruct (cells_ this !! index); [|apply preserves_ret].
    destruct (bool_decide _); [apply preserves_ret|apply I_setSelected].
  - apply preserves_bind; [|intros _; apply I_rebuild].
    apply ensures_modify. intros st. apply I_resize.
  - apply onScanTimer_preserves.
Qed.

Hypothesis I_scanning : forall v st, I st -> I (set_scanning_ v st).

Lemma onKeyPress_preserves (charCode : Z) : preserves I (onKeyPress_ charCode).
Proof using I_setSelected I_disableScanning I_scanning.
  unfold onKeyPress_. cbv zeta. destruct (existsb _ _).
  { apply preserves_get_bind. intros this.
    destruct (_ <? _); [apply setSelectedNoScan_preserves|apply preserves_ret]. }
  destruct (_ =? _).
  { apply preserves_get_bind. intros this.
    assert (Hstart : preserves I
              (modify (set_scanning_ true);;
               this0 ← get;
               match selected_ this0 with
               | Some _ => mret tt
               | None => setSelected_ 0
               end)).
    { apply preserves_bind; [apply ensures_modify, I_scanning|]. intros _.
      apply preserves_get_bind. intros this0.
      destruct (selected_ this0); [apply preserves_ret|apply I_setSelected]. }
    destruct (scanning_ this), (selected_ this);
      solve [apply setSelectedNoScan_preserves | exact Hstart]. }
  destruct (_ =? _); [|apply preserves_ret].
  apply ensures_modify. intros st. apply I_scanning.
Qed.

Lemma dispatch_preserves (rev : Revision) (e : Event) : preserves I (dispatch rev e).
Proof using All.
  destruct e as [charCode|keyCode|index|width height|]; cbn [dispatch].
  - apply onKeyPress_preserves.
  - apply onKeyDown_preserves.
  - apply preserves_get_bind. intros this.
    destruct (cells_ this !! index); [|apply preserves_ret].
    destruct (bool_decide _); [apply preserves_ret|apply I_setSelected].
  - apply preserves_bind; [|intros _; apply I_rebuild].
    apply ensures_modify. intros st. apply I_resize.
  - apply onScanTimer_preserves.
Qed.
End HandlerEnsures.

(** ** The full-screen class marks the selected tile *)

Lemma removeCSSClass_NoDup (className : string) (classes : list string) :
  NoDup classes ->
  NoDup (removeCSSClass_ className classes)
  /\ className ∉ removeCSSClass_ className classes.
Proof.
  induction classes as [|c cs IH]; simpl; intros Hnd.
  - split; [constructor|]. intros H. now apply elem_of_nil in H.
  - apply NoDup_cons in Hnd. destruct Hnd as [Hc Hcs].
    destruct (decide (c = className)) as [->|Hne]; [now split|].
    destruct (IH Hcs) as [Hnd' Hnot]. split.
    + apply NoDup_cons. split; [|exact Hnd']. intros Hin. apply Hc.
      clear -Hin. induction cs as [|d ds IHd]; simpl in Hin; [exact Hin|].
      destruct (decide (d = className)); [now right|].
      apply elem_of_cons in Hin. destruct Hin as [->|Hin]; [left|right; now apply IHd].
    + intros Hin. apply elem_of_cons in Hin. destruct Hin as [E|Hin]; [congruence|].
      now apply Hnot.
Qed.

Lemma addCSSClass_NoDup (className : string) (classes : list string) :
  NoDup classes ->
  NoDup (addCSSClass_ className classes) /\ className ∈ addCSSClass_ className classes.
Proof.
  intros Hnd. unfold addCSSClass_. destruct (decide (className ∈ classes)) as [Hin|Hnot].
  - now split.
  - split.
    + apply NoDup_app. split; [exact Hnd|]. split; [|apply NoDup_singleton].
      intros x Hx Hx'. apply list_elem_of_singleton in Hx'. now subst.
    + apply elem_of_app. right. now left.
Qed.

(** The cells carry no class twice, and the cell with the class
    [cameraGridFullScreen] is the cell of the selected tile. *)
Definition marksSelection (st : CameraGrid) : Prop :=
  forall (k : nat) (cell : Cell),
    cells_ st !! k = Some cell ->
    NoDup (cellClasses cell)
    /\ (fullScreenClass ∈ cellClasses cell <-> selected_ st = Some (Z.of_nat k)).

Definition wellMarked (st : CameraGrid) : Prop :=
  validSelection st /\ marksSelection st.

Lemma withCell_appendImg_wellMarked (index : Z) (imgUrl : string) :
  preserves wellMarked (withCell index (cellAppendImg imgUrl)).
Proof.
  intros st a st' t [Hvalid Hmarks] E.
  destruct (lookupZ (cells_ st) index) as [cell|] eqn:Hcell.
  2: { rewrite (withCell_throws _ _ _ Hcell) in E. discriminate E. }
  rewrite (withCell_returns _ _ _ _ Hcell) in E. injection E as _ <- _.
  apply lookupZ_Some in Hcell. destruct Hcell as [Hi Hcell].
  split.
  - destruct Hvalid as [Hsel Hlen]. split; simpl; rewrite length_insert; assumption.
  - intros k c Hk. simpl in Hk. apply list_lookup_insert_Some in Hk.
    destruct Hk as [(<- & <- & _)|[_ Hk]]; [|now apply Hmarks].
    exact (Hmarks _ _ Hcell).
Qed.

Lemma buildImage_wellMarked (index : Z) : preserves wellMarked (buildImage_ index).
Proof.
  unfold buildImage_. apply preserves_get_bind. intros this.
  destruct (lookupZ _ _); [|apply ensures_throw].
  destruct (decide _); [now apply ensures_emit|].
  apply preserves_bind; [apply withCell_appendImg_wellMarked|].
  intros _. now apply ensures_emit.
Qed.

Ltac step_in E :=
  repeat first
    [ rewrite run_bind in E
    | match type of E with
      | context [withCell ?i ?f ?s] =>
          let c := fresh "cell" in
          let H := fresh "Hcell" in
          destruct (lookupZ (cells_ s) i) as [c|] eqn:H;
          [ rewrite (withCell_returns i f s c H) in E
          | rewrite (withCell_throws i f s H) in E; discriminate E ]
      end
    | progress cbn in E ].

Lemma setSelected_wellMarked (index : Z) : preserves wellMarked (setSelected_ index).
Proof.
  unfold setSelected_. apply ensures_get_bind. intros this.
  apply (ensures_bind _ (fun _ => wellMarked)).
  2: { intros old_index. apply preserves_get_bind. intros this0.
       destruct (_ || _); [|apply preserves_ret].
       apply preserves_bind;
         [destruct old_index; [apply buildImage_wellMarked|apply preserves_ret]|].
       intros _. apply preserves_get_bind. intros this1.
       destruct (selected_ this1); [apply buildImage_wellMarked|apply preserves_ret]. }
  intros st a st' t [[[Hsel Hlen] Hmarks] ->] E. unfold isSelected in E.
  destruct (selected_ this) as [s|] eqn:Es.
  - pose proof (Hsel s eq_refl) as Hs.
    destruct (Z.eqb_spec index s) as [->|Hne].
    + step_in E. injection E as _ <- _.
      apply lookupZ_Some in Hcell. destruct Hcell as [_ Hcell].
      split; [split; simpl; [discriminate|now rewrite length_insert]|].
      intros k c Hk. simpl in Hk. apply list_lookup_insert_Some in Hk.
      destruct Hk as [(<- & <- & _)|[Hne Hk]].
      * destruct (removeCSSClass_NoDup fullScreenClass (cellClasses cell))
          as [Hnd Hnot]; [apply (Hmarks _ _ Hcell)|].
        split; [exact Hnd|]. simpl. split; [contradiction|discriminate].
      * destruct (Hmarks _ _ Hk) as [Hnd Hiff]. split; [exact Hnd|]. simpl.
        rewrite Hiff, Es. split; [|discriminate]. intros [= E]. lia.
    + step_in E. injection E as _ <- _.
      apply lookupZ_Some in Hcell. destruct Hcell as [_ Hcell].
      apply lookupZ_Some in Hcell0. destruct Hcell0 as [Hi Hcell0]. simpl in Hcell0.
      assert (Hilt : 0 <= index < Z.of_nat (length (cells_ this))).
      { apply lookup_lt_Some in Hcell0. rewrite length_insert in Hcell0. lia. }
      split.
      { split; simpl; [|now rewrite !length_insert].
        intros i [= <-]. now rewrite !length_insert. }
      intros k c Hk. simpl in Hk. apply list_lookup_insert_Some in Hk.
      assert (Hcell0' : cells_ this !! Z.to_nat index = Some cell0).
      { apply list_lookup_insert_Some in Hcell0.
        destruct Hcell0 as [(E & _)|[_ H]]; [lia|exact H]. }
      destruct Hk as [(<- & <- & _)|[Hne' Hk]].
      * destruct (addCSSClass_NoDup fullScreenClass (cellClasses cell0))
          as [Hnd Hin]; [apply (Hmarks _ _ Hcell0')|].
        split; [exact Hnd|]. simpl. split; [intros _; f_equal; lia|intros _; exact Hin].
      * apply list_lookup_insert_Some in Hk.
        destruct Hk as [(<- & <- & _)|[Hne'' Hk]].
        -- destruct (removeCSSClass_NoDup fullScreenClass (cellClasses cell))
             as [Hnd Hnot]; [apply (Hmarks _ _ Hcell)|].
           split; [exact Hnd|]. simpl. split; [contradiction|].
           intros [= E]. lia.
        -- destruct (Hmarks _ _ Hk) as [Hnd Hiff]. split; [exact Hnd|]. simpl.
           rewrite Hiff, Es. split; intros [= E]; lia.
  - step_in E. injection E as _ <- _.
    apply lookupZ_Some in Hcell. destruct Hcell as [Hi Hcell].
    assert (Hilt : 0 <= index < Z.of_nat (length (cells_ this))).
    { apply lookup_lt_Some in Hcell. lia. }
    split.
    { split; simpl; [|now rewrite length_insert].
      intros i [= <-]. now rewrite length_insert. }
    intros k c Hk. simpl in Hk. apply list_lookup_insert_Some in Hk.
    destruct Hk as [(<- & <- & _)|[Hne' Hk]].
    + destruct (addCSSClass_NoDup fullScreenClass (cellClasses cell))
        as [Hnd Hin]; [apply (Hmarks _ _ Hcell)|].
      split; [exact Hnd|]. simpl. split; [intros _; f_equal; lia|intros _; exact Hin].
    + destruct (Hmarks _ _ Hk) as [Hnd Hiff]. split; [exact Hnd|]. simpl.
      rewrite Hiff, Es. split; [discriminate|]. intros [= E]. lia.
Qed.


(** The recompute pass, from what [buildImage_] preserves and what does not
    depend on cached values. *)
Section RebuildEnsures.
Variable I : CameraGrid -> Prop.
Hypothesis I_buildImage : forall index, preserves I (buildImage_ index).
Hypothesis I_cache : forall st st', sameCore st st' -> I st -> I st'.

Ltac preserves_structure_with call :=
  repeat first
    [ call
    | apply preserves_ret | apply ensures_throw
    | apply ensures_emit; intros ? H; exact H
    | apply ensures_modify; intros ? H; refine (I_cache _ _ _ H); now repeat split
    | apply preserves_forEach; intros ?
    | apply preserves_get_bind; intros ?
    | apply preserves_bind; [|intros ?]
    | match goal with
      | |- preserves _ (if ?b then _ else _) => destruct b
      | |- preserves _ (match ?x with _ => _ end) => destruct x
      | |- preserves _ (let '(_, _) := ?x in _) => destruct x
      end ].

Lemma setUpscaleRule_preserves (c : option Constraint) (rule : RuleName) :
  preserves I (setUpscaleRule_ c rule).
Proof using I_cache. unfold setUpscaleRule_. preserves_structure_with fail. Qed.

Lemma buildGrid_preserves : preserves I buildGrid_.
Proof using I_cache. unfold buildGrid_. preserves_structure_with fail. Qed.

Lemma rebuildIfNeeded_preserves (rev : Revision) : preserves I (rebuildIfNeeded_ rev).
Proof using All.
  unfold rebuildIfNeeded_, callFindMinimumResolution_, propertyOf. cbv zeta.
  preserves_structure_with
    ltac:(first [ apply setUpscaleRule_preserves | apply buildGrid_preserves
                | apply (buildImages_preserves I I_buildImage) | apply I_buildImage ]).
Qed.
End RebuildEnsures.

Lemma wellMarked_sameCore (st st' : CameraGrid) :
  sameCore st st' -> wellMarked st -> wellMarked st'.
Proof.
  intros Hcore [Hvalid Hmarks]. split; [now apply (validSelection_sameCore st)|].
  destruct Hcore as (Hcells & Hsel & _). unfold marksSelection.
  now rewrite Hcells, Hsel.
Qed.

Lemma dispatch_wellMarked (rev : Revision) (e : Event) :
  preserves wellMarked (dispatch rev e).
Proof.
  assert (Hdisable : preserves wellMarked disableScanning_).
  { apply preserves_get_bind. intros this. destruct (scanning_ this);
      [|apply preserves_ret].
    apply preserves_bind; [apply ensures_modify; intros st H; exact H|].
    intros _. apply buildImages_preserves. apply buildImage_wellMarked. }
  apply dispatch_preserves.
  - apply buildImage_wellMarked.
  - apply setSelected_wellMarked.
  - exact Hdisable.
  - intros rev'. apply rebuildIfNeeded_preserves;
      [apply buildImage_wellMarked|apply wellMarked_sameCore].
  - intros width height st H. exact H.
  - intros v st H. exact H.
Qed.

Lemma construct_wellMarked (rev : Revision) (st0 : CameraGrid) :
  selected_ st0 = None ->
  wellMarked (stateOf (construct rev st0))
  \/ exists st' t, construct rev st0 = (TypeError, st', t).
Proof.
  intros Hsel.
  set (st1 := set_cells_ ((fun _ => mkCell [] []) <$> sourceUrls_ st0) st0).
  set (st2 := stateOf (buildStylesheet_ st1)).
  assert (Hmarked : wellMarked st2).
  { split.
    - split; [intros i Hi; simpl in Hi; congruence|]. simpl. now rewrite length_fmap.
    - intros k cell Hk. simpl in Hk. apply list_lookup_fmap_Some in Hk.
      destruct Hk as (u & -> & _). simpl. split; [constructor|].
      split; [intros H; now apply elem_of_nil in H|]. rewrite Hsel. discriminate. }
  assert (Hrun : construct rev st0 = rebuildIfNeeded_ rev st2).
  { unfold construct. rewrite (run_bind buildCells_).
    change (buildCells_ st0) with (Normal tt, st1, @nil Effect). cbv iota beta.
    rewrite (run_bind buildStylesheet_).
    change (buildStylesheet_ st1) with (Normal tt, st2, @nil Effect). cbv iota beta.
    now destruct (rebuildIfNeeded_ rev st2) as [[c s] t]. }
  rewrite Hrun. destruct (rebuildIfNeeded_ rev st2) as [[[[]|] s] t] eqn:E.
  - left. refine (rebuildIfNeeded_preserves wellMarked _ _ rev st2 tt s t Hmarked E).
    + apply buildImage_wellMarked.
    + apply wellMarked_sameCore.
  - right. now eexists _, _.
Qed.

(** X14.  The full-screen class marks the selected tile.  After a
    constructor call with at least one source URL, a container of positive
    size and a catalog of positive sizes, and after any sequence of events,
    the cell that carries the class [cameraGridFullScreen] is the cell of
    the selected tile and no other, and no cell carries a class twice. *)
Theorem reachable_fullscreen_marks_selection (rev : Revision) (container : Container)
    (sourceUrls : list string) (resolutions : option (list (Z * Z)))
    (getUrl : option (option string -> option Z -> option Z -> string))
    (r : Completion unit * CameraGrid * list Effect) (events : list Event) :
  CameraGrid_new rev container sourceUrls resolutions getUrl = Some r ->
  wellConfigured container sourceUrls resolutions ->
  Forall wellSized events ->
  forall (k : nat) (cell : Cell),
    cells_ (stateAfter rev events (stateOf r)) !! k = Some cell ->
    NoDup (cellClasses cell)
    /\ (fullScreenClass ∈ cellClasses cell
        <-> selected_ (stateAfter rev events (stateOf r)) = Some (Z.of_nat k)).
Proof.
  intros Hnew Hconf Hall.
  destruct (CameraGrid_new_operational _ _ _ _ _ _ Hnew Hconf) as (Hret & Hop & _).
  assert (Hmarked : wellMarked (stateOf r)).
  { revert Hnew Hret. unfold CameraGrid_new. cbv zeta.
    destruct (default defaultResolutions_ resolutions) as [|first rest];
      [discriminate|].
    intros [= <-] Hret.
    destruct (construct_wellMarked rev
                (initialFields rev container sourceUrls (first :: rest)
                   (default defaultGetUrl_ getUrl) first) eq_refl)
      as [H|(st' & t & E)]; [exact H|].
    rewrite E in Hret. discriminate Hret. }
  clear Hnew Hret. revert Hop Hmarked. generalize (stateOf r). clear r.
  induction events as [|e events IH]; intros st Hop Hmarked; [apply Hmarked|].
  inversion Hall as [|? ? He Hrest]; subst.
  destruct (dispatch_operational rev e st Hop He) as [Hop' _].
  destruct (dispatch_returns rev e st) as (st' & t & Hrun).
  { apply Hop. }
  { destruct e; simpl in *; tauto. }
  pose proof (dispatch_wellMarked rev e st tt st' t Hmarked Hrun) as Hmarked'.
  change (stateAfter rev (e :: events) st)
    with (stateAfter rev events (stateOf (dispatch rev e st))).
  apply (IH Hrest); [exact Hop'|]. now rewrite Hrun.
Qed.

Lemma reachable_fullscreen_marks_selection_witness :
  exists r,
    (CameraGrid_new Rev1 (mkContainer 700 500 [] [])
       ["cam1/"; "cam2/"; "cam3/"; "cam4/"] None None = Some r
     /\ wellConfigured (mkContainer 700 500 [] []) ["cam1/"; "cam2/"; "cam3/"; "cam4/"] None
     /\ Forall wellSized [KeyPress 51; KeyDown 39])
    /\ forall (k : nat) (cell : Cell),
        cells_ (stateAfter Rev1 [KeyPress 51; KeyDown 39] (stateOf r)) !! k = Some cell ->
        NoDup (cellClasses cell)
        /\ (fullScreenClass ∈ cellClasses cell
            <-> selected_ (stateAfter Rev1 [KeyPress 51; KeyDown 39] (stateOf r))
                = Some (Z.of_nat k)).
Proof.
  assert (Hconf : wellConfigured (mkContainer 700 500 [] [])
                    ["cam1/"; "cam2/"; "cam3/"; "cam4/"] None).
  { split; [discriminate|]. split; [reflexivity|]. split; [reflexivity|].
    repeat constructor. }
  assert (Hall : Forall wellSized [KeyPress 51; KeyDown 39]).
  { repeat constructor; discriminate. }
  eexists. split.
  { split; [cbv [CameraGrid_new default defaultResolutions_]; reflexivity|].
    exact (conj Hconf Hall). }
  match goal with
  | |- forall k cell, cells_ (stateAfter _ _ (stateOf ?r)) !! k = _ -> _ =>
      assert (Hnew : CameraGrid_new Rev1 (mkContainer 700 500 [] [])
                       ["cam1/"; "cam2/"; "cam3/"; "cam4/"] None None = Some r)
        by (cbv [CameraGrid_new default defaultResolutions_]; reflexivity);
      exact (reachable_fullscreen_marks_selection Rev1 _ _ _ _ r _ Hnew Hconf Hall)
  end.
Defined.

(** ** No stale image without scanning *)

(** Every tile shows the URL of the resolution policy. *)
Definition allShow (st : CameraGrid) : Prop :=
  forall k, 0 <= k < cellCount st -> showsPolicy st k.

(** A controller that is not scanning and whose tiles all show the URL of
    the policy. *)
Definition fresh (st : CameraGrid) : Prop :=
  validSelection st /\ scanning_ st = false /\ allShow st.

(** The images of the cells, without their classes. *)
Definition imagesOf (st : CameraGrid) : list (list string) :=
  imgContainers <$> cells_ st.

Lemma showsPolicy_images (st : CameraGrid) (k : Z) :
  showsPolicy st k
  <-> exists imgs,
        lookupZ (imagesOf st) k = Some imgs /\ last imgs = Some (imgUrlOf st k).
Proof.
  unfold showsPolicy, imagesOf, lookupZ. destruct (k <? 0).
  - split; [intros (c & H & _)|intros (c & H & _)]; discriminate H.
  - rewrite list_lookup_fmap. split.
    + intros (c & -> & Hl). now exists (imgContainers c).
    + destruct (cells_ st !! Z.to_nat k) as [c|]; intros (imgs & [= <-] & Hl).
      now exists c.
Qed.

Lemma showsPolicy_transfer (st st' : CameraGrid) (k : Z) :
  imagesOf st' = imagesOf st -> imgUrlOf st' k = imgUrlOf st k ->
  showsPolicy st k -> showsPolicy st' k.
Proof. rewrite !showsPolicy_images. now intros -> ->. Qed.

(** The URL of a tile depends on the selection only through whether the
    tile is the selected one, and not at all when the two cached resolutions
    are equal. *)
Lemma imgUrlOf_selection (selected : option Z) (cells : list Cell) (st : CameraGrid)
    (k : Z) :
  isSelected (set_selected_ selected st) k = isSelected st k
  \/ (containerImgWidthPx_ st = imgWidthPx_ st
      /\ containerImgHeightPx_ st = imgHeightPx_ st) ->
  imgUrlOf (set_selected_ selected (set_cells_ cells st)) k = imgUrlOf st k.
Proof.
  unfold imgUrlOf. cbn [scanning_ set_selected_ set_cells_ getUrl_ sourceUrls_
    containerImgWidthPx_ containerImgHeightPx_ imgWidthPx_ imgHeightPx_].
  intros [E|[-> ->]].
  - unfold isSelected in *. cbn in E. cbn. now rewrite E.
  - now destruct (_ || _), (_ || _).
Qed.


Lemma isSelected_false (st : CameraGrid) (k : Z) :
  selected_ st <> Some k -> isSelected st k = false.
Proof.
  unfold isSelected. destruct (selected_ st) as [s|]; [|reflexivity].
  intros H. destruct (Z.eqb_spec k s) as [->|]; [congruence|reflexivity].
Qed.

(** What a returning [buildImage_] has done. *)
Lemma buildImage_post (index : Z) (st st' : CameraGrid) (a : unit) (t : list Effect) :
  buildImage_ index st = (Normal a, st', t) ->
  exists cells',
    st' = set_cells_ cells' st
    /\ length cells' = length (cells_ st)
    /\ 0 <= index < cellCount st
    /\ showsPolicy st' index
    /\ (forall k, showsPolicy st k -> showsPolicy st' k).
Proof.
  intros E. destruct (decide (0 <= index < Z.of_nat (length (cells_ st)))) as [Hi|Hi].
  - destruct (buildImage_refreshes index st Hi) as (c & b & E' & L & Hnew & Hkeep & _).
    rewrite E' in E. injection E as _ <- _. now exists c.
  - rewrite (buildImage_throws index st) in E; [discriminate E|].
    now apply lookupZ_None.
Qed.

Lemma imagesOf_insert (cells : list Cell) (i : nat) (cell cell' : Cell) :
  cells !! i = Some cell -> imgContainers cell' = imgContainers cell ->
  imgContainers <$> <[i := cell']> cells = imgContainers <$> cells.
Proof.
  intros Hcell Himgs. rewrite list_fmap_insert, Himgs. apply list_insert_id.
  now rewrite list_lookup_fmap, Hcell.
Qed.

(** The state between the two halves of [setSelected_]: the selection and
    the classes have changed, the images have not. *)
Definition selectionChanged (this : CameraGrid) (old_index : option Z)
    (st : CameraGrid) : Prop :=
  validSelection st
  /\ onlySelection this st
  /\ imagesOf st = imagesOf this
  /\ old_index = selected_ this.

Lemma setSelected_fresh (index : Z) : preserves fresh (setSelected_ index).
Proof.
  unfold setSelected_. apply ensures_get_bind. intros this.
  apply (ensures_bind _ (fun old_index st => fresh this /\ selectionChanged this old_index st)).
  { (* the first half *)
    intros st a st' t [Hfresh ->] E. split; [exact Hfresh|].
    destruct Hfresh as ([Hsel Hlen] & _ & _). unfold isSelected in E.
    unfold selectionChanged, onlySelection, imagesOf.
    destruct (selected_ this) as [s|] eqn:Es.
    - pose proof (Hsel s eq_refl) as Hs.
      destruct (Z.eqb_spec index s) as [->|Hne].
      + step_in E. injection E as <- <- _.
        apply lookupZ_Some in Hcell. destruct Hcell as [_ Hcell].
        split; [split; simpl; [discriminate|now rewrite length_insert]|].
        split; [split; [reflexivity|simpl; now rewrite length_insert]|].
        split; [|reflexivity]. cbn [cells_ set_selected_ set_cells_].
        now apply (imagesOf_insert _ _ cell).
      + step_in E. injection E as <- <- _.
        apply lookupZ_Some in Hcell. destruct Hcell as [_ Hcell].
        apply lookupZ_Some in Hcell0. destruct Hcell0 as [Hi Hcell0]. simpl in Hcell0.
        assert (Hilt : 0 <= index < Z.of_nat (length (cells_ this))).
        { apply lookup_lt_Some in Hcell0. rewrite length_insert in Hcell0. lia. }
        split.
        { split; simpl; [|now rewrite !length_insert].
          intros i [= <-]. now rewrite !length_insert. }
        split; [split; [reflexivity|simpl; now rewrite !length_insert]|].
        split; [|reflexivity]. cbn [cells_ set_selected_ set_cells_].
        rewrite (imagesOf_insert _ _ cell0) by (exact Hcell0 || reflexivity).
        now apply (imagesOf_insert _ _ cell).
    - step_in E. injection E as <- <- _.
      apply lookupZ_Some in Hcell. destruct Hcell as [Hi Hcell].
      assert (Hilt : 0 <= index < Z.of_nat (length (cells_ this))).
      { apply lookup_lt_Some in Hcell. lia. }
      split.
      { split; simpl; [|now rewrite length_insert].
        intros i [= <-]. now rewrite length_insert. }
      split; [split; [reflexivity|simpl; now rewrite length_insert]|].
      split; [|reflexivity]. cbn [cells_ set_selected_ set_cells_].
      now apply (imagesOf_insert _ _ cell). }
  (* the second half *)
  intros old_index. apply ensures_get_bind. intros st1.
  assert (Hshown : forall st,
            (fresh this /\ selectionChanged this old_index st) ->
            forall k, 0 <= k < cellCount st ->
              (selected_ this <> Some k /\ selected_ st <> Some k)
              \/ (containerImgWidthPx_ this = imgWidthPx_ this
                  /\ containerImgHeightPx_ this = imgHeightPx_ this) ->
              showsPolicy st k).
  { intros st [(_ & _ & Hall) (_ & [Heq Hlen] & Himgs & _)] k Hk Hcase.
    apply (showsPolicy_transfer this); [exact Himgs| |].
    - rewrite Heq. apply imgUrlOf_selection.
      destruct Hcase as [[H1 H2]|H]; [left|now right].
      rewrite (isSelected_false this k H1). now apply isSelected_false.
    - apply Hall. unfold cellCount in *. now rewrite <- Hlen. }
  assert (Hscan : forall st,
            (fresh this /\ selectionChanged this old_index st) -> scanning_ st = false).
  { intros st [(_ & Hs & _) (_ & Honly & _)].
    now rewrite (onlySelection_scanning _ _ Honly). }
  assert (Hres : forall st,
            (fresh this /\ selectionChanged this old_index st) ->
            containerImgWidthPx_ st = containerImgWidthPx_ this
            /\ imgWidthPx_ st = imgWidthPx_ this
            /\ containerImgHeightPx_ st = containerImgHeightPx_ this
            /\ imgHeightPx_ st = imgHeightPx_ this).
  { intros st [_ (_ & [Heq _] & _)]. now rewrite Heq. }
  destruct (_ || _) eqn:Etest.
  2: { (* the two resolutions are equal: nothing to reload *)
       apply ensures_ret. intros st [H ->].
       split; [apply H|]. split; [now apply Hscan|].
       intros k Hk. apply (Hshown st1 H k Hk). right.
       destruct (Hres st1 H) as (E1 & E2 & E3 & E4).
       apply num_neq_pair_false in Etest. destruct Etest as [Ew Eh]. split; congruence. }
  apply (ensures_bind _
           (fun _ st =>
              validSelection st /\ scanning_ st = false
              /\ selected_ st = selected_ st1
              /\ forall k, 0 <= k < cellCount st -> selected_ st <> Some k ->
                   showsPolicy st k)).
  { (* the tile that was selected *)
    destruct old_index as [old|].
    - intros st a st' t [H ->] E.
      destruct (buildImage_post _ _ _ _ _ E) as (c & -> & L & Hold & Hnew & Hkeep).
      pose proof H as [_ (Hvalid & _ & _ & Hold')].
      split.
      { destruct Hvalid as [Hs Hl]. split; simpl; rewrite L; assumption. }
      split; [exact (Hscan st1 H)|]. split; [reflexivity|].
      intros k Hk Hnot. destruct (decide (k = old)) as [->|Hne]; [exact Hnew|].
      apply Hkeep. apply (Hshown st1 H).
      + unfold cellCount in *. simpl in Hk. now rewrite <- L.
      + left. split; [|exact Hnot]. rewrite <- Hold'. intros [= E']. now apply Hne.
    - apply ensures_ret. intros st [H ->].
      pose proof H as [_ (Hvalid & _ & _ & Hold')].
      split; [exact Hvalid|]. split; [exact (Hscan st1 H)|]. split; [reflexivity|].
      intros k Hk Hnot. apply (Hshown st1 H k Hk). left.
      split; [|exact Hnot]. rewrite <- Hold'. discriminate. }
  (* the tile that is selected now *)
  intros _. apply ensures_get_bind. intros st2.
  destruct (selected_ st2) as [s|] eqn:Es.
  - intros st a st' t [(Hvalid & Hs & Hsel & Hall) ->] E.
    destruct (buildImage_post _ _ _ _ _ E) as (c & -> & L & Hold & Hnew & Hkeep).
    split.
    { destruct Hvalid as [Hv Hl]. split; simpl; rewrite L; assumption. }
    split; [exact Hs|].
    intros k Hk. destruct (decide (k = s)) as [->|Hne]; [exact Hnew|].
    apply Hkeep. apply Hall.
    + unfold cellCount in *. simpl in Hk. now rewrite <- L.
    + rewrite Es. intros [= E']. now apply Hne.
  - apply ensures_ret. intros st [(Hvalid & Hs & Hsel & Hall) ->].
    split; [exact Hvalid|]. split; [exact Hs|].
    intros k Hk. apply Hall; [exact Hk|]. rewrite Es. discriminate.
Qed.


Lemma ensures_ret_bind {A B} (P : CameraGrid -> Prop) (Q : B -> CameraGrid -> Prop)
    (a : A) (f : A -> M B) :
  ensures P (f a) Q -> ensures P (mret a ≫= f) Q.
Proof.
  intros Hf st b st' t HP. rewrite run_bind. cbn.
  destruct (f a st) as [[c st2] t2] eqn:E'. intros [= -> <- _].
  exact (Hf st b st2 t2 HP E').
Qed.

(** A call of [findMinimumResolution_] leaves the controller as it is; in
    both revisions a call that returns gives what the first revision's
    function computes. *)
Lemma callFindMinimumResolution_ensures (rev : Revision) (tileWidth tileHeight : Q)
    (P : CameraGrid -> Prop) :
  ensures P (callFindMinimumResolution_ rev tileWidth tileHeight)
    (fun result st =>
       P st /\ result = findMinimumResolution_ (resolutions_ st) tileWidth tileHeight).
Proof.
  intros st result st' t HP. unfold callFindMinimumResolution_.
  rewrite run_bind. cbn [get]. destruct rev.
  - cbn. intros [= <- <- _]. now split.
  - pose proof (findMinimumResolution_revisions (resolutions_ st) tileWidth tileHeight)
      as Hrev.
    destruct (findMinimumResolution_2 (resolutions_ st) tileWidth tileHeight)
      as [logged [r|]]; simpl in Hrev.
    + assert (Hlog : exists t', forEach logged (fun msg => emit (ConsoleLog msg)) st
                                = (Normal tt, st, t')).
      { clear. induction logged as [|msg logged IH]; [now eexists|].
        destruct IH as [t' IH]. simpl. rewrite run_bind. cbn. rewrite IH. now eexists. }
      destruct Hlog as [t' Hlog]. rewrite run_bind, Hlog. cbn.
      intros [= <- <- _]. now split.
    + assert (Hlog : exists t', forEach logged (fun msg => emit (ConsoleLog msg)) st
                                = (Normal tt, st, t')).
      { clear. induction logged as [|msg logged IH]; [now eexists|].
        destruct IH as [t' IH]. simpl. rewrite run_bind. cbn. rewrite IH. now eexists. }
      destruct Hlog as [t' Hlog]. rewrite run_bind, Hlog. cbn. discriminate.
Qed.

(** What a returning [buildImages_] has done. *)
Lemma buildImages_post (st st' : CameraGrid) (a : unit) (t : list Effect) :
  length (cells_ st) = length (sourceUrls_ st) ->
  buildImages_ st = (Normal a, st', t) ->
  exists cells',
    st' = set_cells_ cells' st /\ length cells' = length (cells_ st) /\ allShow st'.
Proof.
  intros Hlen. unfold buildImages_, asBuildImages. rewrite run_bind. cbn.
  destruct (forEach_buildImage_refreshes
              (seqZ 0 (Z.of_nat (length (sourceUrls_ st)))) st)
    as (c & t' & E & L & Hall & _).
  { intros i Hi. apply elem_of_seqZ in Hi. lia. }
  rewrite E. cbn. intros [= _ <- _]. exists c. split; [reflexivity|].
  split; [exact L|]. intros k Hk. apply Hall. apply elem_of_seqZ.
  unfold cellCount in Hk. simpl in Hk. lia.
Qed.

(** During a recompute pass on a controller that is not scanning: the
    selection is the one of [this], and the tiles show their URLs. *)
Definition passing (this : CameraGrid) (st : CameraGrid) : Prop :=
  validSelection st /\ scanning_ st = false /\ selected_ st = selected_ this
  /\ allShow st.

(** A recompute pass on a controller that is not scanning leaves every tile
    showing its URL if every tile did, or if the grid-cell resolution
    changed. *)
Lemma rebuildIfNeeded_fresh (rev : Revision) :
  ensures
    (fun st => validSelection st /\ scanning_ st = false
               /\ (allShow st \/ resolutionTest st = true))
    (rebuildIfNeeded_ rev) (fun _ => fresh).
Proof.
  unfold rebuildIfNeeded_. cbv zeta. apply ensures_get_bind. intros this.
  set (P0 := fun st : CameraGrid =>
               (validSelection st /\ scanning_ st = false
                /\ (allShow st \/ resolutionTest st = true)) /\ st = this).
  apply (ensures_bind P0
           (fun result st =>
              P0 st
              /\ result = findMinimumResolution_ (resolutions_ st)
                            (cellWidthPx (calculateGrid_ this))
                            (cellHeightPx (calculateGrid_ this))));
    [apply callFindMinimumResolution_ensures|].
  intros resolution.
  set (P1 := fun st : CameraGrid =>
               P0 st
               /\ resolution = findMinimumResolution_ (resolutions_ st)
                                 (cellWidthPx (calculateGrid_ this))
                                 (cellHeightPx (calculateGrid_ this))).
  apply (ensures_bind P1
           (fun result st =>
              P1 st
              /\ result = findMinimumResolution_ (resolutions_ st)
                            (inject_Z (offsetWidth (container_ this)))
                            (inject_Z (offsetHeight (container_ this)))));
    [apply callFindMinimumResolution_ensures|].
  intros containerResolution.
  (* the state is still [this] *)
  set (A1 := fun st : CameraGrid =>
               validSelection st /\ scanning_ st = false
               /\ selected_ st = selected_ this
               /\ (imgWidthPx_ st, imgHeightPx_ st) = (imgWidthPx_ this, imgHeightPx_ this)
               /\ (allShow st
                   \/ num_neq (imgWidthPx <$> resolution) (imgWidthPx_ this)
                      || num_neq (imgHeightPx <$> resolution) (imgHeightPx_ this) = true)).
  apply (ensures_weaken A1).
  { intros st [[[(Hvalid & Hscan & Hshow) ->] Hr] _].
    split; [exact Hvalid|]. split; [exact Hscan|]. split; [reflexivity|].
    split; [reflexivity|]. destruct Hshow as [H|H]; [now left|right].
    unfold resolutionTest, newResolution in H. now rewrite <- Hr in H. }
  clear P0 P1.
  assert (Hrule : forall c rule, preserves A1 (setUpscaleRule_ c rule)).
  { intros c rule. unfold setUpscaleRule_.
    apply preserves_bind; [apply ensures_modify; intros st H; exact H|]. intros _.
    apply ensures_emit. intros st H. exact H. }
  (* the two constraints *)
  apply (ensures_bind A1 (fun _ => A1)).
  { destruct (constraint_neq _ _); [|apply preserves_ret].
    apply preserves_bind; [apply ensures_modify; intros st H; exact H|]. intros _.
    apply Hrule. }
  intros _. apply (ensures_bind A1 (fun _ => A1)).
  { destruct (constraint_neq _ _); [|apply preserves_ret].
    apply preserves_bind; [apply ensures_modify; intros st H; exact H|]. intros _.
    apply Hrule. }
  intros _. unfold propertyOf.
  destruct resolution as [r|];
    [|apply (ensures_bind A1 (fun _ _ => False));
      [apply ensures_throw|intros ? ? ? ? ? []]].
  apply ensures_ret_bind. apply ensures_ret_bind.
  (* the grid-cell resolution *)
  apply (ensures_bind A1 (fun _ => passing this)).
  { cbn [fmap option_fmap option_map] in A1. destruct (_ || _) eqn:Etest.
    - apply (ensures_bind A1 (fun _ st => validSelection st /\ scanning_ st = false
                                          /\ selected_ st = selected_ this)).
      { apply ensures_modify. intros st (Hvalid & Hscan & Hsel & _).
        split; [exact Hvalid|]. split; [exact Hscan|exact Hsel]. }
      intros _.
      apply (ensures_bind _ (fun _ st => validSelection st /\ scanning_ st = false
                                         /\ selected_ st = selected_ this)).
      { apply ensures_modify. intros st H. exact H. }
      intros _.
      intros st a st' t (Hvalid & Hscan & Hsel) E.
      destruct (buildImages_post _ _ _ _ (proj2 Hvalid) E) as (c & -> & L & Hall).
      split.
      { destruct Hvalid as [Hv Hl]. split; simpl; rewrite L; assumption. }
      split; [exact Hscan|]. split; [exact Hsel|exact Hall].
    - apply ensures_ret. intros st (Hvalid & Hscan & Hsel & _ & [Hall|Hno]).
      + split; [exact Hvalid|]. split; [exact Hscan|]. split; [exact Hsel|exact Hall].
      + discriminate Hno. }
  intros _. clear A1 Hrule.
  destruct containerResolution as [cr|];
    [|apply (ensures_bind _ (fun _ _ => False));
      [apply ensures_throw|intros ? ? ? ? ? []]].
  apply ensures_ret_bind. apply ensures_ret_bind.
  (* the full-screen resolution *)
  apply (ensures_bind _ (fun _ => fresh)).
  { destruct (_ || _).
    2: { apply ensures_ret. intros st (Hvalid & Hscan & _ & Hall).
         split; [exact Hvalid|]. split; [exact Hscan|exact Hall]. }
    set (A2 := fun st : CameraGrid =>
                 validSelection st /\ scanning_ st = false
                 /\ selected_ st = selected_ this
                 /\ forall k, 0 <= k < cellCount st -> selected_ st <> Some k ->
                      showsPolicy st k).
    assert (Hshift : forall (f : CameraGrid -> CameraGrid) st,
              (forall s, cells_ (f s) = cells_ s /\ selected_ (f s) = selected_ s
                         /\ scanning_ (f s) = scanning_ s
                         /\ sourceUrls_ (f s) = sourceUrls_ s
                         /\ getUrl_ (f s) = getUrl_ s
                         /\ imgWidthPx_ (f s) = imgWidthPx_ s
                         /\ imgHeightPx_ (f s) = imgHeightPx_ s) ->
              A2 st -> A2 (f st)).
    { intros f st Hf (Hvalid & Hscan & Hsel & Hall).
      destruct (Hf st) as (Ec & Es & En & Eu & Eg & Ew & Eh).
      split; [unfold validSelection; now rewrite Ec, Es, Eu|].
      split; [congruence|]. split; [congruence|].
      intros k Hk Hnot. unfold cellCount in Hk. rewrite Ec in Hk. rewrite Es in Hnot.
      apply (showsPolicy_transfer st); [unfold imagesOf; now rewrite Ec| |now apply Hall].
      unfold imgUrlOf. rewrite En, Eu, Eg, Ew, Eh, Hscan.
      pose proof (isSelected_false st k Hnot) as E.
      assert (E' : isSelected (f st) k = false).
      { apply isSelected_false. now rewrite Es. }
      now rewrite E, E'. }
    apply (ensures_bind _ (fun _ => A2)).
    { apply ensures_modify. intros st (Hvalid & Hscan & Hsel & Hall).
      apply Hshift; [intros s; now repeat split|].
      split; [exact Hvalid|]. split; [exact Hscan|]. split; [exact Hsel|].
      intros k Hk _. now apply Hall. }
    intros _. apply (ensures_bind _ (fun _ => A2)).
    { apply ensures_modify. intros st H. apply Hshift; [intros s; now repeat split|].
      exact H. }
    intros _. destruct (selected_ this) as [s|] eqn:Es.
    - intros st a st' t (Hvalid & Hscan & Hsel & Hall) E.
      destruct (buildImage_post _ _ _ _ _ E) as (c & -> & L & Hold & Hnew & Hkeep).
      split.
      { destruct Hvalid as [Hv Hl]. split; simpl; rewrite L; assumption. }
      split; [exact Hscan|].
      intros k Hk. destruct (decide (k = s)) as [->|Hne]; [exact Hnew|].
      apply Hkeep. apply Hall.
      + unfold cellCount in *. simpl in Hk. now rewrite <- L.
      + rewrite Hsel. intros [= E']. now apply Hne.
    - apply ensures_ret. intros st (Hvalid & Hscan & Hsel & Hall).
      split; [exact Hvalid|]. split; [exact Hscan|].
      intros k Hk. apply Hall; [exact Hk|]. rewrite Hsel. discriminate. }
  (* the grid shape *)
  intros _. destruct (_ || _); [|apply preserves_ret].
  apply preserves_bind; [apply ensures_modify; intros st H; exact H|]. intros _.
  apply preserves_bind; [apply ensures_modify; intros st H; exact H|]. intros _.
  unfold buildGrid_. apply preserves_get_bind. intros this'.
  apply preserves_bind; [apply ensures_modify; intros st H; exact H|]. intros _.
  apply preserves_bind; [apply ensures_modify; intros st H; exact H|]. intros _.
  apply ensures_emit. intros st H. exact H.
Qed.


Lemma findMinimumResolution_entry (resolutions : list (Z * Z)) (tileWidth tileHeight : Q)
    (r : Resolution) :
  findMinimumResolution_ resolutions tileWidth tileHeight = Some r ->
  exists entry, entry ∈ resolutions /\ r = resolutionOf entry.
Proof.
  rewrite findMinimumResolution_as_loop2.
  destruct (findMinimumResolution_loop2 resolutions tileWidth tileHeight) as [r'|] eqn:E.
  - intros [= <-]. apply findMinimumResolution_loop2_Some in E.
    destruct E as (i & entry & (Hi & _) & ->). exists entry. split; [|reflexivity].
    eapply list_elem_of_lookup_2. exact Hi.
  - destruct (last resolutions) as [entry|] eqn:Hlast; [|discriminate].
    intros [= <-]. exists entry. split; [|reflexivity].
    rewrite last_lookup in Hlast. eapply list_elem_of_lookup_2. exact Hlast.
Qed.

Lemma dispatch_fresh (rev : Revision) (e : Event) :
  quiet e -> preserves fresh (dispatch rev e).
Proof.
  apply dispatch_quiet_preserves.
  - apply setSelected_fresh.
  - apply ensures_get_bind. intros this. destruct (scanning_ this) eqn:Hscan.
    + intros st a st' t [(_ & Hoff & _) ->]. congruence.
    + apply ensures_ret. now intros st [H _].
  - intros rev'. refine (ensures_weaken _ _ _ _ _ (rebuildIfNeeded_fresh rev')).
    intros st (Hvalid & Hscan & Hall).
    split; [exact Hvalid|]. split; [exact Hscan|now left].
  - intros width height st H. exact H.
Qed.


Lemma CameraGrid_new_fresh (rev : Revision) (container : Container)
    (sourceUrls : list string) (resolutions : option (list (Z * Z)))
    (getUrl : option (option string -> option Z -> option Z -> string))
    (r : Completion unit * CameraGrid * list Effect) :
  CameraGrid_new rev container sourceUrls resolutions getUrl = Some r ->
  wellConfigured container sourceUrls resolutions ->
  fresh (stateOf r).
Proof.
  intros Hnew Hconf.
  destruct (CameraGrid_new_operational _ _ _ _ _ _ Hnew Hconf) as (Hret & _ & _).
  revert Hnew Hret. destruct Hconf as (_ & _ & _ & Hpos).
  unfold CameraGrid_new. cbv zeta.
  destruct (default defaultResolutions_ resolutions) as [|first rest] eqn:Hres;
    [discriminate|].
  intros [= <-] Hret.
  set (st0 := initialFields rev container sourceUrls (first :: rest)
                (default defaultGetUrl_ getUrl) first) in *.
  set (st1 := set_cells_ ((fun _ => mkCell [] []) <$> sourceUrls) st0).
  set (st2 := stateOf (buildStylesheet_ st1)).
  assert (Hrun : construct rev st0 = rebuildIfNeeded_ rev st2).
  { unfold construct. rewrite (run_bind buildCells_).
    change (buildCells_ st0) with (Normal tt, st1, @nil Effect). cbv iota beta.
    rewrite (run_bind buildStylesheet_).
    change (buildStylesheet_ st1) with (Normal tt, st2, @nil Effect). cbv iota beta.
    now destruct (rebuildIfNeeded_ rev st2) as [[c s] t]. }
  rewrite Hrun in Hret |- *.
  destruct (rebuildIfNeeded_ rev st2) as [[c st'] t] eqn:E.
  unfold completionOf in Hret. simpl in Hret. subst c.
  refine (rebuildIfNeeded_fresh rev st2 tt st' t _ E).
  split; [|split; [reflexivity|right]].
  { split; [intros i Hi; discriminate Hi|]. simpl. now rewrite length_fmap. }
  destruct (callFindMinimumResolution_run Rev1 (cellWidthPx (calculateGrid_ st2))
              (cellHeightPx (calculateGrid_ st2)) st2) as (r0 & _ & _ & Hr0 & _);
    [discriminate|].
  unfold resolutionTest, newResolution. rewrite Hr0.
  destruct (findMinimumResolution_entry _ _ _ _ Hr0) as (entry & Hin & ->).
  unfold positiveEntries in Hpos. rewrite Forall_forall in Hpos.
  destruct (Hpos entry Hin) as [Hw _].
  apply orb_true_iff. left. apply num_neq_spec.
  destruct rev; simpl; [|discriminate]. intros [= E0]. lia.
Qed.

(** X15.  No stale image without scanning.  After a constructor call with at
    least one source URL, a container of positive size and a catalog of
    positive sizes, and after any sequence of events that never presses [s]
    or the space bar, the controller is not scanning and the newest image of
    every tile has the URL of the resolution policy: the full-screen
    resolution for the selected tile, the grid-cell resolution for every
    other. *)
Theorem reachable_tiles_show_policy (rev : Revision) (container : Container)
    (sourceUrls : list string) (resolutions : option (list (Z * Z)))
    (getUrl : option (option string -> option Z -> option Z -> string))
    (r : Completion unit * CameraGrid * list Effect) (events : list Event) (k : Z) :
  CameraGrid_new rev container sourceUrls resolutions getUrl = Some r ->
  wellConfigured container sourceUrls resolutions ->
  Forall wellSized events -> Forall quiet events ->
  0 <= k < Z.of_nat (length sourceUrls) ->
  scanning_ (stateAfter rev events (stateOf r)) = false
  /\ exists cell,
      lookupZ (cells_ (stateAfter rev events (stateOf r))) k = Some cell
      /\ last (imgContainers cell)
         = Some (getUrl_ (stateAfter rev events (stateOf r))
                   (lookupZ (sourceUrls_ (stateAfter rev events (stateOf r))) k)
                   (if decide (selected_ (stateAfter rev events (stateOf r)) = Some k)
                    then containerImgWidthPx_ (stateAfter rev events (stateOf r))
                    else imgWidthPx_ (stateAfter rev events (stateOf r)))
                   (if decide (selected_ (stateAfter rev events (stateOf r)) = Some k)
                    then containerImgHeightPx_ (stateAfter rev events (stateOf r))
                    else imgHeightPx_ (stateAfter rev events (stateOf r)))).
Proof.
  intros Hnew Hconf Hsized Hquiet Hk.
  destruct (CameraGrid_new_operational _ _ _ _ _ _ Hnew Hconf) as (_ & Hop & Hlen).
  pose proof (CameraGrid_new_fresh _ _ _ _ _ _ Hnew Hconf) as Hfresh.
  rewrite <- Hlen in Hk. clear Hnew Hlen.
  assert (Hend : fresh (stateAfter rev events (stateOf r))
                 /\ length (cells_ (stateAfter rev events (stateOf r)))
                    = length (cells_ (stateOf r))).
  { revert Hop Hfresh. generalize (stateOf r).
    induction events as [|e events IH]; intros st Hop Hfresh; [now split|].
    inversion Hsized as [|? ? He Hrest]; subst.
    inversion Hquiet as [|? ? Hq Hqrest]; subst.
    destruct (dispatch_operational rev e st Hop He) as [Hop' Hlen'].
    destruct (dispatch_returns rev e st) as (st' & t & Hrun).
    { apply Hop. }
    { destruct e; simpl in *; tauto. }
    pose proof (dispatch_fresh rev e Hq st tt st' t Hfresh Hrun) as Hfresh'.
    change (stateAfter rev (e :: events) st)
      with (stateAfter rev events (stateOf (dispatch rev e st))).
    destruct (IH Hrest Hqrest (stateOf (dispatch rev e st)) Hop') as [Hf Hl].
    { now rewrite Hrun. }
    split; [exact Hf|]. now rewrite Hl. }
  destruct Hend as [(_ & Hscan & Hall) Hlen]. split; [exact Hscan|].
  destruct (Hall k) as (cell & Hcell & Hlast).
  { unfold cellCount. now rewrite Hlen. }
  exists cell. split; [exact Hcell|]. rewrite Hlast. f_equal.
  unfold imgUrlOf, isSelected. rewrite Hscan. simpl.
  destruct (selected_ (stateAfter rev events (stateOf r))) as [s|].
  - destruct (Z.eqb_spec k s) as [->|Hne].
    + now rewrite !decide_True.
    + rewrite !decide_False; [reflexivity|intros [= E]; congruence..].
  - now rewrite !decide_False.
Qed.

Lemma reachable_tiles_show_policy_witness :
  exists r,
    (CameraGrid_new Rev1 (mkContainer 700 500 [] [])
       ["cam1/"; "cam2/"; "cam3/"; "cam4/"] None None = Some r
     /\ wellConfigured (mkContainer 700 500 [] []) ["cam1/"; "cam2/"; "cam3/"; "cam4/"] None
     /\ Forall wellSized [KeyPress 51; Resize 900 650; KeyDown 39]
     /\ Forall quiet [KeyPress 51; Resize 900 650; KeyDown 39]
     /\ 0 <= 3 < Z.of_nat (length ["cam1/"; "cam2/"; "cam3/"; "cam4/"]))
    /\ scanning_ (stateAfter Rev1 [KeyPress 51; Resize 900 650; KeyDown 39] (stateOf r))
       = false
    /\ exists cell,
        lookupZ (cells_ (stateAfter Rev1 [KeyPress 51; Resize 900 650; KeyDown 39]
                           (stateOf r))) 3 = Some cell
        /\ last (imgContainers cell)
           = Some (getUrl_ (stateAfter Rev1 [KeyPress 51; Resize 900 650; KeyDown 39]
                              (stateOf r))
                     (lookupZ (sourceUrls_
                                 (stateAfter Rev1 [KeyPress 51; Resize 900 650; KeyDown 39]
                                    (stateOf r))) 3)
                     (if decide (selected_
                                   (stateAfter Rev1 [KeyPress 51; Resize 900 650; KeyDown 39]
                                      (stateOf r)) = Some 3)
                      then containerImgWidthPx_
                             (stateAfter Rev1 [KeyPress 51; Resize 900 650; KeyDown 39]
                                (stateOf r))
                      else imgWidthPx_
                             (stateAfter Rev1 [KeyPress 51; Resize 900 650; KeyDown 39]
                                (stateOf r)))
                     (if decide (selected_
                                   (stateAfter Rev1 [KeyPress 51; Resize 900 650; KeyDown 39]
                                      (stateOf r)) = Some 3)
                      then containerImgHeightPx_
                             (stateAfter Rev1 [KeyPress 51; Resize 900 650; KeyDown 39]
                                (stateOf r))
                      else imgHeightPx_
                             (stateAfter Rev1 [KeyPress 51; Resize 900 650; KeyDown 39]
                                (stateOf r)))).
Proof.
  assert (Hconf : wellConfigured (mkContainer 700 500 [] [])
                    ["cam1/"; "cam2/"; "cam3/"; "cam4/"] None).
  { split; [discriminate|]. split; [reflexivity|]. split; [reflexivity|].
    repeat constructor. }
  assert (Hsized : Forall wellSized [KeyPress 51; Resize 900 650; KeyDown 39]).
  { repeat constructor; discriminate. }
  assert (Hquiet : Forall quiet [KeyPress 51; Resize 900 650; KeyDown 39]).
  { repeat constructor; discriminate. }
  assert (Hk : 0 <= 3 < Z.of_nat (length ["cam1/"; "cam2/"; "cam3/"; "cam4/"]))
    by (simpl; lia).
  eexists. split.
  { split; [cbv [CameraGrid_new default defaultResolutions_]; reflexivity|].
    exact (conj Hconf (conj Hsized (conj Hquiet Hk))). }
  match goal with
  | |- scanning_ (stateAfter _ _ (stateOf ?r)) = _ /\ _ =>
      assert (Hnew : CameraGrid_new Rev1 (mkContainer 700 500 [] [])
                       ["cam1/"; "cam2/"; "cam3/"; "cam4/"] None None = Some r)
        by (cbv [CameraGrid_new default defaultResolutions_]; reflexivity);
      exact (reachable_tiles_show_policy Rev1 _ _ _ _ r _ 3 Hnew Hconf Hsized Hquiet Hk)
  end.
Defined.

(** ** Class names as the [className] string *)

(** [s.split(' ')]: the pieces between single spaces; at least one piece. *)
Fixpoint split (s : string) : list string :=
  match s with
  | EmptyString => [EmptyString]
  | String c s' =>
      if Ascii.eqb c " "%char then EmptyString :: split s'
      else
        match split s' with
        | w :: ws => String c w :: ws
        | [] => [String c EmptyString]
        end
  end.

(** [a.join(' ')] on an array that may have holes: a hole counts as the
    empty string. *)
Fixpoint join (a : list (option string)) : string :=
  match a with
  | [] => EmptyString
  | [x] => default EmptyString x
  | x :: rest => default EmptyString x +:+ " " +:+ join rest
  end.

(** [node.className.split(' ').filter(function(className) { return className; })]:
    an empty string is falsy. *)
Definition classesOfName (nodeClassName : string) : list string :=
  filter (fun className => className <> EmptyString) (split nodeClassName).

(** [classes.indexOf(className)], with [None] for -1. *)
Fixpoint indexOf (className : string) (classes : list string) : option nat :=
  match classes with
  | [] => None
  | c :: cs => if decide (c = className) then Some 0%nat else S <$> indexOf className cs
  end.

(** [addCSSClass_] on the [className] of a node. *)
Definition addCSSClass_name (className nodeClassName : string) : string :=
  let classes := classesOfName nodeClassName in
  match indexOf className classes with
  | Some _ => nodeClassName
  | None => join (Some <$> (classes ++ [className]))
  end.

(** [removeCSSClass_] on the [className] of a node: [delete classes[i]]
    leaves a hole. *)
Definition removeCSSClass_name (className nodeClassName : string) : string :=
  let classes := classesOfName nodeClassName in
  match indexOf className classes with
  | None => nodeClassName
  | Some i => join (<[i := None]> (Some <$> classes))
  end.

(** A string without a space. *)
Fixpoint spaceFree (s : string) : Prop :=
  match s with
  | EmptyString => True
  | String c s' => c <> " "%char /\ spaceFree s'
  end.

Lemma split_not_nil (s : string) : split s <> [].
Proof.
  induction s as [|c s IH]; simpl; [discriminate|].
  destruct (Ascii.eqb c " "); [discriminate|]. now destruct (split s).
Qed.

Lemma split_spaceFree (s : string) : Forall spaceFree (split s).
Proof.
  induction s as [|c s IH]; simpl; [now repeat constructor|].
  destruct (Ascii.eqb_spec c " "%char) as [->|Hne]; [now constructor|].
  destruct (split s) as [|w ws]; [now repeat constructor|].
  inversion IH; subst. constructor; [now split|assumption].
Qed.

Lemma split_piece (x s : string) :
  spaceFree x -> split (x +:+ " " +:+ s) = x :: split s.
Proof.
  induction x as [|c x IH]; simpl; [reflexivity|]. intros [Hc Hx].
  destruct (Ascii.eqb_spec c " "%char) as [->|_]; [contradiction|].
  change (x +:+ String " " s) with (x +:+ " " +:+ s). now rewrite (IH Hx).
Qed.

Lemma split_one (x : string) : spaceFree x -> split x = [x].
Proof.
  induction x as [|c x IH]; simpl; [reflexivity|]. intros [Hc Hx].
  destruct (Ascii.eqb_spec c " "%char) as [->|_]; [contradiction|].
  now rewrite (IH Hx).
Qed.

(** Joining pieces without spaces and splitting again gives the pieces
    back, holes as empty strings. *)
Lemma split_join (a : list (option string)) :
  a <> [] -> Forall (fun x => spaceFree (default EmptyString x)) a ->
  split (join a) = default EmptyString <$> a.
Proof.
  induction a as [|x a IH]; [contradiction|]. intros _ Hall.
  inversion Hall as [|? ? Hx Ha]; subst.
  destruct a as [|y a]; [simpl; now apply split_one|].
  change (join (x :: y :: a)) with (default EmptyString x +:+ " " +:+ join (y :: a)).
  rewrite (split_piece _ _ Hx), IH; [reflexivity|discriminate|exact Ha].
Qed.

Lemma classesOfName_join (a : list (option string)) :
  Forall (fun x => spaceFree (default EmptyString x)) a ->
  classesOfName (join a)
  = filter (fun className => className <> EmptyString) (default EmptyString <$> a).
Proof.
  intros Hall. unfold classesOfName. destruct a as [|x a]; [reflexivity|].
  now rewrite split_join.
Qed.

Lemma classesOfName_spec (nodeClassName : string) :
  Forall (fun c => spaceFree c /\ c <> EmptyString) (classesOfName nodeClassName).
Proof.
  apply Forall_forall. intros c Hc. apply list_elem_of_filter in Hc.
  destruct Hc as [Hne Hin]. split; [|exact Hne].
  pose proof (split_spaceFree nodeClassName) as Hall.
  rewrite Forall_forall in Hall. now apply Hall.
Qed.

Lemma filter_nonempty (classes : list string) :
  Forall (fun c => spaceFree c /\ c <> EmptyString) classes ->
  filter (fun className => className <> EmptyString) classes = classes.
Proof.
  induction 1 as [|c cs [_ Hc] _ IH]; [reflexivity|].
  now rewrite filter_cons_True, IH.
Qed.

Lemma indexOf_None (className : string) (classes : list string) :
  indexOf className classes = None <-> className ∉ classes.
Proof.
  induction classes as [|c cs IH]; simpl.
  - split; [intros _ H; now apply elem_of_nil in H|reflexivity].
  - destruct (decide (c = className)) as [->|Hne].
    + split; [discriminate|]. intros H. exfalso. apply H. now left.
    + rewrite fmap_None, IH. rewrite not_elem_of_cons. split; [now split|now intros [_ ?]].
Qed.

Lemma default_Some (classes : list string) :
  default EmptyString <$> (Some <$> classes) = classes.
Proof. induction classes as [|c cs IH]; simpl; [reflexivity|]. now f_equal. Qed.

Lemma remove_hole (className : string) (classes : list string) (i : nat) :
  Forall (fun c => spaceFree c /\ c <> EmptyString) classes ->
  indexOf className classes = Some i ->
  filter (fun c => c <> EmptyString) (default EmptyString <$> <[i := None]> (Some <$> classes))
  = removeCSSClass_ className classes
  /\ Forall (fun x => spaceFree (default EmptyString x)) (<[i := None]> (Some <$> classes)).
Proof.
  intros Hall. revert i. induction Hall as [|c cs [Hc Hne] Hcs IH]; intros i;
    [discriminate|].
  cbn [indexOf removeCSSClass_]. rewrite fmap_cons.
  destruct (decide (c = className)) as [->|Hdiff].
  - intros [= <-].
    change (<[0%nat := None]> (Some className :: (Some <$> cs)))
      with (@None string :: (Some <$> cs)).
    rewrite fmap_cons. split.
    + rewrite filter_cons_False by (intros H; now apply H).
      rewrite default_Some. now apply filter_nonempty.
    + constructor; [exact I|]. apply Forall_fmap.
      eapply Forall_impl; [exact Hcs|]. now intros x [Hx _].
  - destruct (indexOf className cs) as [i'|] eqn:E; [|discriminate].
    intros [= <-]. destruct (IH i' eq_refl) as [IH1 IH2].
    change (<[S i' := None]> (Some c :: (Some <$> cs)))
      with (Some c :: <[i' := None]> (Some <$> cs)).
    rewrite fmap_cons. split.
    + rewrite filter_cons_True by exact Hne. now rewrite IH1.
    + constructor; [exact Hc|exact IH2].
Qed.

(** X16.  The class helpers do on the [className] string what they do on
    the list of class names.  For a class name that is not empty and holds
    no space, the class names of [addCSSClass_]'s result are those of the
    node with the name appended unless it was there; the class names of
    [removeCSSClass_]'s result are those of the node without the first
    occurrence of the name; and each leaves the string untouched when there
    is nothing to do. *)
Theorem className_helpers_refine (className nodeClassName : string) :
  spaceFree className -> className <> EmptyString ->
  classesOfName (addCSSClass_name className nodeClassName)
  = addCSSClass_ className (classesOfName nodeClassName)
  /\ classesOfName (removeCSSClass_name className nodeClassName)
     = removeCSSClass_ className (classesOfName nodeClassName)
  /\ (className ∈ classesOfName nodeClassName ->
      addCSSClass_name className nodeClassName = nodeClassName)
  /\ (className ∉ classesOfName nodeClassName ->
      removeCSSClass_name className nodeClassName = nodeClassName).
Proof.
  intros Hfree Hne. pose proof (classesOfName_spec nodeClassName) as Hspec.
  unfold addCSSClass_name, removeCSSClass_name, addCSSClass_. cbv zeta.
  destruct (indexOf className (classesOfName nodeClassName)) as [i|] eqn:E.
  - assert (Hin : className ∈ classesOfName nodeClassName).
    { destruct (decide (className ∈ classesOfName nodeClassName)) as [H|H]; [exact H|].
      apply indexOf_None in H. congruence. }
    rewrite decide_True by exact Hin.
    destruct (remove_hole className _ i Hspec E) as [Hrem Hholes].
    split; [reflexivity|]. split; [|split; [reflexivity|contradiction]].
    now rewrite classesOfName_join.
  - pose proof (proj1 (indexOf_None _ _) E) as Hnot.
    rewrite decide_False by exact Hnot.
    split; [|split; [|split; [contradiction|reflexivity]]].
    + rewrite classesOfName_join.
      * rewrite default_Some. apply filter_nonempty.
        apply Forall_app. split; [exact Hspec|]. now repeat constructor.
      * apply Forall_fmap. apply Forall_app. split.
        -- eapply Forall_impl; [exact Hspec|]. now intros x [Hx _].
        -- now repeat constructor.
    + clear -Hnot. induction (classesOfName nodeClassName) as [|c cs IH]; [reflexivity|].
      apply not_elem_of_cons in Hnot. destruct Hnot as [Hc Hcs]. simpl.
      rewrite decide_False by congruence. now rewrite <- IH.
Qed.

Lemma className_helpers_refine_witness :
  (spaceFree fullScreenClass /\ fullScreenClass <> EmptyString)
  /\ classesOfName (addCSSClass_name fullScreenClass "a  b")
     = addCSSClass_ fullScreenClass (classesOfName "a  b")
  /\ classesOfName (removeCSSClass_name fullScreenClass "a  b")
     = removeCSSClass_ fullScreenClass (classesOfName "a  b")
  /\ (fullScreenClass ∈ classesOfName "a  b" ->
      addCSSClass_name fullScreenClass "a  b" = "a  b")
  /\ (fullScreenClass ∉ classesOfName "a  b" ->
      removeCSSClass_name fullScreenClass "a  b" = "a  b").
Proof.
  assert (Hfree : spaceFree fullScreenClass) by (vm_compute; repeat split; discriminate).
  assert (Hne : fullScreenClass <> EmptyString) by discriminate.
  split; [exact (conj Hfree Hne)|].
  exact (className_helpers_refine fullScreenClass "a  b" Hfree Hne).
Defined.

(** On an example: adding to a string with a doubled space normalises it,
    and removing leaves a doubled space behind that the next call skips. *)
Example className_helpers_example :
  addCSSClass_name "c" "a  b" = "a b c"
  /\ removeCSSClass_name "b" "a b c" = "a  c"
  /\ classesOfName "a  c" = ["a"; "c"]
  /\ addCSSClass_name "a" "a  c" = "a  c".
Proof. vm_compute. repeat split; reflexivity. Qed.

(** ** Image loads *)

(** [deletePreviousSiblings_(element)] on the children of a cell, for the
    child at position [k]: each turn of the loop removes the child just
    before it. *)
Fixpoint deletePreviousSiblings_ (k : nat) (children : list string) : list string :=
  match k with
  | O => children
  | S k' => deletePreviousSiblings_ k' (delete k' children)
  end.

(** The [load] listener [buildImage_] binds for an image container.
    [position] is where the container is among the children of its cell
    when the event fires, [None] if it has been removed: its
    [previousSibling] is then [null] and the loop does not run. *)
Definition onImageLoad (index : Z) (position : option nat) : M unit :=
  match position with
  | Some k =>
      withCell index
        (fun cell =>
           mkCell (cellClasses cell) (deletePreviousSiblings_ k (imgContainers cell)))
  | None => mret tt
  end.

Lemma deletePreviousSiblings_drop (k : nat) (children : list string) :
  (k <= length children)%nat -> deletePreviousSiblings_ k children = drop k children.
Proof.
  revert children. induction k as [|k IH]; intros children Hk; simpl.
  - now rewrite drop_0.
  - assert (Htake : length (take k children) = k) by (rewrite length_take; lia).
    rewrite delete_take_drop, IH by (rewrite length_app, Htake; lia).
    rewrite <- Htake at 1. apply drop_app_length.
Qed.

(** A returning load listener removes images of its cell only, never the
    newest one, so that [buildImage_] decides for every tile as it did
    before; the load of the newest image leaves just that image. *)
Lemma onImageLoad_post (index : Z) (k : nat) (st st' : CameraGrid) (a : unit)
    (t : list Effect) (cell : Cell) :
  lookupZ (cells_ st) index = Some cell -> (k < length (imgContainers cell))%nat ->
  onImageLoad index (Some k) st = (Normal a, st', t) ->
  exists cell',
    st' = set_cells_ (<[Z.to_nat index := cell']> (cells_ st)) st
    /\ cellClasses cell' = cellClasses cell
    /\ imgContainers cell' = drop k (imgContainers cell)
    /\ last (imgContainers cell') = last (imgContainers cell)
    /\ (S k = length (imgContainers cell) -> length (imgContainers cell') = 1%nat).
Proof.
  intros Hcell Hk. unfold onImageLoad. rewrite (withCell_returns _ _ _ _ Hcell).
  intros [= _ <- _]. eexists. split; [reflexivity|]. split; [reflexivity|]. simpl.
  rewrite deletePreviousSiblings_drop by lia. split; [reflexivity|]. split.
  - rewrite !last_lookup, lookup_drop, length_drop. f_equal. lia.
  - intros E. rewrite length_drop. lia.
Qed.


(** X17.  Loading an image never changes what the tiles show.  The [load]
    listener of an image container that is still in its cell returns,
    removes the containers before it and nothing else, and keeps the newest
    image of the cell: every tile that showed the URL of the resolution
    policy still shows it, so [buildImage_] would skip exactly the tiles it
    skipped before.  The selection, the scanning flag and every other field
    stay as they are, and when the loaded image is the newest one the cell
    is left with that image alone. *)
Theorem onImageLoad_keeps_newest (index : Z) (k : nat) (st : CameraGrid) (cell : Cell) :
  lookupZ (cells_ st) index = Some cell -> (k < length (imgContainers cell))%nat ->
  exists st' cell',
    returns (onImageLoad index (Some k)) st tt st' []
    /\ onlyCells st st'
    /\ lookupZ (cells_ st') index = Some cell'
    /\ cellClasses cell' = cellClasses cell
    /\ imgContainers cell' = drop k (imgContainers cell)
    /\ (S k = length (imgContainers cell) -> length (imgContainers cell') = 1%nat)
    /\ (forall j, j <> index -> lookupZ (cells_ st') j = lookupZ (cells_ st) j)
    /\ (forall j, showsPolicy st j <-> showsPolicy st' j).
Proof.
  intros Hcell Hk.
  assert (Hrun : onImageLoad index (Some k) st
                 = (Normal tt,
                    set_cells_
                      (<[Z.to_nat index :=
                           mkCell (cellClasses cell)
                             (deletePreviousSiblings_ k (imgContainers cell))]> (cells_ st))
                      st, [])).
  { unfold onImageLoad. now rewrite (withCell_returns _ _ _ _ Hcell). }
  destruct (onImageLoad_post index k st _ tt [] cell Hcell Hk Hrun)
    as (cell' & Hst & Hclasses & Himgs & Hlast & Hone).
  pose proof (lookupZ_range _ _ _ Hcell) as Hi.
  apply lookupZ_Some in Hcell. destruct Hcell as [Hi0 Hcell].
  assert (Hlook : lookupZ (<[Z.to_nat index := cell']> (cells_ st)) index = Some cell').
  { apply lookupZ_Some. split; [exact Hi0|]. apply list_lookup_insert_eq. lia. }
  assert (Hother : forall j, j <> index ->
            lookupZ (<[Z.to_nat index := cell']> (cells_ st)) j = lookupZ (cells_ st) j).
  { intros j Hj. unfold lookupZ. destruct (Z.ltb_spec j 0); [reflexivity|].
    apply list_lookup_insert_ne. lia. }
  exists (set_cells_ (<[Z.to_nat index := cell']> (cells_ st)) st), cell'.
  split; [rewrite <- Hst; exact Hrun|].
  split; [apply onlyCells_insert|]. split; [exact Hlook|].
  split; [exact Hclasses|]. split; [exact Himgs|]. split; [exact Hone|].
  split; [exact Hother|].
  intros j. unfold showsPolicy.
  change (cells_ (set_cells_ (<[Z.to_nat index := cell']> (cells_ st)) st))
    with (<[Z.to_nat index := cell']> (cells_ st)).
  change (imgUrlOf (set_cells_ (<[Z.to_nat index := cell']> (cells_ st)) st) j)
    with (imgUrlOf st j).
  destruct (decide (j = index)) as [->|Hj].
  - rewrite Hlook. split.
    + intros (c & Hc & Hl). exists cell'. split; [reflexivity|].
      rewrite Hlast. assert (c = cell) as ->; [|exact Hl].
      apply lookupZ_Some in Hc. destruct Hc as [_ Hc]. congruence.
    + intros (c & [= <-] & Hl). exists cell. split.
      * apply lookupZ_Some. now split.
      * now rewrite <- Hlast.
  - now rewrite (Hother j Hj).
Qed.

Lemma onImageLoad_keeps_newest_witness :
  exists cell,
    (lookupZ (cells_ (stateAfter Rev1 [KeyPress 50] fourFeeds)) 1 = Some cell
     /\ (1 < length (imgContainers cell))%nat)
    /\ exists st' cell',
        returns (onImageLoad 1 (Some 1%nat)) (stateAfter Rev1 [KeyPress 50] fourFeeds)
          tt st' []
        /\ onlyCells (stateAfter Rev1 [KeyPress 50] fourFeeds) st'
        /\ lookupZ (cells_ st') 1 = Some cell'
        /\ cellClasses cell' = cellClasses cell
        /\ imgContainers cell' = drop 1 (imgContainers cell)
        /\ (2%nat = length (imgContainers cell) -> length (imgContainers cell') = 1%nat)
        /\ (forall j, j <> 1 ->
              lookupZ (cells_ st') j
              = lookupZ (cells_ (stateAfter Rev1 [KeyPress 50] fourFeeds)) j)
        /\ (forall j, showsPolicy (stateAfter Rev1 [KeyPress 50] fourFeeds) j
                      <-> showsPolicy st' j).
Proof.
  eexists. split.
  { split; [vm_compute; reflexivity|]. vm_compute. lia. }
  match goal with
  | |- exists st' cell', _ /\ _ /\ _ /\ cellClasses cell' = cellClasses ?c /\ _ =>
      assert (Hcell : lookupZ (cells_ (stateAfter Rev1 [KeyPress 50] fourFeeds)) 1 = Some c)
        by (vm_compute; reflexivity);
      assert (Hk : (1 < length (imgContainers c))%nat) by (vm_compute; lia);
      exact (onImageLoad_keeps_newest 1 1 _ c Hcell Hk)
  end.
Defined.

(** ** The two revisions *)

Lemma bind_from {A B} (m : M A) (f : A -> M B) (st st' : CameraGrid) (a : A)
    (t : list Effect) :
  m st = (Normal a, st', t) ->
  (m ≫= f) st = (completionOf (f a st'), stateOf (f a st'), t ++ traceOf (f a st')).
Proof. intros H. rewrite run_bind, H. now destruct (f a st') as [[c s] t']. Qed.

(** A recompute pass of the second revision is the one of the first with
    the console lines of its two catalog searches put in front. *)
Lemma rebuildIfNeeded_revisions (st : CameraGrid) :
  resolutions_ st <> [] ->
  completionOf (rebuildIfNeeded_ Rev2 st) = completionOf (rebuildIfNeeded_ Rev1 st)
  /\ stateOf (rebuildIfNeeded_ Rev2 st) = stateOf (rebuildIfNeeded_ Rev1 st)
  /\ exists logs,
      Forall isConsoleLog logs
      /\ traceOf (rebuildIfNeeded_ Rev2 st) = logs ++ traceOf (rebuildIfNeeded_ Rev1 st).
Proof.
  intros Hne. unfold rebuildIfNeeded_. cbv zeta.
  assert (Hget : get st = (Normal st, st, [])) by reflexivity.
  rewrite !(bind_from _ _ _ _ _ _ Hget).
  destruct (callFindMinimumResolution_run Rev1 (cellWidthPx (calculateGrid_ st))
              (cellHeightPx (calculateGrid_ st)) st Hne)
    as (r & logs1 & Hrun1 & Hr & _ & Hnil1).
  destruct (callFindMinimumResolution_run Rev2 (cellWidthPx (calculateGrid_ st))
              (cellHeightPx (calculateGrid_ st)) st Hne)
    as (r' & logs1' & Hrun1' & Hr' & Hlogs1' & _).
  destruct (callFindMinimumResolution_run Rev1 (inject_Z (offsetWidth (container_ st)))
              (inject_Z (offsetHeight (container_ st))) st Hne)
    as (cr & logs2 & Hrun2 & Hcr & _ & Hnil2).
  destruct (callFindMinimumResolution_run Rev2 (inject_Z (offsetWidth (container_ st)))
              (inject_Z (offsetHeight (container_ st))) st Hne)
    as (cr' & logs2' & Hrun2' & Hcr' & Hlogs2' & _).
  assert (r' = r) as -> by congruence. assert (cr' = cr) as -> by congruence.
  rewrite (Hnil1 eq_refl) in Hrun1. rewrite (Hnil2 eq_refl) in Hrun2.
  rewrite (bind_from _ _ _ _ _ _ Hrun1'), (bind_from _ _ _ _ _ _ Hrun1).
  rewrite (bind_from _ _ _ _ _ _ Hrun2'), (bind_from _ _ _ _ _ _ Hrun2).
  cbn [completionOf stateOf traceOf fst snd app].
  split; [reflexivity|]. split; [reflexivity|].
  exists (logs1' ++ logs2'). split; [now apply Forall_app|].
  now rewrite <- app_assoc.
Qed.

(** X18.  The two revisions of the file behave alike.  On a controller with
    a non-empty catalog every handler of the second revision completes as
    the one of the first does and leaves the same controller; its trace is
    the trace of the first revision after some console lines (those of
    [findMinimumResolution_]). *)
Theorem revisions_agree_on_handlers (e : Event) (st : CameraGrid) :
  resolutions_ st <> [] ->
  completionOf (dispatch Rev2 e st) = completionOf (dispatch Rev1 e st)
  /\ stateOf (dispatch Rev2 e st) = stateOf (dispatch Rev1 e st)
  /\ exists logs,
      Forall isConsoleLog logs
      /\ traceOf (dispatch Rev2 e st) = logs ++ traceOf (dispatch Rev1 e st).
Proof.
  intros Hne.
  destruct e as [charCode|keyCode|index|width height|];
    try (split; [reflexivity|split; [reflexivity|exists []; split; [constructor|reflexivity]]]).
  cbn [dispatch].
  set (st1 := set_container_
                (mkContainer width height (containerClasses (container_ st))
                   (rows (container_ st))) st).
  assert (Hmodify : modify
            (fun this =>
               set_container_
                 (mkContainer width height (containerClasses (container_ this))
                    (rows (container_ this))) this) st
          = (Normal tt, st1, [])) by reflexivity.
  rewrite !(bind_from _ _ _ _ _ _ Hmodify).
  cbn [completionOf stateOf traceOf fst snd app].
  exact (rebuildIfNeeded_revisions st1 Hne).
Qed.

Lemma revisions_agree_on_handlers_witness :
  resolutions_ fourFeeds <> []
  /\ completionOf (dispatch Rev2 (Resize 3000 2000) fourFeeds)
     = completionOf (dispatch Rev1 (Resize 3000 2000) fourFeeds)
  /\ stateOf (dispatch Rev2 (Resize 3000 2000) fourFeeds)
     = stateOf (dispatch Rev1 (Resize 3000 2000) fourFeeds)
  /\ exists logs,
      Forall isConsoleLog logs
      /\ traceOf (dispatch Rev2 (Resize 3000 2000) fourFeeds)
         = logs ++ traceOf (dispatch Rev1 (Resize 3000 2000) fourFeeds).
Proof.
  assert (Hne : resolutions_ fourFeeds <> []) by (vm_compute; discriminate).
  split; [exact Hne|].
  exact (revisions_agree_on_handlers (Resize 3000 2000) fourFeeds Hne).
Defined.

(** ** The default URL builder *)

(** No character of the string is [x] or [u]. *)
Fixpoint plain (s : string) : Prop :=
  match s with
  | EmptyString => True
  | String c s' => (c <> "x"%char /\ c <> "u"%char) /\ plain s'
  end.

Lemma pretty_N_go_plain (x : N) (s : string) : plain s -> plain (pretty_N_go x s).
Proof.
  revert s. induction (N.lt_wf_0 x) as [x _ IH]; intros s Hs.
  assert (Hcases : (x = 0 \/ 0 < x)%N) by lia. destruct Hcases as [->|Hpos].
  - now rewrite pretty_N_go_0.
  - rewrite pretty_N_go_step by exact Hpos. apply IH.
    + now apply N.div_lt.
    + split; [|exact Hs]. unfold pretty_N_char.
      repeat case_match; split; discriminate.
Qed.

Lemma pretty_Z_plain (z : Z) : plain (pretty z).
Proof.
  assert (HN : forall n : N, plain (pretty n)).
  { intros n. unfold pretty, pretty_N. destruct (decide (n = 0%N)).
    - simpl. repeat split; discriminate.
    - now apply pretty_N_go_plain. }
  destruct z as [|p|p]; unfold pretty, pretty_Z.
  - simpl. repeat split; discriminate.
  - apply HN.
  - simpl. split; [split; discriminate|]. apply HN.
Qed.

Lemma append_inj (s a b : string) : s +:+ a = s +:+ b -> a = b.
Proof. induction s as [|c s IH]; simpl; [tauto|]. intros [= H]. now apply IH. Qed.

(** The character [x] does not occur in the string. *)
Fixpoint xFree (s : string) : Prop :=
  match s with
  | EmptyString => True
  | String c s' => c <> "x"%char /\ xFree s'
  end.

Lemma plain_xFree (s : string) : plain s -> xFree s.
Proof.
  induction s as [|c s IH]; [trivial|]. intros [[Hx _] Hs]. split; [exact Hx|now apply IH].
Qed.

Lemma split_at_x (a a' b b' : string) :
  xFree a -> xFree a' ->
  a +:+ String "x" b = a' +:+ String "x" b' -> a = a' /\ b = b'.
Proof.
  revert a'. induction a as [|c a IH]; intros [|c' a'] Ha Ha'; simpl.
  - now intros [= ->].
  - intros [= <- _]. destruct Ha' as [H _]. now contradiction H.
  - intros [= -> _]. destruct Ha as [H _]. now contradiction H.
  - intros [= -> H]. destruct (IH a' (proj2 Ha) (proj2 Ha') H) as [-> ->]. now split.
Qed.

Lemma numberToString_inj (n n' : option Z) :
  numberToString n = numberToString n' -> n = n'.
Proof.
  destruct n as [z|], n' as [z'|]; simpl; intros H.
  - f_equal. now apply (inj pretty).
  - pose proof (pretty_Z_plain z) as Hp. rewrite H in Hp.
    destruct Hp as [[_ Hu] _]. now contradiction Hu.
  - pose proof (pretty_Z_plain z') as Hp. rewrite <- H in Hp.
    destruct Hp as [[_ Hu] _]. now contradiction Hu.
  - reflexivity.
Qed.

Lemma numberToString_xFree (n : option Z) : xFree (numberToString n).
Proof.
  destruct n as [z|]; simpl.
  - apply plain_xFree, pretty_Z_plain.
  - repeat split; discriminate.
Qed.

(** A number JavaScript writes in full, without an exponent. *)
Definition writtenInFull (n : option Z) : Prop :=
  match n with
  | Some z => - 10 ^ 21 < z < 10 ^ 21
  | None => True
  end.

(** X19.  The default URL builder never gives two resolutions the same URL:
    for one source URL and numbers below 10^21, which are written in full,
    equal results mean equal widths and equal heights (a missing number is
    written [undefined]). *)
Theorem defaultGetUrl_injective (sourceUrl : option string)
    (width height width' height' : option Z) :
  writtenInFull width -> writtenInFull height ->
  writtenInFull width' -> writtenInFull height' ->
  defaultGetUrl_ sourceUrl width height = defaultGetUrl_ sourceUrl width' height' ->
  width = width' /\ height = height'.
Proof.
  unfold defaultGetUrl_. intros _ _ _ _ H.
  apply append_inj in H. apply append_inj in H.
  change (numberToString width +:+ "x" +:+ numberToString height)
    with (numberToString width +:+ String "x" (numberToString height)) in H.
  change (numberToString width' +:+ "x" +:+ numberToString height')
    with (numberToString width' +:+ String "x" (numberToString height')) in H.
  apply split_at_x in H; try apply numberToString_xFree.
  destruct H as [Hw Hh]. split; now apply numberToString_inj.
Qed.

Lemma defaultGetUrl_injective_witness :
  (writtenInFull (Some 640) /\ writtenInFull (Some 480)
   /\ writtenInFull (Some (600 + 40)) /\ writtenInFull (Some (500 - 20))
   /\ defaultGetUrl_ (Some "cam1/") (Some 640) (Some 480)
      = defaultGetUrl_ (Some "cam1/") (Some (600 + 40)) (Some (500 - 20)))
  /\ Some 640 = Some (600 + 40) /\ Some 480 = Some (500 - 20).
Proof.
  assert (H : defaultGetUrl_ (Some "cam1/") (Some 640) (Some 480)
              = defaultGetUrl_ (Some "cam1/") (Some (600 + 40)) (Some (500 - 20)))
    by reflexivity.
  assert (H1 : writtenInFull (Some 640)) by (simpl; lia).
  assert (H2 : writtenInFull (Some 480)) by (simpl; lia).
  assert (H3 : writtenInFull (Some (600 + 40))) by (simpl; lia).
  assert (H4 : writtenInFull (Some (500 - 20))) by (simpl; lia).
  split; [exact (conj H1 (conj H2 (conj H3 (conj H4 H))))|].
  exact (defaultGetUrl_injective _ _ _ _ _ H1 H2 H3 H4 H).
Defined.

(** ** The two constructors *)

Lemma buildImage_ignores_container (c : option Z) (index : Z) (st : CameraGrid) :
  scanning_ st = false -> selected_ st = None ->
  buildImage_ index (set_containerImgWidthPx_ c st)
  = (completionOf (buildImage_ index st),
     set_containerImgWidthPx_ c (stateOf (buildImage_ index st)),
     traceOf (buildImage_ index st)).
Proof.
  intros Hscan Hsel.
  assert (Hurl : imgUrlOf (set_containerImgWidthPx_ c st) index = imgUrlOf st index).
  { unfold imgUrlOf, isSelected. cbn. now rewrite Hscan, Hsel. }
  destruct (lookupZ (cells_ st) index) as [cell|] eqn:Hcell.
  - rewrite (buildImage_run index st cell Hcell).
    rewrite (buildImage_run index (set_containerImgWidthPx_ c st) cell Hcell), Hurl.
    now destruct (decide _).
  - rewrite (buildImage_throws index st Hcell).
    now rewrite (buildImage_throws index (set_containerImgWidthPx_ c st) Hcell).
Qed.

Lemma forEach_ignores_container (c : option Z) (l : list Z) (st : CameraGrid) :
  scanning_ st = false -> selected_ st = None ->
  forEach l buildImage_ (set_containerImgWidthPx_ c st)
  = (completionOf (forEach l buildImage_ st),
     set_containerImgWidthPx_ c (stateOf (forEach l buildImage_ st)),
     traceOf (forEach l buildImage_ st)).
Proof.
  revert st. induction l as [|i l IH]; intros st Hscan Hsel; [reflexivity|].
  cbn [forEach]. rewrite !run_bind, (buildImage_ignores_container c i st Hscan Hsel).
  pose proof (buildImage_onlyCells i st) as [Heq _].
  destruct (buildImage_ i st) as [[[[]|] s] t]; [|reflexivity].
  unfold completionOf, stateOf, traceOf in *. cbn [fst snd] in *.
  rewrite IH by (rewrite Heq; assumption).
  now destruct (forEach l buildImage_ s) as [[r s'] t'].
Qed.

Lemma buildImages_ignores_container (c : option Z) (st : CameraGrid) :
  scanning_ st = false -> selected_ st = None ->
  buildImages_ (set_containerImgWidthPx_ c st)
  = (completionOf (buildImages_ st),
     set_containerImgWidthPx_ c (stateOf (buildImages_ st)),
     traceOf (buildImages_ st)).
Proof.
  intros Hscan Hsel. unfold buildImages_, asBuildImages. rewrite !run_bind. cbn [get].
  change (sourceUrls_ (set_containerImgWidthPx_ c st)) with (sourceUrls_ st).
  rewrite (forEach_ignores_container c _ st Hscan Hsel).
  now destruct (forEach _ buildImage_ st) as [[r s'] t'].
Qed.


Lemma forEach_emit_logs (logged : list string) (st : CameraGrid) :
  forEach logged (fun msg => emit (ConsoleLog msg)) st
  = (Normal tt, st, ConsoleLog <$> logged).
Proof.
  induction logged as [|msg logged IH]; [reflexivity|].
  cbn [forEach]. rewrite run_bind. cbn [emit]. now rewrite IH.
Qed.

(** A call of [findMinimumResolution_] reads the catalog and nothing else,
    and leaves the controller as it is. *)
Lemma callFindMinimumResolution_reads (rev : Revision) (tileWidth tileHeight : Q)
    (st st' : CameraGrid) :
  resolutions_ st' = resolutions_ st ->
  callFindMinimumResolution_ rev tileWidth tileHeight st'
  = (completionOf (callFindMinimumResolution_ rev tileWidth tileHeight st), st',
     traceOf (callFindMinimumResolution_ rev tileWidth tileHeight st)).
Proof.
  intros Hres. unfold callFindMinimumResolution_. rewrite !run_bind. cbn [get].
  rewrite Hres. destruct rev; [reflexivity|].
  destruct (findMinimumResolution_2 (resolutions_ st) tileWidth tileHeight)
    as [logged [r|]]; rewrite !run_bind, !forEach_emit_logs; reflexivity.
Qed.

Lemma bind_get {B} (f : CameraGrid -> M B) (s : CameraGrid) : (get ≫= f) s = f s s.
Proof. rewrite run_bind. unfold get. now destruct (f s s) as [[c x] t]. Qed.

Lemma bind_same {A B} (m m' : M A) (f f' : A -> M B) (s s' x x' : CameraGrid)
    (a : A) (t : list Effect) :
  m s = (Normal a, x, t) -> m' s' = (Normal a, x', t) -> f a x = f' a x' ->
  (m ≫= f) s = (m' ≫= f') s'.
Proof. intros H H' Hf. now rewrite !run_bind, H, H', Hf. Qed.

Lemma refresh_ignores_stale (w h a b c : option Z) (st : CameraGrid) :
  length (cells_ st) = length (sourceUrls_ st) ->
  scanning_ st = false -> selected_ st = None ->
  exists x t,
    (modify (set_imgWidthPx_ w);; modify (set_imgHeightPx_ h);; buildImages_)
      (set_imgWidthPx_ a (set_imgHeightPx_ b (set_containerImgWidthPx_ c st)))
    = (Normal tt, set_containerImgWidthPx_ c x, t)
    /\ (modify (set_imgWidthPx_ w);; modify (set_imgHeightPx_ h);; buildImages_) st
       = (Normal tt, x, t).
Proof.
  intros Hlen Hscan Hsel.
  destruct (buildImages_run (set_imgHeightPx_ h (set_imgWidthPx_ w st)) Hlen)
    as (cells' & rs & Hrun & _).
  exists (set_cells_ cells' (set_imgHeightPx_ h (set_imgWidthPx_ w st))), [BuildImages rs].
  assert (E : forall s,
    (modify (set_imgWidthPx_ w);; modify (set_imgHeightPx_ h);; buildImages_) s
    = buildImages_ (set_imgHeightPx_ h (set_imgWidthPx_ w s))).
  { intros s. rewrite run_bind. cbn [modify]. rewrite run_bind. cbn [modify app].
    now destruct (buildImages_ (set_imgHeightPx_ h (set_imgWidthPx_ w s)))
      as [[[[]|] s'] t']. }
  rewrite !E. split; [|exact Hrun].
  change (set_imgHeightPx_ h (set_imgWidthPx_ w
            (set_imgWidthPx_ a (set_imgHeightPx_ b (set_containerImgWidthPx_ c st)))))
    with (set_containerImgWidthPx_ c (set_imgHeightPx_ h (set_imgWidthPx_ w st))).
  rewrite (buildImages_ignores_container c (set_imgHeightPx_ h (set_imgWidthPx_ w st))
             Hscan Hsel), Hrun.
  reflexivity.
Qed.

(** A recompute pass does not depend on cached resolutions it is going to
    replace: with nothing selected and scanning off, a pass that finds the
    grid-cell resolution and the full-screen resolution changed does the
    same whatever the cached widths and the cached grid-cell height were. *)
Lemma rebuildIfNeeded_ignores_stale (rev : Revision) (st : CameraGrid) (a b c : option Z) :
  resolutions_ st <> [] -> length (cells_ st) = length (sourceUrls_ st) ->
  scanning_ st = false -> selected_ st = None ->
  resolutionTest st = true ->
  resolutionTest (set_imgWidthPx_ a (set_imgHeightPx_ b st)) = true ->
  containerResolutionTest st = true ->
  containerResolutionTest (set_containerImgWidthPx_ c st) = true ->
  rebuildIfNeeded_ rev (set_imgWidthPx_ a (set_imgHeightPx_ b (set_containerImgWidthPx_ c st)))
  = rebuildIfNeeded_ rev st.
Proof.
  intros Hne Hlen Hscan Hsel T3 T3' T4 T4'.
  set (st' := set_imgWidthPx_ a (set_imgHeightPx_ b (set_containerImgWidthPx_ c st))).
  assert (Hgrid : calculateGrid_ st' = calculateGrid_ st)
    by (apply calculateGrid_reads; reflexivity).
  destruct (callFindMinimumResolution_run rev (cellWidthPx (calculateGrid_ st))
              (cellHeightPx (calculateGrid_ st)) st Hne)
    as (r & logs1 & Hrun1 & Hr & _).
  destruct (callFindMinimumResolution_run rev (inject_Z (offsetWidth (container_ st)))
              (inject_Z (offsetHeight (container_ st))) st Hne)
    as (cr & logs2 & Hrun2 & Hcr & _).
  assert (Hrun1' : callFindMinimumResolution_ rev (cellWidthPx (calculateGrid_ st))
                     (cellHeightPx (calculateGrid_ st)) st' = (Normal (Some r), st', logs1)).
  { rewrite (callFindMinimumResolution_reads rev _ _ st st' eq_refl). now rewrite Hrun1. }
  assert (Hrun2' : callFindMinimumResolution_ rev (inject_Z (offsetWidth (container_ st)))
                     (inject_Z (offsetHeight (container_ st))) st' = (Normal (Some cr), st', logs2)).
  { rewrite (callFindMinimumResolution_reads rev _ _ st st' eq_refl). now rewrite Hrun2. }
  unfold resolutionTest, newResolution in T3, T3'.
  unfold containerResolutionTest, newContainerResolution in T4, T4'.
  change (calculateGrid_ (set_imgWidthPx_ a (set_imgHeightPx_ b st)))
    with (calculateGrid_ st) in T3'.
  cbn [resolutions_ set_imgWidthPx_ set_imgHeightPx_ set_containerImgWidthPx_
       imgWidthPx_ imgHeightPx_ containerImgWidthPx_ containerImgHeightPx_
       container_] in T3', T4'.
  rewrite Hr in T3, T3'. rewrite Hcr in T4, T4'.
  cbn [fmap option_fmap option_map] in T3, T3', T4, T4'.
  unfold rebuildIfNeeded_. rewrite !bind_get. cbv zeta. rewrite Hgrid.
  change (container_ st') with (container_ st).
  change (constraint_ st') with (constraint_ st).
  change (containerConstraint_ st') with (containerConstraint_ st).
  change (imgWidthPx_ st') with a. change (imgHeightPx_ st') with b.
  change (containerImgWidthPx_ st') with c.
  change (containerImgHeightPx_ st') with (containerImgHeightPx_ st).
  change (selected_ st') with (selected_ st).
  change (gridWidthCells_ st') with (gridWidthCells_ st).
  change (gridHeightCells_ st') with (gridHeightCells_ st).
  rewrite Hsel.
  eapply bind_same; [exact Hrun1'|exact Hrun1|].
  eapply bind_same; [exact Hrun2'|exact Hrun2|].
  destruct (constraint_neq _ _), (constraint_neq _ _).
  all: (eapply bind_same; [reflexivity|reflexivity|]).
  all: (eapply bind_same; [reflexivity|reflexivity|]).
  all: (eapply bind_same; [reflexivity|reflexivity|]).
  all: (eapply bind_same; [reflexivity|reflexivity|]).
  all: rewrite T3, T3'.
  all: match goal with
       | |- _ = (_ ≫= _) ?X =>
           destruct (refresh_ignores_stale (Some (imgWidthPx r)) (Some (imgHeightPx r))
                       a b c X Hlen Hscan Hsel) as (x & t & Hx' & Hx)
       end.
  all: (eapply bind_same; [exact Hx'|exact Hx|]).
  all: (eapply bind_same; [reflexivity|reflexivity|]).
  all: (eapply bind_same; [reflexivity|reflexivity|]).
  all: rewrite T4, T4'.
  all: (eapply bind_same; [reflexivity|reflexivity|]).
  all: reflexivity.
Qed.

(** X20.  The two constructors build the same controller.  For a call a page
    makes (at least one source URL, a container of positive size, a catalog
    of positive sizes) the constructor of the second revision, which leaves
    the cached image sizes undefined, completes as the one of the first,
    which starts them at 0, and leaves the same controller; its trace is the
    trace of the first after the console lines of its catalog searches. *)
Theorem constructors_agree (container : Container) (sourceUrls : list string)
    (resolutions : option (list (Z * Z)))
    (getUrl : option (option string -> option Z -> option Z -> string))
    (r1 : Completion unit * CameraGrid * list Effect) :
  wellConfigured container sourceUrls resolutions ->
  CameraGrid_new Rev1 container sourceUrls resolutions getUrl = Some r1 ->
  exists r2,
    CameraGrid_new Rev2 container sourceUrls resolutions getUrl = Some r2
    /\ completionOf r2 = completionOf r1
    /\ stateOf r2 = stateOf r1
    /\ exists logs, Forall isConsoleLog logs /\ traceOf r2 = logs ++ traceOf r1.
Proof.
  unfold CameraGrid_new, wellConfigured. cbv zeta.
  destruct (default defaultResolutions_ resolutions) as [|first rest] eqn:Hres;
    [intros _ [=]|].
  intros (Hurls & HW & HH & Hpos) [= <-]. eexists. split; [reflexivity|].
  set (st0 := initialFields Rev2 container sourceUrls (first :: rest)
                (default defaultGetUrl_ getUrl) first).
  set (st2 := stateOf (buildStylesheet_
                (set_cells_ ((fun _ => mkCell [] []) <$> sourceUrls) st0))).
  set (zero := Some 0).
  assert (H2 : construct Rev2 st0 = rebuildIfNeeded_ Rev2 st2).
  { unfold construct. rewrite (bind_from buildCells_ _ st0 _ tt [] eq_refl).
    rewrite (bind_from buildStylesheet_ _ _ st2 tt [] eq_refl).
    now destruct (rebuildIfNeeded_ Rev2 st2) as [[c s] t]. }
  assert (H1 : construct Rev1 (initialFields Rev1 container sourceUrls (first :: rest)
                                 (default defaultGetUrl_ getUrl) first)
               = rebuildIfNeeded_ Rev1
                   (set_imgWidthPx_ zero (set_imgHeightPx_ zero
                      (set_containerImgWidthPx_ zero st2)))).
  { unfold construct. rewrite (bind_from buildCells_ _ _ _ tt [] eq_refl).
    rewrite (bind_from buildStylesheet_ _ _ _ tt [] eq_refl).
    now destruct (rebuildIfNeeded_ Rev1 _) as [[c s] t]. }
  assert (Hne : resolutions_ st2 <> []) by discriminate.
  assert (Hstale : rebuildIfNeeded_ Rev1
                     (set_imgWidthPx_ zero (set_imgHeightPx_ zero
                        (set_containerImgWidthPx_ zero st2)))
                   = rebuildIfNeeded_ Rev1 st2).
  { destruct (callFindMinimumResolution_run Rev1 (cellWidthPx (calculateGrid_ st2))
                (cellHeightPx (calculateGrid_ st2)) st2 Hne) as (r & _ & _ & Hr & _).
    destruct (callFindMinimumResolution_run Rev1 (inject_Z (offsetWidth (container_ st2)))
                (inject_Z (offsetHeight (container_ st2))) st2 Hne) as (cr & _ & _ & Hcr & _).
    destruct (findMinimumResolution_entry _ _ _ _ Hr) as (entry & Hin & ->).
    assert (Hentry : 0 < fst entry /\ 0 < snd entry).
    { unfold positiveEntries in Hpos. rewrite Forall_forall in Hpos. now apply Hpos. }
    apply rebuildIfNeeded_ignores_stale; try reflexivity; try exact Hne.
    - simpl. now rewrite length_fmap.
    - unfold resolutionTest, newResolution. rewrite Hr. reflexivity.
    - unfold resolutionTest, newResolution.
      change (calculateGrid_ (set_imgWidthPx_ zero (set_imgHeightPx_ zero st2)))
        with (calculateGrid_ st2).
      change (resolutions_ (set_imgWidthPx_ zero (set_imgHeightPx_ zero st2)))
        with (resolutions_ st2).
      rewrite Hr. apply orb_true_iff. left. apply num_neq_spec.
      cbn. intros [= E]. lia.
    - unfold containerResolutionTest, newContainerResolution. rewrite Hcr.
      apply orb_true_r.
    - unfold containerResolutionTest, newContainerResolution.
      change (resolutions_ (set_containerImgWidthPx_ zero st2)) with (resolutions_ st2).
      change (container_ (set_containerImgWidthPx_ zero st2)) with (container_ st2).
      rewrite Hcr. apply orb_true_r. }
  rewrite H1, H2, Hstale. exact (rebuildIfNeeded_revisions st2 Hne).
Qed.

Lemma constructors_agree_witness :
  wellConfigured (mkContainer 700 500 [] []) ["cam1/"; "cam2/"; "cam3/"; "cam4/"] None
  /\ exists r1 r2,
      CameraGrid_new Rev1 (mkContainer 700 500 [] []) ["cam1/"; "cam2/"; "cam3/"; "cam4/"]
        None None = Some r1
      /\ CameraGrid_new Rev2 (mkContainer 700 500 [] []) ["cam1/"; "cam2/"; "cam3/"; "cam4/"]
           None None = Some r2
      /\ completionOf r2 = completionOf r1
      /\ stateOf r2 = stateOf r1
      /\ exists logs, Forall isConsoleLog logs /\ traceOf r2 = logs ++ traceOf r1.
Proof.
  assert (Hconf : wellConfigured (mkContainer 700 500 [] [])
                    ["cam1/"; "cam2/"; "cam3/"; "cam4/"] None).
  { split; [discriminate|]. split; [reflexivity|]. split; [reflexivity|].
    repeat constructor. }
  split; [exact Hconf|].
  destruct (constructors_agree (mkContainer 700 500 [] [])
              ["cam1/"; "cam2/"; "cam3/"; "cam4/"] None None _ Hconf eq_refl)
    as (r2 & H2 & H).
  exact (ex_intro _ _ (ex_intro _ r2 (conj eq_refl (conj H2 H)))).
Defined.
